(** * std-minver: a shallow embedding of the probing core and its checks

    The development follows the Python sources of the repository:
    - [cetest_models.py]      version-ish sort keys ([parse_semver_key]);
    - [cetest_prefs.py]       library rules ([_effective_libraries_for_compiler]);
    - [cetest_ce.py]          the per-group boundary search ([_probe_group_binary])
                              and the worker loop ([run]);
    - [cetest_app.py]         the report dictionary and its reader;
    - [cetest_preprocess.py]  the quoted-include flattener and the include
                              directories of a command line;
    - [cetest_core.py]        HTML escaping ([_escape_html]).

    Conventions.  Python [str] values are modelled by [string]; the text
    primitives ([strip], [lower], [\s], [\d], [splitlines]) are embedded for
    ASCII text (code points below 128), which is where the interpreter's
    Unicode tables and this byte-wise reading agree; a property whose
    statement depends on what these primitives return carries the
    hypothesis that the texts are ASCII.  Python [int] is [Z] (unbounded);
    [int] of a digit run is the number it denotes, and raises
    [ValueError] when the run has more digits than the interpreter's
    limit (4300 by default); list indices and counters are [nat].
    [None] is [option]. *)

From Stdlib Require Import ZArith Ascii String List Lia.
From Stdlib Require QArith Qminmax.
From stdpp Require Import gmap strings list sorting pretty.
From Equations Require Import Equations.

Local Open Scope string_scope.

(** ** Python text primitives *)

Module PyStr.

(** [str.isspace] on ASCII: TAB..CR, FS..US and the blank.  The same set
    is what [\s] matches in a [str] pattern. *)
Definition is_space (c : ascii) : bool :=
  let n := nat_of_ascii c in
  (((9 <=? n) && (n <=? 13)) || ((28 <=? n) && (n <=? 32)))%nat.

(** [\d] on ASCII. *)
Definition is_digit (c : ascii) : bool :=
  let n := nat_of_ascii c in ((48 <=? n) && (n <=? 57))%nat.

(** [\w] on ASCII: letters, digits and the underscore. *)
Definition is_word (c : ascii) : bool :=
  let n := nat_of_ascii c in
  is_digit c
  || (((65 <=? n) && (n <=? 90)) || ((97 <=? n) && (n <=? 122))
      || (n =? 95))%nat.

Definition is_ascii_char (c : ascii) : bool := (nat_of_ascii c <? 128)%nat.

Fixpoint is_ascii (s : string) : bool :=
  match s with
  | EmptyString => true
  | String c r => is_ascii_char c && is_ascii r
  end.

Definition is_empty (s : string) : bool :=
  match s with EmptyString => true | _ => false end.

(** Every character of [s] satisfies [f]. *)
Fixpoint all_chars (f : ascii -> bool) (s : string) : bool :=
  match s with
  | EmptyString => true
  | String c r => f c && all_chars f r
  end.

(** A non-empty run of ASCII digits. *)
Definition is_number (s : string) : bool :=
  negb (is_empty s) && all_chars is_digit s.

Fixpoint lstrip (s : string) : string :=
  match s with
  | EmptyString => EmptyString
  | String c r => if is_space c then lstrip r else s
  end.

Fixpoint rstrip (s : string) : string :=
  match s with
  | EmptyString => EmptyString
  | String c r =>
      let r' := rstrip r in
      if is_space c && is_empty r' then EmptyString else String c r'
  end.

(** [s.strip()] *)
Definition strip (s : string) : string := rstrip (lstrip s).

Definition lower_char (c : ascii) : ascii :=
  let n := nat_of_ascii c in
  if ((65 <=? n) && (n <=? 90))%nat then ascii_of_nat (n + 32) else c.

(** [s.lower()] *)
Fixpoint lower (s : string) : string :=
  match s with
  | EmptyString => EmptyString
  | String c r => String (lower_char c) (lower r)
  end.

(** [s.startswith(p)] *)
Fixpoint startswith (p s : string) : bool :=
  match p, s with
  | EmptyString, _ => true
  | String a p', String b s' => Ascii.eqb a b && startswith p' s'
  | String _ _, EmptyString => false
  end.

(** [sub in s] *)
Fixpoint contains (sub s : string) : bool :=
  startswith sub s ||
  match s with
  | EmptyString => false
  | String _ r => contains sub r
  end.

(** The longest prefix of characters satisfying [f], and what follows. *)
Fixpoint span (f : ascii -> bool) (s : string) : string * string :=
  match s with
  | EmptyString => (EmptyString, EmptyString)
  | String c r =>
      if f c then let '(a, b) := span f r in (String c a, b)
      else (EmptyString, s)
  end.

(** The number that a run of ASCII digits denotes. *)
Definition digit_val (c : ascii) : Z := Z.of_nat (nat_of_ascii c) - 48.

Fixpoint int_of_digits_from (acc : Z) (d : string) : Z :=
  match d with
  | EmptyString => acc
  | String c r => int_of_digits_from (10 * acc + digit_val c) r
  end.

Definition digits_value (d : string) : Z := int_of_digits_from 0 d.

(** The interpreter's default limit on the number of digits of a text
    handed to [int] ([sys.get_int_max_str_digits()]). *)
Definition int_max_str_digits : nat := 4300.

(** [int(d)] for a run of ASCII digits [d]: the number it denotes, or
    [None] when [int] raises [ValueError] because [d] has more digits
    than the limit. *)
Definition int_of_digits (d : string) : option Z :=
  if (String.length d <=? int_max_str_digits)%nat then Some (digits_value d)
  else None.

(** [s.replace(a, b)] for a single character [a]. *)
Fixpoint replace_char (a : ascii) (b : string) (s : string) : string :=
  match s with
  | EmptyString => EmptyString
  | String c r =>
      if Ascii.eqb c a then b ++ replace_char a b r
      else String c (replace_char a b r)
  end.

(** [x in (a, b, ...)] on texts. *)
Definition str_in (x : string) (l : list string) : bool :=
  existsb (String.eqb x) l.

End PyStr.

(** ** cetest_models.py *)

Module Models.
Import PyStr.

Record CompilerInfo := {
  id : string;
  name : string;
  lang : string;
  compiler_type : string;
  semver : option string;
  instruction_set : option string;
}.

(** The 5-tuple [(int, int, int, int, str)] returned by [parse_semver_key]. *)
Definition SemverKey : Type := Z * Z * Z * Z * string.

(** Python's tuple comparison: lexicographic, integers by value and the
    last component by code points. *)
Definition key_compare (k1 k2 : SemverKey) : comparison :=
  let '(a1, b1, c1, d1, r1) := k1 in
  let '(a2, b2, c2, d2, r2) := k2 in
  match Z.compare a1 a2 with
  | Eq => match Z.compare b1 b2 with
          | Eq => match Z.compare c1 c2 with
                  | Eq => match Z.compare d1 d2 with
                          | Eq => String.compare r1 r2
                          | o => o
                          end
                  | o => o
                  end
          | o => o
          end
  | o => o
  end.

(** [k1 < k2] on tuples. *)
Definition key_lt (k1 k2 : SemverKey) : bool :=
  match key_compare k1 k2 with Lt => true | _ => false end.

Definition bleeding_tokens : list string :=
  ["trunk"; "head"; "git"; "snapshot"; "nightly"; "tip"].

(** [any(k in st for k in (...))] *)
Definition has_bleeding_token (st : string) : bool :=
  existsb (fun k => contains k st) bleeding_tokens.

(** [re.match(r"^\d", st)] *)
Definition starts_with_digit (st : string) : bool :=
  match st with
  | String c _ => is_digit c
  | EmptyString => false
  end.

Definition newline : ascii := ascii_of_nat 10.

(** The last group of the version pattern, any run of characters up to
    the end anchor: the dot does not match a line feed and the end anchor
    also matches just before a final line feed. *)
Definition match_dot_star_end (r : string) : option string :=
  let '(body, tl) := span (fun c => negb (Ascii.eqb c newline)) r in
  match tl with
  | EmptyString => Some body
  | String _ EmptyString => Some body
  | _ => None
  end.

(** An optional group, a dot followed by one or more digits: the digits
    captured, if any, and the unread text. *)
Definition match_dot_digits (r : string) : option string * string :=
  match r with
  | String "." r' =>
      match span is_digit r' with
      | (EmptyString, _) => (None, r)
      | (d, r'') => (Some d, r'')
      end
  | _ => (None, r)
  end.

(** [re.match] of the version pattern on [t]: optional blanks, a run of
    digits, two optional dot-digits groups and the rest of the line; the
    four groups on success.  Each quantifier is greedy, and giving a
    character back never turns a failure of the last group into a
    success, so the greedy reading is the match. *)
Definition match_version (t : string)
  : option (string * option string * option string * string) :=
  let t1 := lstrip t in
  match span is_digit t1 with
  | (EmptyString, _) => None
  | (g1, r1) =>
      let '(g2, r2) := match_dot_digits r1 in
      let '(g3, r3) := match g2 with
                       | Some _ => match_dot_digits r2
                       | None => (None, r2)
                       end in
      match match_dot_star_end r3 with
      | Some g4 => Some (g1, g2, g3, g4)
      | None => None
      end
  end.

(** [int(g or 0)] for an optional group; [None] when [int] raises. *)
Definition int_of_group (g : option string) : option Z :=
  match g with
  | Some d => int_of_digits d
  | None => Some 0%Z
  end.

(** [parse_semver_key]: the key returned, or [None] when one of the
    three calls of [int] raises [ValueError]. *)
Definition parse_semver_key (s : option string) : option SemverKey :=
  match s with
  | None => Some (0, 0, 0, 0, "")%Z
  | Some "" => Some (0, 0, 0, 0, "")%Z
  | Some s =>
      let st := lower (strip s) in
      if has_bleeding_token st && negb (starts_with_digit st) then
        Some (9999, 9999, 9999, 9999, st)%Z
      else
        match match_version (strip s) with
        | None => Some (0, 0, 0, 0, strip s)%Z
        | Some (g1, g2, g3, g4) =>
            match int_of_digits g1 with
            | None => None
            | Some a =>
                match int_of_group g2 with
                | None => None
                | Some b =>
                    match int_of_group g3 with
                    | None => None
                    | Some c =>
                        let rest := strip g4 in
                        let tweak :=
                          if contains "trunk" (lower rest)
                             || contains "git" (lower rest)
                          then 1%Z else 0%Z in
                        Some (a, b, c, tweak, rest)
                    end
                end
            end
        end
  end.

(** [parse_semver_key(t) < parse_semver_key(s)]: both calls return a key
    and the first key is below the second. *)
Definition sorts_below (t s : option string) : bool :=
  match parse_semver_key t, parse_semver_key s with
  | Some kt, Some ks => key_lt kt ks
  | _, _ => false
  end.

(** The branch of [parse_semver_key] for unversioned tags: a recognised
    token somewhere in the lowered text, and no leading digit. *)
Definition is_bleeding_edge (s : string) : bool :=
  has_bleeding_token (lower (strip s))
  && negb (starts_with_digit (lower (strip s))).

(** [(a, b, c) <= (9999, 9999, 9999)] on tuples. *)
Definition triple_within_sentinel (k : SemverKey) : Prop :=
  let '(a, b, c, _, _) := k in
  (a < 9999 \/ (a = 9999 /\ (b < 9999 \/ (b = 9999 /\ c <= 9999))))%Z.

(** *** The condition on unversioned tags, in the specification's words *)

(** The text [sub] occurs in [s]. *)
Definition occurs_in (sub s : string) : Prop :=
  exists pre post, s = pre ++ sub ++ post.

(** [s] contains one of the tokens, in any letter case. *)
Definition mentions_token (s : string) : Prop :=
  exists tok, In tok bleeding_tokens /\ occurs_in tok (lower s).

(** [s] starts with a digit. *)
Definition starts_with_a_digit (s : string) : Prop :=
  exists c r, s = String c r /\ is_digit c = true.

(** *** Platforms and families *)

(** [casefold] is [lower] on ASCII text. *)
Definition normalize_platform (instruction_set : option string) : string :=
  match instruction_set with
  | None => "unknown"
  | Some "" => "unknown"
  | Some i =>
      let s := strip i in
      if is_empty s then "unknown"
      else
        let sl := lower s in
        if str_in sl ["amd64"; "x86_64"; "x86-64"; "x64"] then "x86-64"
        else if str_in sl ["arm64"] then "aarch64"
        else s
  end.

Definition parse_platform_from_id (cid : option string) : option string :=
  match cid with
  | None => None
  | Some "" => None
  | Some c =>
      let s := lower (strip c) in
      if is_empty s then None
      else if startswith "arm" s then Some "arm"
      else if startswith "msp430" s then Some "msp430"
      else if startswith "avr" s then Some "avr"
      else if startswith "gcc6502" s || contains "6502" s then Some "6502"
      else if startswith "hexagon" s then Some "hexagon"
      else if startswith "qnx" s then Some "qnx"
      else None
  end.

Definition normalize_family_token (token : string) : string :=
  let ct := lower (strip token) in
  if is_empty ct then "unknown"
  else if contains "nvc++" ct || contains "nvhpc" ct then "nvc++"
  else if str_in ct ["clang-intel"] then "intel-icx"
  else if str_in ct ["clang-cl"] then "clang-cl"
  else if str_in ct ["win32-mingw-gcc"] then "mingw-gcc"
  else if str_in ct ["win32-mingw-clang"] then "mingw-clang"
  else if str_in ct ["win32-vc"] then "msvc"
  else if contains "icpx" ct then "intel-icx"
  else if contains "icx" ct then "intel-icx"
  else if contains "icc" ct then "intel-icc"
  else if contains "gcc" ct || contains "g++" ct
          || str_in ct ["gpp"; "gxx"; "gnu"] then "gcc"
  else if contains "clang" ct then "clang"
  else if contains "win32" ct && contains "mingw" ct && contains "gcc" ct
       then "mingw-gcc"
  else if contains "win32" ct && contains "mingw" ct && contains "clang" ct
       then "mingw-clang"
  else if contains "msvc" ct || contains "visual" ct || str_in ct ["cl"; "vc"]
       then "msvc"
  else if contains "icx" ct || contains "icc" ct || contains "intel" ct
       then "intel"
  else ct.

(** The priority table of [family_sort_key]. *)
Definition family_priority (fam : string) : Z :=
  if String.eqb fam "gcc" then 0
  else if String.eqb fam "mingw-gcc" then 1
  else if String.eqb fam "clang" then 2
  else if String.eqb fam "mingw-clang" then 3
  else if String.eqb fam "clang-cl" then 4
  else if String.eqb fam "msvc" then 5
  else if String.eqb fam "intel-icx" then 6
  else if String.eqb fam "intel-icc" then 7
  else if String.eqb fam "nvc++" then 8
  else 50.

Definition family_sort_key (fam : string) : Z * string :=
  (family_priority fam, lower fam).

End Models.

(** ** cetest_flags.py *)

Module Flags.
Import PyStr.

Definition std_flags_for_family (fam std : string) : string :=
  let f := lower (strip fam) in
  let s := lower (strip std) in
  if String.eqb f "msvc" || String.eqb f "clang-cl" then
    let std_part :=
      if String.eqb s "c++11" then "/std:c++14"
      else if String.eqb s "c++14" then "/std:c++14"
      else if String.eqb s "c++17" then "/std:c++17"
      else if String.eqb s "c++20" then "/std:c++20"
      else if String.eqb s "c++23" then "/std:c++latest"
      else if String.eqb s "c++26" then "/std:c++latest"
      else "/std:c++17" in
    std_part ++ " /Zs"
  else "-std=" ++ s ++ " -fsyntax-only".

Definition _flag_style_for_family (fam : string) : string :=
  let f := lower (strip fam) in
  if String.eqb f "msvc" || String.eqb f "clang-cl" then "msvc" else "gnu".

(** [re.sub(r"\s+", " ", s)]: every maximal run of blanks becomes one
    space; [in_run] tells whether the previous character was a blank. *)
Fixpoint collapse_blanks (in_run : bool) (s : string) : string :=
  match s with
  | EmptyString => EmptyString
  | String c r =>
      if is_space c then
        if in_run then collapse_blanks true r
        else String " " (collapse_blanks true r)
      else String c (collapse_blanks false r)
  end.

Definition _normalize_user_flags_text (s : string) : string :=
  strip (collapse_blanks false s).

(** The shape of a normalised flags text: every blank is a single space
    and no blank follows a blank; [in_run] tells whether a blank came
    just before. *)
Fixpoint single_spaced (in_run : bool) (s : string) : bool :=
  match s with
  | EmptyString => true
  | String c r =>
      if is_space c then
        negb in_run && Ascii.eqb c " " && single_spaced true r
      else single_spaced false r
  end.

Record ExtraFlagsConfig := {
  extra_gnu : string;
  extra_msvc : string;
  extra_by_group : gmap string string;
}.

Definition extra_for_group (self : ExtraFlagsConfig)
    (fam platform series : string) : string :=
  let key := fam ++ "|" ++ platform ++ "|" ++ series in
  default "" (extra_by_group self !! key).

End Flags.

(** ** cetest_prefs.py *)

Module Prefs.
Import PyStr Flags.

Record LibraryRule := {
  scope : string;
  target : string;
  lib_id : string;
  version : string;
}.

(** One entry [{"id": ..., "version": ...}] of the list handed to the
    compile request. *)
Record Library := { l_id : string; l_version : string }.

Definition _normalize_ce_library_id (s : string) : string := strip s.
Definition _normalize_ce_library_version (s : string) : string := strip s.

(** The two locals [chosen_by_id] and [order] that [apply_rule] updates. *)
Definition Chosen : Type := gmap string string * list string.

Definition apply_rule (r : LibraryRule) (acc : Chosen) : Chosen :=
  let lid := _normalize_ce_library_id (lib_id r) in
  let ver := _normalize_ce_library_version (version r) in
  if is_empty lid || is_empty ver then acc
  else
    let '(chosen_by_id, order) := acc in
    let order' := match chosen_by_id !! lid with
                  | None => (order ++ [lid])%list
                  | Some _ => order
                  end in
    (<[lid := ver]> chosen_by_id, order').

(** The [if]/[elif] chain of the loop body: does rule [r] apply? *)
Definition rule_applies (fam cid : string) (r : LibraryRule) : bool :=
  if String.eqb (scope r) "all" then true
  else if String.eqb (scope r) "family" && String.eqb (target r) fam then true
  else if String.eqb (scope r) "compiler" && String.eqb (target r) cid then true
  else false.

Definition step (fam cid : string) (acc : Chosen) (r : LibraryRule) : Chosen :=
  if rule_applies fam cid r then apply_rule r acc else acc.

(** The final comprehension over [order]. *)
Definition collect (acc : Chosen) : list Library :=
  let '(chosen_by_id, order) := acc in
  omap (fun lid => (fun v => {| l_id := lid; l_version := v |})
                     <$> chosen_by_id !! lid) order.

(** What the loop of [_effective_libraries_for_compiler] maintains about
    its two locals: [order] lists the keys of [chosen_by_id], each once,
    and neither a blank id nor a blank version is stored. *)
Definition chosen_ok (acc : Chosen) : Prop :=
  NoDup acc.2
  /\ (forall lid, lid ∈ acc.2 <-> is_Some (acc.1 !! lid))
  /\ (forall lid v, acc.1 !! lid = Some v ->
                    is_empty lid = false /\ is_empty v = false).

Definition _effective_libraries_for_compiler
    (rules : list LibraryRule) (family compiler_id : string) : list Library :=
  let fam := strip family in
  let cid := strip compiler_id in
  collect (fold_left (step fam cid) rules (∅, [])).

(** The merge as the specification words it, written without the loop
    and its two locals.  An entry is the stripped id and version of a
    rule that carries both. *)
Definition rule_entry (r : LibraryRule) : option (string * string) :=
  let lid := strip (lib_id r) in
  let ver := strip (version r) in
  if is_empty lid || is_empty ver then None else Some (lid, ver).

(** Deduplicated, preserving first-seen order: every id stays where it
    first occurs and its later occurrences are dropped. *)
Fixpoint first_seen (ids : list string) : list string :=
  match ids with
  | [] => []
  | x :: l => x :: filter (fun y => y <> x) (first_seen l)
  end.

(** Last writer wins: the version given by the last entry for [lid]. *)
Definition last_written (lid : string) (entries : list (string * string))
  : option string :=
  snd <$> last (filter (fun e => fst e = lid) entries).

Definition spec_merge (sequence : list LibraryRule) : list Library :=
  let entries := omap rule_entry sequence in
  omap (fun lid => Build_Library lid <$> last_written lid entries)
       (first_seen (map fst entries)).

(** A rule matches the compiler: scope "all", scope "family" with the
    family as target, or scope "compiler" with the compiler id as
    target. *)
Definition spec_matches (fam cid : string) (r : LibraryRule) : bool :=
  String.eqb (scope r) "all"
  || (String.eqb (scope r) "family" && String.eqb (target r) fam)
  || (String.eqb (scope r) "compiler" && String.eqb (target r) cid).

(** The matching rules merged in the order of the list. *)
Definition spec_list_order_libraries
    (rules : list LibraryRule) (family compiler_id : string) : list Library :=
  spec_merge
    (filter (fun r => spec_matches (strip family) (strip compiler_id) r = true)
            rules).

(** The rule resolution as the specification words it: the matching
    rules are taken scope by scope, first every "all" rule, then the
    "family" rules of this family, then the "compiler" rules of this
    compiler, and merged last-writer-wins in that sequence. *)
Definition spec_priority_sequence (fam cid : string)
    (rules : list LibraryRule) : list LibraryRule :=
  (filter (fun r => String.eqb (scope r) "all" = true) rules
   ++ filter (fun r => (String.eqb (scope r) "family"
                        && String.eqb (target r) fam) = true) rules
   ++ filter (fun r => (String.eqb (scope r) "compiler"
                        && String.eqb (target r) cid) = true) rules)%list.

Definition spec_effective_libraries
    (rules : list LibraryRule) (family compiler_id : string) : list Library :=
  spec_merge
    (spec_priority_sequence (strip family) (strip compiler_id) rules).

(** Priority rank of a scope: "all" below "family" below "compiler". *)
Definition scope_rank (r : LibraryRule) : nat :=
  if String.eqb (scope r) "all" then 0
  else if String.eqb (scope r) "family" then 1
  else 2.

Fixpoint ranks_ascend (prev : nat) (l : list LibraryRule) : bool :=
  match l with
  | [] => true
  | r :: l' => (prev <=? scope_rank r)%nat && ranks_ascend (scope_rank r) l'
  end.

(** The rules that apply to the compiler appear in priority order. *)
Definition priority_ordered (family compiler_id : string)
    (rules : list LibraryRule) : bool :=
  ranks_ascend 0
    (filter (fun r => rule_applies (strip family) (strip compiler_id) r = true)
            rules).

(** How a rule fares in the three scope filters of the specification and
    in the loop: it is in exactly one filter and applies, with the rank of
    its scope, or it is in none and does not apply. *)
Inductive rule_class (fam cid : string) (r : LibraryRule) : Prop :=
| class_all :
    String.eqb (scope r) "all" = true ->
    ~ (String.eqb (scope r) "family" && String.eqb (target r) fam) = true ->
    ~ (String.eqb (scope r) "compiler" && String.eqb (target r) cid) = true ->
    rule_applies fam cid r = true -> scope_rank r = 0 -> rule_class fam cid r
| class_family :
    ~ String.eqb (scope r) "all" = true ->
    (String.eqb (scope r) "family" && String.eqb (target r) fam) = true ->
    ~ (String.eqb (scope r) "compiler" && String.eqb (target r) cid) = true ->
    rule_applies fam cid r = true -> scope_rank r = 1 -> rule_class fam cid r
| class_compiler :
    ~ String.eqb (scope r) "all" = true ->
    ~ (String.eqb (scope r) "family" && String.eqb (target r) fam) = true ->
    (String.eqb (scope r) "compiler" && String.eqb (target r) cid) = true ->
    rule_applies fam cid r = true -> scope_rank r = 2 -> rule_class fam cid r
| class_none :
    ~ String.eqb (scope r) "all" = true ->
    ~ (String.eqb (scope r) "family" && String.eqb (target r) fam) = true ->
    ~ (String.eqb (scope r) "compiler" && String.eqb (target r) cid) = true ->
    rule_applies fam cid r = false -> rule_class fam cid r.

Definition rule_is_ascii (r : LibraryRule) : bool :=
  is_ascii (scope r) && is_ascii (target r)
  && is_ascii (lib_id r) && is_ascii (version r).

Definition build_user_args_for_group
    (fam platform series cpp_std : string) (extra : ExtraFlagsConfig) : string :=
  let base := std_flags_for_family fam cpp_std in
  let style := _flag_style_for_family fam in
  let global_extra :=
    if String.eqb style "msvc" then extra_msvc extra else extra_gnu extra in
  let group_extra := extra_for_group extra fam platform series in
  let parts := [base; global_extra; group_extra] in
  _normalize_user_flags_text
    (String.concat " " (filter (fun p => is_empty p = false) parts)).

End Prefs.

(** ** cetest_ce.py: attempts, summaries and the probe worker *)

Module Ce.
Import PyStr Models Flags Prefs.

(** Sentinel result codes of [cetest_core.py]. *)
Definition CODE_TIMEOUT : Z := -100.
Definition CODE_TRANSPORT_ERROR : Z := -101.
Definition CODE_ABORTED : Z := -102.

Record CeAttempt := {
  platform : string;
  series : string;
  compiler_type : string;
  compiler_id : string;
  compiler_name : string;
  semver : option string;
  code : Z;
  stderr_text : string;
}.

Definition ok (self : CeAttempt) : bool := (code self =? 0)%Z.

Record CeGroupSummary := {
  g_platform : string;
  g_series : string;
  g_compiler_type : string;
  highest_supported : option CeAttempt;
  lowest_supported : option CeAttempt;
  first_failure : option CeAttempt;
  attempts : list CeAttempt;
  inconclusive_reason : option string;
}.

(** *** The world outside the worker *)

(** What one call of [CeClient.compile_cached] is given. *)
Record CompileRequest := {
  rq_compiler_id : string;
  rq_source : string;
  rq_user_arguments : string;
  rq_libraries : list Library;
}.

(** How the [try] body of [test] ends: a response was received and
    [int(resp.get("code", -1))] and [stderr_text_from_resp(resp)] were
    computed from it, or an exception reached one of the three handlers. *)
Inductive TryOutcome :=
| Responded (code : Z) (stderr : string)
| RaisedCancelled
| RaisedTimeout (msg : string)
| RaisedOther (msg : string).

(** The remote service and the abort signal.  The service answers a
    request in view of every request made before it (most recent first),
    so any sequence of answers, cached or not, is some [compile_cached].
    [cancelled_at k] is what the [k]-th poll of [_cancelled] returns. *)
Record Env := {
  compile_cached : list CompileRequest -> CompileRequest -> TryOutcome;
  cancelled_at : nat -> bool;
}.

(** The fields of [CeProbeWorker] that the probe reads. *)
Record Worker := {
  _source : string;
  _cpp_std : string;
  _extra_flags : ExtraFlagsConfig;
  _library_rules : list LibraryRule;
}.

(** The mutable state: the requests sent so far and the number of polls
    (both outlive a probe), and the two locals of [_probe_group_binary]
    that the closure [test] updates ([reason] is the local
    [inconclusive_reason]; the summary has a field of that name). *)
Record PState := {
  ce_log : list CompileRequest;
  polls : nat;
  attempts_by_idx : gmap nat CeAttempt;
  reason : option string;
}.

(** A computation ends normally, with [CancelledByUser], or with another
    exception. *)
Inductive Res (A : Type) :=
| Done (a : A)
| Cancelled
| Failed (e : string).
Arguments Done {A} a.
Arguments Cancelled {A}.
Arguments Failed {A} e.

Definition M (A : Type) : Type := PState -> Res A * PState.

Definition ret {A} (a : A) : M A := fun st => (Done a, st).

Definition bind {A B} (m : M A) (k : A -> M B) : M B :=
  fun st =>
    match m st with
    | (Done a, st') => k a st'
    | (Cancelled, st') => (Cancelled, st')
    | (Failed e, st') => (Failed e, st')
    end.

Notation "'let*' x ':=' m 'in' k" := (bind m (fun x => k))
  (at level 10, x name, m at level 100, k at level 200).

(** [if self._cancelled(): raise CancelledByUser()] *)
Definition check_cancelled (env : Env) : M unit :=
  fun st =>
    let st' := {| ce_log := ce_log st; polls := S (polls st);
                  attempts_by_idx := attempts_by_idx st;
                  reason := reason st |} in
    if cancelled_at env (polls st) then (Cancelled, st') else (Done tt, st').

Definition get_reason : M (option string) := fun st => (Done (reason st), st).

(** [[attempts_by_idx[i] for i in sorted(attempts_by_idx.keys())]] *)
Definition sorted_keys (m : gmap nat CeAttempt) : list nat :=
  merge_sort Nat.le (map fst (map_to_list m)).

Definition tested_of (m : gmap nat CeAttempt) : list CeAttempt :=
  omap (fun i => m !! i) (sorted_keys m).

Definition get_tested : M (list CeAttempt) :=
  fun st => (Done (tested_of (attempts_by_idx st)), st).

(** [attempts_by_idx = {}] and [inconclusive_reason = None] at the start
    of [_probe_group_binary]: each call has its own locals. *)
Definition fresh_locals (st : PState) : PState :=
  {| ce_log := ce_log st; polls := polls st;
     attempts_by_idx := ∅; reason := None |}.

Section Probe.
Context (env : Env) (self : Worker).
Context (platform series fam : string) (compilers : list CompilerInfo).

Definition mk_attempt (ci : CompilerInfo) (code : Z) (stderr : string)
  : CeAttempt :=
  Build_CeAttempt platform series fam (Models.id ci) (Models.name ci)
                  (Models.semver ci) code stderr.

Definition timeout_reason (ci : CompilerInfo) : string :=
  "Timeout talking to Compiler Explorer (compiler id=" ++ Models.id ci ++ ")".

Definition transport_reason (ci : CompilerInfo) : string :=
  "Transport error talking to Compiler Explorer (compiler id="
    ++ Models.id ci ++ ")".

Definition request_for (user_args : string) (ci : CompilerInfo)
  : CompileRequest :=
  {| rq_compiler_id := Models.id ci;
     rq_source := _source self;
     rq_user_arguments := user_args;
     rq_libraries :=
       _effective_libraries_for_compiler (_library_rules self) fam
                                         (Models.id ci) |}.

(** The closure [test(i)]. *)
Definition test (user_args : string) (i : nat) : M CeAttempt :=
  let* _u := check_cancelled env in
  fun st =>
    match attempts_by_idx st !! i with
    | Some hit => (Done hit, st)
    | None =>
        match compilers !! i with
        | None => (Failed "IndexError: list index out of range", st)
        | Some ci =>
            let rq := request_for user_args ci in
            let sent rsn atts :=
              {| ce_log := rq :: ce_log st; polls := polls st;
                 attempts_by_idx := atts; reason := rsn |} in
            match compile_cached env (ce_log st) rq with
            | Responded code stderr =>
                let att := mk_attempt ci code stderr in
                (Done att,
                 sent (reason st) (<[i := att]> (attempts_by_idx st)))
            | RaisedCancelled =>
                (Cancelled, sent (reason st) (attempts_by_idx st))
            | RaisedTimeout e =>
                let att := mk_attempt ci CODE_TIMEOUT e in
                (Done att,
                 sent (Some (timeout_reason ci))
                      (<[i := att]> (attempts_by_idx st)))
            | RaisedOther e =>
                let att := mk_attempt ci CODE_TRANSPORT_ERROR e in
                (Done att,
                 sent (Some (transport_reason ci))
                      (<[i := att]> (attempts_by_idx st)))
            end
        end
    end.

Definition summary (hs ls ff : option CeAttempt) (atts : list CeAttempt)
    (inc : option string) : CeGroupSummary :=
  {| g_platform := platform; g_series := series; g_compiler_type := fam;
     highest_supported := hs; lowest_supported := ls; first_failure := ff;
     attempts := atts; inconclusive_reason := inc |}.

(** [mid = (low + high) // 2] lies strictly between the bounds while
    the loop runs. *)
Definition mid (low high : nat) : nat := (low + high) / 2.

Lemma mid_between (low high : nat) :
  1 < high - low -> low < mid low high < high.
Proof.
  intros H. unfold mid. split.
  - apply (Nat.lt_le_trans _ ((2 * (low + 1)) / 2)).
    + rewrite Nat.mul_comm, Nat.div_mul by lia. lia.
    + apply Nat.Div0.div_le_mono. lia.
  - apply Nat.Div0.div_lt_upper_bound. lia.
Qed.

(** The [while high - low > 1] loop.  It either leaves the function
    with a summary (a fault at a midpoint) or ends with the final
    [low] and [high]. *)
Equations? bsearch (user_args : string) (newest : CeAttempt)
    (low high : nat) (st : PState)
  : Res (CeGroupSummary + nat * nat) * PState by wf (high - low) lt :=
  bsearch user_args newest low high st with decide (1 < high - low) => {
    | right _ := (Done (inr (low, high)), st);
    | left _ with check_cancelled env st => {
      | (Cancelled, st1) := (Cancelled, st1);
      | (Failed e, st1) := (Failed e, st1);
      | (Done _, st1) with test user_args (mid low high) st1 => {
        | (Cancelled, st2) := (Cancelled, st2);
        | (Failed e, st2) := (Failed e, st2);
        | (Done am, st2) with reason st2 => {
          | Some inc :=
              (Done (inl (summary (Some newest) None (Some am)
                                  (tested_of (attempts_by_idx st2))
                                  (Some inc))), st2);
          | None with ok am => {
            | true := bsearch user_args newest (mid low high) high st2;
            | false := bsearch user_args newest low (mid low high) st2
            }
          }
        }
      }
  }.
Proof.
  all: pose proof (mid_between low high l); unfold mid in *;
    simpl in *; lia.
Qed.

Definition user_args_of_group : string :=
  build_user_args_for_group fam platform series (_cpp_std self)
                            (_extra_flags self).

Definition _probe_group_binary : M CeGroupSummary :=
  fun st0 =>
  (let n := length compilers in
  let user_args := user_args_of_group in
  if (n =? 0)%nat then ret (summary None None None [] None)
  else
    let* newest := test user_args 0 in
    let* inc := get_reason in
    match inc with
    | Some _ =>
        let* tested := get_tested in
        ret (summary None None (Some newest) tested inc)
    | None =>
    if negb (ok newest) then
      ret (summary None None (Some newest) [newest] None)
    else if (n =? 1)%nat then
      ret (summary (Some newest) (Some newest) None [newest] None)
    else
      let* oldest := test user_args (n - 1) in
      let* inc := get_reason in
      match inc with
      | Some _ =>
          let* tested := get_tested in
          ret (summary (Some newest) None (Some oldest) tested inc)
      | None =>
      if ok oldest then
        let* tested := get_tested in
        ret (summary (Some newest) (Some oldest) None tested None)
      else
        let* r := bsearch user_args newest 0 (n - 1) in
        match r with
        | inl s => ret s
        | inr (low, high) =>
            let* lowest_ok := test user_args low in
            let* first_fail := test user_args high in
            let* tested := get_tested in
            let* inc := get_reason in
            match inc with
            | Some _ =>
                ret (summary (Some newest) None (Some first_fail) tested inc)
            | None =>
                ret (summary (Some newest)
                       (if ok lowest_ok then Some lowest_ok else None)
                       (if negb (ok first_fail) then Some first_fail
                        else None)
                       tested None)
            end
        end
      end
    end) (fresh_locals st0).

End Probe.

(** *** Reading the outcome of a call *)

(** A network fault: one of the two handlers that set
    [inconclusive_reason]. *)
Definition is_fault (o : TryOutcome) : bool :=
  match o with
  | RaisedTimeout _ | RaisedOther _ => true
  | _ => false
  end.

Definition fault_code (o : TryOutcome) : Z :=
  match o with
  | RaisedTimeout _ => CODE_TIMEOUT
  | _ => CODE_TRANSPORT_ERROR
  end.

Definition fault_text (o : TryOutcome) : string :=
  match o with
  | RaisedTimeout e | RaisedOther e => e
  | _ => EmptyString
  end.

(** The attempt and the reason that [test] records for a fault [o] of
    compiler [ci]. *)
Definition fault_attempt (platform series fam : string) (ci : CompilerInfo)
    (o : TryOutcome) : CeAttempt :=
  mk_attempt platform series fam ci (fault_code o) (fault_text o).

Definition fault_reason (ci : CompilerInfo) (o : TryOutcome) : string :=
  match o with
  | RaisedTimeout _ => timeout_reason ci
  | _ => transport_reason ci
  end.

(** State after the poll at the head of [test], and after a request. *)
Definition polled (st : PState) : PState :=
  {| ce_log := ce_log st; polls := S (polls st);
     attempts_by_idx := attempts_by_idx st; reason := reason st |}.

Definition sent (rq : CompileRequest) (rsn : option string)
    (atts : gmap nat CeAttempt) (st : PState) : PState :=
  {| ce_log := rq :: ce_log st; polls := S (polls st);
     attempts_by_idx := atts; reason := rsn |}.

(** The invariant of a summary: what is reported as supported compiled,
    what is reported as the first failure did not. *)
Definition summary_sound (s : CeGroupSummary) : Prop :=
  (forall a, highest_supported s = Some a -> code a = 0%Z)
  /\ (forall a, lowest_supported s = Some a -> code a = 0%Z)
  /\ (forall a, first_failure s = Some a -> code a <> 0%Z).

(** *** Outcomes of [test] and traces of requests *)

Section ProbeSpec.
Context (env : Env) (self : Worker).
Context (platform series fam : string) (compilers : list CompilerInfo).

Local Abbreviation request_for := (request_for self fam).
Local Abbreviation mk_attempt := (mk_attempt platform series fam).
Local Abbreviation fault_attempt := (fault_attempt platform series fam).

(** The ways a call of [test] can go. *)
Inductive test_result (ua : string) (i : nat) (st : PState)
  : Res CeAttempt * PState -> Prop :=
| tr_poll_cancel :
    cancelled_at env (polls st) = true ->
    test_result ua i st (Cancelled, polled st)
| tr_hit a :
    cancelled_at env (polls st) = false ->
    attempts_by_idx st !! i = Some a ->
    test_result ua i st (Done a, polled st)
| tr_index_error :
    cancelled_at env (polls st) = false ->
    attempts_by_idx st !! i = None ->
    compilers !! i = None ->
    test_result ua i st
      (Failed "IndexError: list index out of range", polled st)
| tr_responded ci c err :
    cancelled_at env (polls st) = false ->
    attempts_by_idx st !! i = None ->
    compilers !! i = Some ci ->
    compile_cached env (ce_log st) (request_for ua ci) = Responded c err ->
    test_result ua i st
      (Done (mk_attempt ci c err),
       sent (request_for ua ci) (reason st)
            (<[i := mk_attempt ci c err]> (attempts_by_idx st)) st)
| tr_call_cancel ci :
    cancelled_at env (polls st) = false ->
    attempts_by_idx st !! i = None ->
    compilers !! i = Some ci ->
    compile_cached env (ce_log st) (request_for ua ci) = RaisedCancelled ->
    test_result ua i st
      (Cancelled,
       sent (request_for ua ci) (reason st) (attempts_by_idx st) st)
| tr_fault ci o :
    cancelled_at env (polls st) = false ->
    attempts_by_idx st !! i = None ->
    compilers !! i = Some ci ->
    compile_cached env (ce_log st) (request_for ua ci) = o ->
    is_fault o = true ->
    test_result ua i st
      (Done (fault_attempt ci o),
       sent (request_for ua ci) (Some (fault_reason ci o))
            (<[i := fault_attempt ci o]> (attempts_by_idx st)) st).

(** Requests added on top of [base] without a network fault. *)
Inductive clean_from (base : list CompileRequest)
  : list CompileRequest -> Prop :=
| clean_base : clean_from base base
| clean_step log rq :
    clean_from base log ->
    is_fault (compile_cached env log rq) = false ->
    clean_from base (rq :: log).

Definition cache_grows (st st' : PState) : Prop :=
  forall j, is_Some (attempts_by_idx st !! j) ->
            attempts_by_idx st' !! j = attempts_by_idx st !! j.

(** The request for index [i] is the last one of [log], it met a fault,
    and [a] and [rsn] are what [test] recorded for it. *)
Definition fault_last (ua : string) (base : list CompileRequest) (i : nat)
    (a : CeAttempt) (rsn : option string) (log : list CompileRequest) : Prop :=
  exists ci log1,
    compilers !! i = Some ci
    /\ log = request_for ua ci :: log1
    /\ clean_from base log1
    /\ is_fault (compile_cached env log1 (request_for ua ci)) = true
    /\ a = fault_attempt ci (compile_cached env log1 (request_for ua ci))
    /\ rsn = Some (fault_reason ci
                     (compile_cached env log1 (request_for ua ci))).

(** With fixed outcomes per index ([oc] the codes, [oe] the texts), every
    cached attempt is the one of its index. *)
Definition cache_ok (oc : nat -> Z) (oe : nat -> string) (st : PState)
  : Prop :=
  forall i a, attempts_by_idx st !! i = Some a ->
              exists ci, compilers !! i = Some ci
                         /\ a = mk_attempt ci (oc i) (oe i).

End ProbeSpec.

(** *** What a running probe maintains *)

Section ProbeInvariants.
Context (env : Env).
Context (platform series fam : string) (compilers : list CompilerInfo).

(** Attempt [a] was made with candidate [i]. *)
Definition attempt_of (i : nat) (a : CeAttempt) : Prop :=
  exists ci, compilers !! i = Some ci
             /\ a = mk_attempt platform series fam ci (code a) (stderr_text a).

(** Every cached attempt is one of its index. *)
Definition entries_ok (st : PState) : Prop :=
  forall i a, attempts_by_idx st !! i = Some a -> attempt_of i a.

(** One cached attempt per request sent since [base]. *)
Definition counted (base : list CompileRequest) (st : PState) : Prop :=
  length (ce_log st) = length base + size (attempts_by_idx st).

(** Nobody cancels: the flag is never seen set and no call is aborted. *)
Definition never_cancels : Prop :=
  (forall t, cancelled_at env t = false)
  /\ (forall log rq, compile_cached env log rq <> RaisedCancelled).

(** What holds when the loop, entered in state [st], is left in [st']. *)
Definition bsearch_post (newest : CeAttempt) (base : list CompileRequest)
    (st : PState) (r : Res (CeGroupSummary + nat * nat)) (st' : PState)
  : Prop :=
  match r with
  | Done (inr (l, h)) =>
      entries_ok st' /\ counted base st' /\ reason st' = None
      /\ h = S l /\ h < length compilers
      /\ (exists a, attempts_by_idx st' !! l = Some a /\ ok a = true)
      /\ (exists b, attempts_by_idx st' !! h = Some b /\ ok b = false)
      /\ cache_grows st st'
  | Done (inl s) =>
      entries_ok st' /\ counted base st'
      /\ attempts s = tested_of (attempts_by_idx st')
      /\ highest_supported s = Some newest
      /\ lowest_supported s = None
      /\ is_Some (inconclusive_reason s)
      /\ (exists i a, first_failure s = Some a
                      /\ attempts_by_idx st' !! i = Some a)
      /\ cache_grows st st'
  | Cancelled => ~ never_cancels
  | Failed _ => False
  end.

(** What a summary [s] of the probe satisfies, the probe having started
    with the request log [log] and ended with [log']. *)
Definition summary_facts (log log' : list CompileRequest)
    (s : CeGroupSummary) : Prop :=
  length log' = length log + length (attempts s)
  /\ (forall a, a ∈ attempts s -> exists i, attempt_of i a)
  /\ (forall a, highest_supported s = Some a \/ lowest_supported s = Some a
                \/ first_failure s = Some a -> a ∈ attempts s)
  /\ (forall a, highest_supported s = Some a -> attempt_of 0 a)
  /\ (forall a b, lowest_supported s = Some a -> first_failure s = Some b ->
                  exists i, attempt_of i a /\ attempt_of (S i) b)
  /\ (inconclusive_reason s = None -> is_Some (highest_supported s) ->
      is_Some (lowest_supported s)).

(** A summary carries the labels of its group. *)
Definition labelled (s : CeGroupSummary) : Prop :=
  g_platform s = platform /\ g_series s = series /\ g_compiler_type s = fam.

End ProbeInvariants.

(** *** The worker loop [CeProbeWorker.run] *)

(** The signals the worker emits. *)
Inductive Signal :=
| group_done (s : CeGroupSummary)
| finished
| aborted
| failed (e : string).

(** One entry of [_jobs]: platform, series, family and candidates. *)
Definition Job : Type := string * string * string * list CompilerInfo.

(** The summary built by the group-level [except Exception as e]. *)
Definition probe_error_summary (platform series compiler_type e : string)
  : CeGroupSummary :=
  {| g_platform := platform; g_series := series;
     g_compiler_type := compiler_type;
     highest_supported := None;
     lowest_supported := None;
     first_failure :=
       Some (Build_CeAttempt platform series compiler_type ""
               "(probe error)" None CODE_TRANSPORT_ERROR e);
     attempts := [];
     inconclusive_reason := Some ("Probe error: " ++ e) |}.

(** The [for] loop over the jobs, with the signals emitted on the way. *)
Fixpoint run_jobs (env : Env) (self : Worker) (jobs : list Job) (st : PState)
  : Res unit * list Signal * PState :=
  match jobs with
  | [] => (Done tt, [], st)
  | (platform, series, compiler_type, compilers) :: rest =>
      match check_cancelled env st with
      | (Cancelled, st1) => (Cancelled, [], st1)
      | (Failed e, st1) => (Failed e, [], st1)
      | (Done _, st1) =>
          match _probe_group_binary env self platform series compiler_type
                  compilers st1 with
          | (Cancelled, st2) => (Cancelled, [], st2)
          | (Done s, st2) =>
              let '(r, sigs, st3) := run_jobs env self rest st2 in
              (r, group_done s :: sigs, st3)
          | (Failed e, st2) =>
              let s := probe_error_summary platform series compiler_type e in
              let '(r, sigs, st3) := run_jobs env self rest st2 in
              (r, group_done s :: sigs, st3)
          end
      end
  end.

Definition run (env : Env) (self : Worker) (jobs : list Job) (st : PState)
  : list Signal * PState :=
  let '(r, sigs, st') := run_jobs env self jobs st in
  let last := match r with
              | Done _ => finished
              | Cancelled => aborted
              | Failed e => failed e
              end in
  ((sigs ++ [last])%list, st').

(** The requests one job may cost, and a list of jobs. *)
Definition job_budget (job : Job) : nat :=
  Nat.log2_up (length job.2) + 2.

Definition jobs_budget (jobs : list Job) : nat :=
  foldr (fun job n => job_budget job + n) 0 jobs.

(** Summary [s] is labelled as the job. *)
Definition summary_of_job (job : Job) (s : CeGroupSummary) : Prop :=
  g_platform s = job.1.1.1 /\ g_series s = job.1.1.2
  /\ g_compiler_type s = job.1.2.

End Ce.

(** ** cetest_app.py: the report dictionary *)

Module Report.
Import PyStr Ce.

(** The values a report dictionary holds ([dict[str, Any]]).  A [dict]
    keeps its items in insertion order. *)
#[local] Unset Elimination Schemes.
Inductive PyVal :=
| VNone
| VBool (b : bool)
| VInt (z : Z)
| VStr (s : string)
| VList (l : list PyVal)
| VDict (d : list (string * PyVal)).
#[local] Set Elimination Schemes.

Definition PyDict : Type := list (string * PyVal).

(** [d.get(k)] *)
Fixpoint get (d : PyDict) (k : string) : PyVal :=
  match d with
  | [] => VNone
  | (k', v) :: d' => if String.eqb k' k then v else get d' k
  end.

(** Truth value of an object, as [or] and [if] test it. *)
Definition truthy (v : PyVal) : bool :=
  match v with
  | VNone => false
  | VBool b => b
  | VInt z => negb (z =? 0)%Z
  | VStr s => negb (is_empty s)
  | VList l => match l with [] => false | _ => true end
  | VDict d => match d with [] => false | _ => true end
  end.

(** [a or b] *)
Definition py_or (a b : PyVal) : PyVal := if truthy a then a else b.

Definition is_dict (v : PyVal) : bool :=
  match v with VDict _ => true | _ => false end.

Section Reader.
(** Two conversions of the interpreter that the reader applies to
    whatever the dictionary holds: the text of a list or dictionary,
    and [int] of a text ([None] when it raises). *)
Context (repr_container : PyVal -> string).
Context (int_of_text : string -> option Z).

(** [str(v)] *)
Definition py_str (v : PyVal) : string :=
  match v with
  | VStr s => s
  | VNone => "None"
  | VBool true => "True"
  | VBool false => "False"
  | VInt z => pretty z
  | _ => repr_container v
  end.

(** [int(v)]; [None] when it raises. *)
Definition py_int (v : PyVal) : option Z :=
  match v with
  | VInt z => Some z
  | VBool true => Some 1%Z
  | VBool false => Some 0%Z
  | VStr s => int_of_text s
  | _ => None
  end.

Definition dict_to_att (x : PyDict) : option CeAttempt :=
  let platform :=
    py_str (py_or (py_or (get x "platform") (get x "arch"))
                  (VStr "unknown")) in
  let series := py_str (py_or (get x "series") (VStr "(unknown series)")) in
  let compiler_type := py_str (py_or (get x "family") (VStr "unknown")) in
  let compiler_id := py_str (py_or (get x "id") (VStr "")) in
  let compiler_name := py_str (py_or (get x "name") (VStr "")) in
  let semver := match get x "semver" with
                | VNone => None
                | v => Some (py_str v)
                end in
  match py_int (match get x "code" with
                | VNone => VInt (-1)
                | v => v
                end) with
  | None => None
  | Some code =>
      let stderr_text := py_str (py_or (get x "stderr") (VStr "")) in
      Some (Build_CeAttempt platform series compiler_type compiler_id
              compiler_name semver code stderr_text)
  end.

(** [dict_to_att(v) if isinstance(v, dict) else None]; the outer
    [option] is the exception. *)
Definition opt_dict_to_att (v : PyVal) : option (option CeAttempt) :=
  match v with
  | VDict x => Some <$> dict_to_att x
  | _ => Some None
  end.

(** [[dict_to_att(a) for a in atts]] over a list of dictionaries. *)
Fixpoint atts_of (atts : list PyVal) : option (list CeAttempt) :=
  match atts with
  | [] => Some []
  | VDict x :: rest =>
      match dict_to_att x with
      | None => None
      | Some a => cons a <$> atts_of rest
      end
  | _ :: _ => None
  end.

Definition attempts_of (v : PyVal) : option (list CeAttempt) :=
  match v with
  | VList atts => if forallb is_dict atts then atts_of atts else Some []
  | _ => Some []
  end.

(** The body of the loop over [groups] for one dictionary [g]. *)
Definition group_of (g : PyDict) : option CeGroupSummary :=
  let fam := py_str (py_or (get g "family") (VStr "unknown")) in
  let platform :=
    py_str (py_or (py_or (get g "platform") (get g "arch"))
                  (VStr "unknown")) in
  let series := py_str (py_or (get g "series") (VStr "(unknown series)")) in
  let inc := get g "inconclusive_reason" in
  match opt_dict_to_att (get g "highest_supported") with
  | None => None
  | Some hs_a =>
  match opt_dict_to_att (get g "lowest_supported") with
  | None => None
  | Some ls_a =>
  match opt_dict_to_att (get g "first_failure") with
  | None => None
  | Some ff_a =>
  match attempts_of (get g "attempts") with
  | None => None
  | Some attempts =>
      Some {| g_platform := platform; g_series := series;
              g_compiler_type := fam;
              highest_supported := hs_a; lowest_supported := ls_a;
              first_failure := ff_a; attempts := attempts;
              inconclusive_reason :=
                match inc with
                | VNone => None
                | v => Some (py_str v)
                end |}
  end end end end.

Fixpoint groups_of (groups : list PyVal) : option (list CeGroupSummary) :=
  match groups with
  | [] => Some []
  | VDict g :: rest =>
      match group_of g with
      | None => None
      | Some s => cons s <$> groups_of rest
      end
  | _ :: rest => groups_of rest
  end.

(** [None] stands for an exception raised by [int]. *)
Definition report_dict_to_summaries (d : PyDict)
  : option (string * list CeGroupSummary) :=
  let std := py_str (py_or (get d "standard") (VStr "c++17")) in
  match get d "groups" with
  | VList groups => pair std <$> groups_of groups
  | _ => Some (std, [])
  end.

End Reader.

Definition opt_str (s : option string) : PyVal :=
  match s with
  | None => VNone
  | Some s => VStr s
  end.

Definition att_to_dict (a : CeAttempt) : PyDict :=
  [ ("platform", VStr (platform a));
    ("series", VStr (series a));
    ("arch", VStr (platform a));
    ("family", VStr (compiler_type a));
    ("id", VStr (compiler_id a));
    ("name", VStr (compiler_name a));
    ("semver", opt_str (semver a));
    ("code", VInt (code a));
    ("ok", VBool (ok a));
    ("stderr", VStr (stderr_text a)) ].

Definition opt_att (a : option CeAttempt) : PyVal :=
  match a with
  | None => VNone
  | Some a => VDict (att_to_dict a)
  end.

Definition group_to_dict (s : CeGroupSummary) : PyDict :=
  [ ("family", VStr (g_compiler_type s));
    ("platform", VStr (g_platform s));
    ("series", VStr (g_series s));
    ("arch", VStr (g_platform s));
    ("highest_supported", opt_att (highest_supported s));
    ("lowest_supported", opt_att (lowest_supported s));
    ("first_failure", opt_att (first_failure s));
    ("attempts", VList (map (fun a => VDict (att_to_dict a)) (attempts s)));
    ("inconclusive_reason", opt_str (inconclusive_reason s)) ].

Definition summaries_to_report_dict (standard : string)
    (summaries : list CeGroupSummary) : PyDict :=
  [ ("standard", VStr standard);
    ("groups", VList (map (fun s => VDict (group_to_dict s)) summaries)) ].

(** What the reader makes of a text field that it defaults: an empty text
    is replaced by the default. *)
Definition or_default (dflt s : string) : string :=
if is_empty s then dflt else s.

Definition read_back_attempt (a : CeAttempt) : CeAttempt :=
Build_CeAttempt (or_default "unknown" (platform a))
  (or_default "(unknown series)" (series a))
  (or_default "unknown" (compiler_type a))
  (compiler_id a) (compiler_name a) (semver a) (code a) (stderr_text a).

Definition read_back_summary (s : CeGroupSummary) : CeGroupSummary :=
{| g_platform := or_default "unknown" (g_platform s);
   g_series := or_default "(unknown series)" (g_series s);
   g_compiler_type := or_default "unknown" (g_compiler_type s);
   highest_supported := read_back_attempt <$> highest_supported s;
   lowest_supported := read_back_attempt <$> lowest_supported s;
   first_failure := read_back_attempt <$> first_failure s;
   attempts := map read_back_attempt (attempts s);
   inconclusive_reason := inconclusive_reason s |}.

(** Platform, series and family are all non-empty. *)
Definition attempt_named (a : CeAttempt) : bool :=
negb (is_empty (platform a)) && negb (is_empty (series a))
&& negb (is_empty (compiler_type a)).

Definition opt_attempt_named (a : option CeAttempt) : bool :=
match a with
| Some a => attempt_named a
| None => true
end.

Definition summary_named (s : CeGroupSummary) : bool :=
negb (is_empty (g_platform s)) && negb (is_empty (g_series s))
&& negb (is_empty (g_compiler_type s))
&& opt_attempt_named (highest_supported s)
&& opt_attempt_named (lowest_supported s)
&& opt_attempt_named (first_failure s)
&& forallb attempt_named (attempts s).

End Report.

(** ** cetest_preprocess.py: the include flattener *)

Module Preprocess.
Import PyStr.

(** A [pathlib.Path], by its text. *)
Definition Path : Type := string.

(** The file-system operations the flattener calls. *)
Record FileSystem := {
  expanduser : Path -> Path;
  norm_abs : Path -> string;          (* [_norm_abs] *)
  is_file : Path -> bool;             (* [p.exists() and p.is_file()] *)
  read_text : Path -> option string;  (* [_read_text]; [None]: it raises *)
  parent : Path -> Path;
  joinpath : Path -> string -> Path;  (* [d / name] *)
}.

Record Options := {
  inline_once : bool;
  strip_pragma_once : bool;
  emit_line_directives : bool;
  include_debug_comments : bool;
}.

(** The closure variables that [_flatten_file] updates: the two
    collections and the four counters of [stats]. *)
Record FState := {
  inlined : gset string;
  stack : list string;
  files_inlined : nat;
  include_lines_seen : nat;
  include_lines_inlined : nat;
  include_lines_unresolved : nat;
}.

Inductive FRes (A : Type) :=
| FDone (a : A)
| FRaised          (* an I/O or decoding failure while reading a file *)
| FOutOfFuel.
Arguments FDone {A} a.
Arguments FRaised {A}.
Arguments FOutOfFuel {A}.

Definition LF : ascii := ascii_of_nat 10.
Definition CR : ascii := ascii_of_nat 13.
Definition DQ : ascii := ascii_of_nat 34.
Definition BS : ascii := ascii_of_nat 92.
Definition nl : string := String LF EmptyString.
Definition dq : string := String DQ EmptyString.
Definition bs : string := String BS EmptyString.

(** Line boundaries of [str.splitlines] among the ASCII characters:
    LF, VT, FF, CR, FS, GS, RS. *)
Definition is_line_break (c : ascii) : bool :=
  let n := nat_of_ascii c in
  (((10 <=? n) && (n <=? 13)) || ((28 <=? n) && (n <=? 30)))%nat.

(** [s.splitlines(True)] *)
Fixpoint splitlines (s : string) : list string :=
  match s with
  | EmptyString => []
  | String c r =>
      if is_line_break c then
        match r with
        | String c' r' =>
            if Ascii.eqb c CR && Ascii.eqb c' LF
            then String c (String c' EmptyString) :: splitlines r'
            else String c EmptyString :: splitlines r
        | EmptyString => [String c EmptyString]
        end
      else
        match splitlines r with
        | [] => [String c EmptyString]
        | l :: ls => String c l :: ls
        end
  end.

Fixpoint drop_chars (n : nat) (s : string) : string :=
  match n, s with
  | S n', String _ r => drop_chars n' r
  | _, _ => s
  end.

(** [_RE_INCLUDE_QUOTED.match(line)]: blanks, a hash, blanks, the word
    include, blanks, and a non-empty name between double quotes; the
    name on success. *)
Definition match_include (line : string) : option string :=
  match lstrip line with
  | String "#" s2 =>
      let s3 := lstrip s2 in
      if startswith "include" s3 then
        match lstrip (drop_chars 7 s3) with
        | String c s5 =>
            if Ascii.eqb c DQ then
              match span (fun c => negb (Ascii.eqb c DQ)) s5 with
              | (EmptyString, _) => None
              | (nm, String _ _) => Some nm
              | (_, EmptyString) => None
              end
            else None
        | EmptyString => None
        end
      else None
  | _ => None
  end.

(** The pragma-once pattern: blanks, a hash, blanks, the word pragma, at
    least one blank, the word once, and a word boundary. *)
Definition is_pragma_once (line : string) : bool :=
  match lstrip line with
  | String "#" s2 =>
      let s3 := lstrip s2 in
      if startswith "pragma" s3 then
        match drop_chars 6 s3 with
        | String c s4 =>
            if is_space c then
              let s5 := lstrip s4 in
              startswith "once" s5 &&
              match drop_chars 4 s5 with
              | String c' _ => negb (is_word c')
              | EmptyString => true
              end
            else false
        | EmptyString => false
        end
      else false
  | _ => false
  end.

(** [_escape_for_line]: backslashes are doubled, then double quotes get
    a backslash. *)
Definition _escape_for_line (p : Path) : string :=
  replace_char DQ (bs ++ dq) (replace_char BS (bs ++ bs) p).

Definition cycle_marker (p : Path) : string :=
  "/* [cetest] include cycle detected: " ++ dq ++ _escape_for_line p ++ dq
    ++ " */" ++ nl.

Definition duplicate_marker (p : Path) : string :=
  "/* [cetest] skipped duplicate include: " ++ dq ++ _escape_for_line p ++ dq
    ++ " */" ++ nl.

Definition begin_marker (p : Path) : string :=
  "/* [cetest] begin inlined file: " ++ _escape_for_line p ++ " */" ++ nl.

Definition end_marker (p : Path) : string :=
  "/* [cetest] end inlined file: " ++ _escape_for_line p ++ " */" ++ nl.

Definition inlined_marker (inc_name : string) (resolved : Path) : string :=
  "/* [cetest] inlined: " ++ dq ++ inc_name ++ dq ++ " -> " ++ dq
    ++ _escape_for_line resolved ++ dq ++ " */" ++ nl.

Definition line_directive (n : nat) (p : Path) : string :=
  "#line " ++ pretty n ++ " " ++ dq ++ _escape_for_line p ++ dq ++ nl.

Section Flatten.
Context (fs : FileSystem) (opts : Options) (global_search : list Path).

Definition exists_file (p : Path) : bool := is_file fs p.

Definition _resolve_include (name : string) (including_file : Path)
  : option Path :=
  let cand := expanduser fs (joinpath fs (parent fs including_file) name) in
  if exists_file cand then Some cand
  else
    List.find exists_file
      (map (fun d => expanduser fs (joinpath fs d name)) global_search).

(** [out.append(x)] under a flag. *)
Definition append_if (b : bool) (x : string) (out : list string)
  : list string :=
  if b then (out ++ [x])%list else out.

Definition count_seen (st : FState) : FState :=
  {| inlined := inlined st; stack := stack st;
     files_inlined := files_inlined st;
     include_lines_seen := S (include_lines_seen st);
     include_lines_inlined := include_lines_inlined st;
     include_lines_unresolved := include_lines_unresolved st |}.

Definition count_unresolved (st : FState) : FState :=
  {| inlined := inlined st; stack := stack st;
     files_inlined := files_inlined st;
     include_lines_seen := include_lines_seen st;
     include_lines_inlined := include_lines_inlined st;
     include_lines_unresolved := S (include_lines_unresolved st) |}.

Definition count_inlined (st : FState) : FState :=
  {| inlined := inlined st; stack := stack st;
     files_inlined := files_inlined st;
     include_lines_seen := include_lines_seen st;
     include_lines_inlined := S (include_lines_inlined st);
     include_lines_unresolved := include_lines_unresolved st |}.

(** [stack.append(p_abs); inlined.add(p_abs); stats["files_inlined"] += 1] *)
Definition enter (p_abs : string) (st : FState) : FState :=
  {| inlined := {[ p_abs ]} ∪ inlined st;
     stack := (stack st ++ [p_abs])%list;
     files_inlined := S (files_inlined st);
     include_lines_seen := include_lines_seen st;
     include_lines_inlined := include_lines_inlined st;
     include_lines_unresolved := include_lines_unresolved st |}.

(** [stack.pop()] *)
Definition leave (st : FState) : FState :=
  {| inlined := inlined st; stack := removelast (stack st);
     files_inlined := files_inlined st;
     include_lines_seen := include_lines_seen st;
     include_lines_inlined := include_lines_inlined st;
     include_lines_unresolved := include_lines_unresolved st |}.

(** The loop over the lines of file [p]; [line_no] is the number of
    lines read so far and [rec] the recursive call. *)
Fixpoint flatten_lines (rec : Path -> FState -> FRes string * FState)
    (p : Path) (lines : list string) (line_no : nat) (out : list string)
    (st : FState) : FRes (list string) * FState :=
  match lines with
  | [] => (FDone out, st)
  | line :: rest =>
      let line_no := S line_no in
      if strip_pragma_once opts && is_pragma_once line then
        flatten_lines rec p rest line_no out st
      else
        match match_include line with
        | None => flatten_lines rec p rest line_no (out ++ [line])%list st
        | Some inc_name =>
            let st := count_seen st in
            match _resolve_include inc_name p with
            | None =>
                flatten_lines rec p rest line_no (out ++ [line])%list
                              (count_unresolved st)
            | Some resolved =>
                let st := count_inlined st in
                let out := append_if (include_debug_comments opts)
                             (inlined_marker inc_name resolved) out in
                match rec resolved st with
                | (FDone text, st') =>
                    let out := (out ++ [text])%list in
                    let out := append_if (emit_line_directives opts)
                                 (line_directive (line_no + 1) p) out in
                    flatten_lines rec p rest line_no out st'
                | (FRaised, st') => (FRaised, st')
                | (FOutOfFuel, st') => (FOutOfFuel, st')
                end
            end
        end
  end.

(** [_flatten_file]; [fuel] bounds the depth of the recursion. *)
Fixpoint _flatten_file (fuel : nat) (p : Path) (st : FState)
  : FRes string * FState :=
  match fuel with
  | O => (FOutOfFuel, st)
  | S fuel' =>
      let p := expanduser fs p in
      let p_abs := norm_abs fs p in
      if bool_decide (p_abs ∈ stack st) then
        (FDone (if include_debug_comments opts then cycle_marker p
                else EmptyString), st)
      else if inline_once opts && bool_decide (p_abs ∈ inlined st) then
        (FDone (if include_debug_comments opts then duplicate_marker p
                else EmptyString), st)
      else
        let st := enter p_abs st in
        match read_text fs p with
        | None => (FRaised, st)
        | Some src =>
            let out := append_if (include_debug_comments opts)
                         (begin_marker p) [] in
            let out := append_if (emit_line_directives opts)
                         (line_directive 1 p) out in
            match flatten_lines (_flatten_file fuel') p (splitlines src)
                    0 out st with
            | (FDone out, st') =>
                let out := append_if (include_debug_comments opts)
                             (end_marker p) out in
                (FDone (String.concat EmptyString out), leave st')
            | (FRaised, st') => (FRaised, st')
            | (FOutOfFuel, st') => (FOutOfFuel, st')
            end
        end
  end.

Definition initial_state : FState :=
  {| inlined := ∅; stack := []; files_inlined := 0;
     include_lines_seen := 0; include_lines_inlined := 0;
     include_lines_unresolved := 0 |}.

(** [flatten_user_includes] from the point where the search list is
    known: the check of the root file, then the recursion from fresh
    collections and counters.  [None] is the [ValueError] for a missing
    root file. *)
Definition flatten_user_includes (fuel : nat) (root_file : Path)
  : option (FRes string * FState) :=
  let root_file := expanduser fs root_file in
  if negb (exists_file root_file) then None
  else Some (_flatten_file fuel root_file initial_state).

(** *** The pieces of a flattened file *)

(** What is emitted for a file that is re-entered while on the stack, and
    for one that was already inlined. *)
Definition cycle_text (p : Path) : string :=
  if include_debug_comments opts then cycle_marker p else EmptyString.

Definition duplicate_text (p : Path) : string :=
  if include_debug_comments opts then duplicate_marker p else EmptyString.

(** The lines that pass through: all but the pragma-once lines when these
    are stripped. *)
Definition kept (lines : list string) : list string :=
  List.filter (fun l => negb (strip_pragma_once opts && is_pragma_once l))
              lines.

(** What opens and what closes the text of file [p]. *)
Definition file_head (p : Path) : list string :=
  append_if (emit_line_directives opts) (line_directive 1 p)
    (append_if (include_debug_comments opts) (begin_marker p) []).

Definition file_tail (p : Path) : list string :=
  append_if (include_debug_comments opts) (end_marker p) [].

(** What replaces the include directive on line [line_no] of file [p],
    where [text] is what the included file [resolved] flattened to. *)
Definition include_pieces (p : Path) (line_no : nat) (inc_name : string)
    (resolved : Path) (text : string) : list string :=
  append_if (emit_line_directives opts) (line_directive (line_no + 1) p)
    (append_if (include_debug_comments opts)
       (inlined_marker inc_name resolved) [] ++ [text])%list.

(** *** Shapes of files and of their flattened text *)

(** Lines without a quoted include directive. *)
Definition plain_lines (lines : list string) : Prop :=
  Forall (fun l => match_include l = None) lines.

(** File [p] reads as [lines], none of which is a quoted include. *)
Definition includes_nothing (p : Path) (lines : list string) : Prop :=
  exists src, read_text fs p = Some src /\ splitlines src = lines
              /\ plain_lines lines.

(** File [p] reads as the plain lines [pre], the directive [line] that
    includes [inc_name], resolved to [resolved], and the plain lines
    [post]. *)
Definition includes_once (p : Path) (pre : list string) (line : string)
    (inc_name : string) (resolved : Path) (post : list string) : Prop :=
  exists src, read_text fs p = Some src
              /\ splitlines src = (pre ++ line :: post)%list
              /\ plain_lines pre /\ plain_lines post
              /\ match_include line = Some inc_name
              /\ _resolve_include inc_name p = Some resolved.

(** The same with two directives. *)
Definition includes_twice (p : Path) (pre : list string)
    (line1 : string) (inc_name1 : string) (resolved1 : Path)
    (mid : list string)
    (line2 : string) (inc_name2 : string) (resolved2 : Path)
    (post : list string) : Prop :=
  exists src, read_text fs p = Some src
              /\ splitlines src = (pre ++ line1 :: mid ++ line2 :: post)%list
              /\ plain_lines pre /\ plain_lines mid /\ plain_lines post
              /\ match_include line1 = Some inc_name1
              /\ _resolve_include inc_name1 p = Some resolved1
              /\ match_include line2 = Some inc_name2
              /\ _resolve_include inc_name2 p = Some resolved2.

Definition join_pieces (out : list string) : string :=
  String.concat EmptyString out.

(** The flattened text of a file without includes. *)
Definition leaf_text (p : Path) (lines : list string) : string :=
  join_pieces (file_head p ++ kept lines ++ file_tail p)%list.

(** The flattened text of a file with one include, which flattened to
    [text]. *)
Definition once_text (p : Path) (pre : list string) (inc_name : string)
    (resolved : Path) (text : string) (post : list string) : string :=
  join_pieces
    (file_head p ++ kept pre
     ++ include_pieces p (S (length pre)) inc_name resolved text
     ++ kept post ++ file_tail p)%list.

(** The flattened text of a file with two includes, which flattened to
    [text1] and [text2]. *)
Definition twice_text (p : Path) (pre : list string)
    (inc_name1 : string) (resolved1 : Path) (text1 : string)
    (mid : list string)
    (inc_name2 : string) (resolved2 : Path) (text2 : string)
    (post : list string) : string :=
  join_pieces
    (file_head p ++ kept pre
     ++ include_pieces p (S (length pre)) inc_name1 resolved1 text1
     ++ kept mid
     ++ include_pieces p (S (length mid + S (length pre))) inc_name2
          resolved2 text2
     ++ kept post ++ file_tail p)%list.

End Flatten.

(** *** Measuring the recursion *)

(** Files of [files] not yet on the stack. *)
Definition room (files : gset string) (st : FState) : nat :=
  size (files ∖ list_to_set (stack st)).

(** The call returns, and a normal return restores the stack. *)
Definition returns (st : FState) {A} (r : FRes A * FState) : Prop :=
  match r with
  | (FOutOfFuel, _) => False
  | (FDone _, st') => stack st' = stack st
  | (FRaised, _) => True
  end.

(** *** The counters of [stats] *)

(** Between [st] and [st'], every include line seen was inlined or left
    unresolved. *)
Definition counters_agree (st st' : FState) : Prop :=
  include_lines_seen st' + include_lines_inlined st
    + include_lines_unresolved st
  = include_lines_seen st + include_lines_inlined st'
    + include_lines_unresolved st'.

(** With [inline_once], [files_inlined] counts the files of [inlined]. *)
Definition files_counted (st : FState) : Prop :=
  files_inlined st = size (inlined st).

Section Unresolved.
Context (fs : FileSystem) (global_search : list Path).

(** Lines whose quoted includes, if any, do not resolve from file [p]. *)
Definition unresolved_lines (p : Path) (lines : list string) : Prop :=
  Forall (fun l => forall nm, match_include l = Some nm ->
                              _resolve_include fs global_search nm p = None)
         lines.

End Unresolved.

End Preprocess.

(** ** cetest_prefs.py: stored rules and stored selections *)

Module PrefsStore.
Import PyStr Prefs Report.

#[global] Instance library_rule_eq_dec : EqDecision LibraryRule.
Proof. solve_decision. Defined.

Section Load.
(** [str] of a container, and [json.loads] ([None] when it raises). *)
Context (repr_container : PyVal -> string).
Context (json_loads : string -> option PyVal).

Local Abbreviation text_of v := (py_str repr_container v).

(** The body of the first loop of [_load_library_rules] for one item:
    the rule appended to [out], if any. *)
Definition rule_of_item (it : PyVal) : option LibraryRule :=
  match it with
  | VDict d =>
      let scope := lower (strip (text_of (py_or (get d "scope") (VStr "")))) in
      if negb (str_in scope ["all"; "family"; "compiler"]) then None
      else
        let target := strip (text_of (py_or (get d "target") (VStr ""))) in
        let lib_id :=
          _normalize_ce_library_id
            (text_of (py_or (py_or (get d "id") (get d "lib_id")) (VStr ""))) in
        let version :=
          _normalize_ce_library_version
            (text_of (py_or (get d "version") (VStr ""))) in
        if is_empty lib_id || is_empty version then None
        else
          let target := if String.eqb scope "all" then "" else target in
          if str_in scope ["family"; "compiler"] && is_empty target then None
          else Some (Build_LibraryRule scope target lib_id version)
  | _ => None
  end.

(** The second loop: a rule whose key was seen is skipped. *)
Fixpoint keep_first (seen : list LibraryRule) (out : list LibraryRule)
  : list LibraryRule :=
  match out with
  | [] => []
  | r :: out' =>
      if bool_decide (r ∈ seen) then keep_first seen out'
      else r :: keep_first (r :: seen) out'
  end.

(** [_load_library_rules], given the stored value [raw]. *)
Definition _load_library_rules (raw : PyVal) : list LibraryRule :=
  let data :=
    match raw with
    | VList _ => raw
    | _ => match json_loads (text_of (py_or raw (VStr "[]"))) with
           | Some v => v
           | None => VList []
           end
    end in
  match data with
  | VList items => keep_first [] (omap rule_of_item items)
  | _ => []
  end.

End Load.

(** The list [data] that [_save_library_rules] serialises. *)
Definition saved_rule (r : LibraryRule) : PyVal :=
  VDict [ ("scope", VStr (scope r)); ("target", VStr (target r));
          ("id", VStr (lib_id r)); ("version", VStr (version r)) ].

Definition saved_rules (rules : list LibraryRule) : list PyVal :=
  map saved_rule
    (List.filter (fun r => negb (is_empty (lib_id r))
                           && negb (is_empty (version r))
                           && str_in (scope r) ["all"; "family"; "compiler"])
                 rules).

(** [_save_library_rules]: the text handed to the settings. *)
Definition _save_library_rules (json_dumps : PyVal -> string)
    (rules : list LibraryRule) : string :=
  json_dumps (VList (saved_rules rules)).

(** A rule as [_load_library_rules] returns them. *)
Definition rule_clean (r : LibraryRule) : bool :=
  str_in (scope r) ["all"; "family"; "compiler"]
  && negb (is_empty (lib_id r)) && String.eqb (strip (lib_id r)) (lib_id r)
  && negb (is_empty (version r)) && String.eqb (strip (version r)) (version r)
  && String.eqb (strip (target r)) (target r)
  && (if String.eqb (scope r) "all" then is_empty (target r)
      else negb (is_empty (target r))).

End PrefsStore.

Module Migrate.
Import PyStr.

(** [families_to_platform_to_series_counts] *)
Definition Table : Type := gmap string (gmap string (gmap string Z)).

(** [s.split(sep)] for a single character [sep]. *)
Fixpoint split_on (sep : ascii) (s : string) : list string :=
  match s with
  | EmptyString => [EmptyString]
  | String c r =>
      if Ascii.eqb c sep then EmptyString :: split_on sep r
      else match split_on sep r with
           | x :: xs => String c x :: xs
           | [] => [String c EmptyString]
           end
  end.

Definition bar : ascii := ascii_of_nat 124.

Definition group_key (fam platform series : string) : string :=
  fam ++ "|" ++ platform ++ "|" ++ series.

Definition _canonicalize_saved_family (fam : string) : string :=
  let f := strip fam in
  if String.eqb f "icx" then "intel-icx"
  else if String.eqb f "icc" then "intel-icc"
  else f.

Section Keys.
Context (table : Table).

(** The keys that one call of [add_all_under] adds. *)
Definition add_all_under (fam : string) (platform : option string)
    : gset string :=
  let by_platform := default ∅ (table !! fam) in
  match platform with
  | None =>
      list_to_set
        (mbind (fun '(p, by_series) =>
                  map (fun s => group_key fam p s)
                      (map fst (map_to_list (by_series : gmap string Z))))
               (map_to_list by_platform))
  | Some p =>
      let by_series := default ∅ (by_platform !! p) in
      list_to_set
        (map (fun s => group_key fam p s) (map fst (map_to_list by_series)))
  end.

Definition in_table (fam platform series : string) : bool :=
  match table !! fam with
  | Some by_platform =>
      match by_platform !! platform with
      | Some by_series => bool_decide (is_Some (by_series !! series))
      | None => false
      end
  | None => false
  end.

(** The keys that one saved key contributes. *)
Definition migrate_key (key : string) : gset string :=
  let parts := map strip (split_on bar key) in
  let parts := List.filter (fun p => negb (is_empty p)) parts in
  match parts with
  | [] => ∅
  | [f] => add_all_under (_canonicalize_saved_family f) None
  | [f; p] => add_all_under (_canonicalize_saved_family f) (Some p)
  | f :: p :: rest =>
      let fam := _canonicalize_saved_family f in
      let series := String.concat "|" rest in
      if in_table fam p series then {[ group_key fam p series ]}
      else add_all_under fam (Some p)
  end.

Definition _migrate_selected_group_keys (selected : gset string)
    : gset string :=
  ⋃ (map migrate_key (elements selected)).

(** The key [k] names a group of the table. *)
Definition names_group (k : string) : Prop :=
  exists fam p s by_platform by_series,
    k = group_key fam p s
    /\ table !! fam = Some by_platform
    /\ by_platform !! p = Some by_series
    /\ is_Some (by_series !! s).

End Keys.

(** No bar in [s]. *)
Definition no_bar (s : string) : bool :=
  all_chars (fun c => negb (Ascii.eqb c bar)) s.

End Migrate.

(** ** cetest_ce.py: the HTTP client *)

Module Http.
Import PyStr Report.

(** What one [urlopen] and [resp.read()] do, by the handler of
    [_request_json] that catches it. *)
Inductive UrlOutcome :=
| Body (raw : string)
| HTTPError (code : Z) (retry_after : option string)
| TimeoutErr (msg : string)
| ConnectionErr (msg : string)
| URLErr (msg : string)
| OtherErr (msg : string).

(** A Python [float]: a finite number, an infinity or not-a-number. *)
Inductive PyFloat :=
| Finite (q : QArith_base.Q)
| PosInf
| NegInf
| NaN.

(** The exceptions that leave [_request_json]. *)
Inductive NetRaised :=
| RCancelled
| RNameError             (* [CancelledByUser], a name that
                            [cetest_prefs.py] uses and never imports *)
| RHTTPError (code : Z)
| RTimeout (msg : string)
| RConnection (msg : string)
| RURLError (msg : string)
| RValueError            (* from [decode], [json.loads] or [time.sleep] *)
| ROverflowError         (* from [time.sleep] *)
| ROther (msg : string)
| RUnreachable.          (* [RuntimeError("unreachable")] *)

(** How a call ends: it returns, it raises, or it never returns. *)
Inductive NetResult :=
| NetJson (v : PyVal)
| NetRaises (e : NetRaised)
| NetHangs.

(** The world of one client: the answers of the network by call,
    whether the caller passed an abort event, the abort flag by poll,
    whether the flag is seen set during a timed wait (a rate-limit pause
    or a back-off sleep), and the two conversions [json.loads] and
    [float] ([None] when they raise). *)
Record World := {
  urlopen : nat -> UrlOutcome;
  has_abort_event : bool;
  abort_is_set : nat -> bool;
  wait_aborted : nat -> bool;
  json_loads : string -> option PyVal;
  float_of_text : string -> option PyFloat;
}.

(** Calls, polls and timed waits so far, and the arguments of the calls
    of [_sleep_abortable], in seconds, most recent first. *)
Record NetState := {
  url_calls : nat;
  flag_polls : nat;
  waits : nat;
  slept : list PyFloat;
}.

Definition max_retries : nat := 6.
(** Seconds, as exact rationals: the loop only doubles the back-off
    and caps it, which is exact on binary floating-point numbers too. *)
Definition Seconds : Type := QArith_base.Q.
Definition first_backoff : Seconds := QArith_base.Qmake 6 10.
Definition backoff_cap : Seconds := QArith_base.Qmake 6 1.

(** [min(backoff * 2.0, 6.0)] *)
Definition next_backoff (backoff : Seconds) : Seconds :=
  Qminmax.Qmin (QArith_base.Qmult backoff (QArith_base.Qmake 2 1)) backoff_cap.

Definition retryable (code : Z) : bool :=
  existsb (Z.eqb code) [408; 429; 500; 502; 503; 504]%Z.

(** [0 < q] and [q < 0]. *)
Definition positive (q : QArith_base.Q) : bool :=
  negb (QArith_base.Qle_bool q (QArith_base.Qmake 0 1)).

Definition negative (q : QArith_base.Q) : bool :=
  negb (QArith_base.Qle_bool (QArith_base.Qmake 0 1) q).

(** [time.sleep] turns the seconds into a signed 64-bit count of
    nanoseconds: whether [q] seconds fit (up to the rounding of the
    product). *)
Definition nanoseconds_fit (q : QArith_base.Q) : bool :=
  let ns := QArith_base.Qmult q (QArith_base.Qmake 1000000000 1) in
  QArith_base.Qle_bool (QArith_base.Qmake (-9223372036854775808) 1) ns
  && negb (QArith_base.Qle_bool (QArith_base.Qmake 9223372036854775808 1) ns).

(** How a sleep ends. *)
Inductive SleepEnd :=
| Woke
| SleepRaised (e : NetRaised)
| NeverWoke.

Section RequestJson.
Context (w : World).

Definition polled (st : NetState) : NetState :=
  {| url_calls := url_calls st; flag_polls := S (flag_polls st);
     waits := waits st; slept := slept st |}.

Definition waited (st : NetState) : NetState :=
  {| url_calls := url_calls st; flag_polls := flag_polls st;
     waits := S (waits st); slept := slept st |}.

Definition called (st : NetState) : NetState :=
  {| url_calls := S (url_calls st); flag_polls := flag_polls st;
     waits := waits st; slept := slept st |}.

Definition sleeping (secs : PyFloat) (st : NetState) : NetState :=
  {| url_calls := url_calls st; flag_polls := flag_polls st;
     waits := S (waits st); slept := secs :: slept st |}.

(** [abort_event is not None and abort_event.is_set()] *)
Definition abort_seen (st : NetState) : bool * NetState :=
  if has_abort_event w then (abort_is_set w (flag_polls st), polled st)
  else (false, st).

(** [self._rate.wait(abort_event)] with its finite pause: the exception
    raised, if any.  Where the rate limiter sees the flag set it raises
    [CancelledByUser], which is not a name of its module. *)
Definition rate_wait (st : NetState) : option NetRaised * NetState :=
  let '(seen, st) := abort_seen st in
  if seen then (Some RNameError, st)
  else if has_abort_event w && wait_aborted w (waits st)
       then (Some RNameError, waited st)
       else (None, waited st).

(** [_sleep_abortable(secs, abort_event)].  Without an event it is
    [time.sleep(secs)], which raises [ValueError] for not-a-number and
    for a negative number and [OverflowError] for an infinity and for a
    number whose nanoseconds do not fit.  With an event the flag is
    polled until [secs] have passed: the loop is over at once when
    [secs] is not positive, and never when it is infinite. *)
Definition _sleep_abortable (secs : PyFloat) (st : NetState)
  : SleepEnd * NetState :=
  let st' := sleeping secs st in
  if has_abort_event w then
    match secs with
    | Finite q =>
        if positive q && wait_aborted w (waits st)
        then (SleepRaised RCancelled, st')
        else (Woke, st')
    | PosInf =>
        if wait_aborted w (waits st) then (SleepRaised RCancelled, st')
        else (NeverWoke, st')
    | NegInf | NaN => (Woke, st')
    end
  else
    match secs with
    | Finite q =>
        if negb (nanoseconds_fit q) then (SleepRaised ROverflowError, st')
        else if negative q then (SleepRaised RValueError, st')
        else (Woke, st')
    | PosInf | NegInf => (SleepRaised ROverflowError, st')
    | NaN => (SleepRaised RValueError, st')
    end.

(** The retry branch shared by the handlers: sleep [wait_s], then go on
    with the doubled back-off. *)
Definition retry_after (wait_s : PyFloat) (backoff : Seconds) (st : NetState)
    (next : Seconds -> NetState -> NetResult * NetState)
  : NetResult * NetState :=
  match _sleep_abortable wait_s st with
  | (Woke, st') => next (next_backoff backoff) st'
  | (SleepRaised e, st') => (NetRaises e, st')
  | (NeverWoke, st') => (NetHangs, st')
  end.

(** The [for attempt in range(max_retries)] loop over the attempt
    numbers that are left. *)
Fixpoint attempts (left : list nat) (backoff : Seconds) (st : NetState)
  : NetResult * NetState :=
  match left with
  | [] => (NetRaises RUnreachable, st)
  | attempt :: rest =>
      let '(seen, st) := abort_seen st in
      if seen then (NetRaises RCancelled, st)
      else
        match rate_wait st with
        | (Some e, st) => (NetRaises e, st)
        | (None, st) =>
            let last := (attempt =? max_retries - 1)%nat in
            match urlopen w (url_calls st) with
            | Body raw =>
                let '(seen, st) := abort_seen (called st) in
                if seen then (NetRaises RCancelled, st)
                else
                  match json_loads w raw with
                  | Some v => (NetJson v, st)
                  | None => (NetRaises RValueError, st)
                  end
            | HTTPError code ra =>
                let st := called st in
                if negb (retryable code) || last
                then (NetRaises (RHTTPError code), st)
                else
                  let wait_s :=
                    match ra with
                    | Some t => default (Finite backoff) (float_of_text w t)
                    | None => Finite backoff
                    end in
                  retry_after wait_s backoff st (attempts rest)
            | TimeoutErr msg =>
                let st := called st in
                if last then (NetRaises (RTimeout msg), st)
                else retry_after (Finite backoff) backoff st (attempts rest)
            | ConnectionErr msg =>
                let st := called st in
                if last then (NetRaises (RConnection msg), st)
                else retry_after (Finite backoff) backoff st (attempts rest)
            | URLErr msg =>
                let st := called st in
                if last then (NetRaises (RURLError msg), st)
                else retry_after (Finite backoff) backoff st (attempts rest)
            | OtherErr msg => (NetRaises (ROther msg), called st)
            end
        end
  end.

Definition _request_json (st : NetState) : NetResult * NetState :=
  attempts (seq 0 max_retries) first_backoff st.

End RequestJson.

(** A failure that is retried after the current back-off: a timeout, a
    connection error, a URL error, or a retryable HTTP status without a
    Retry-After header. *)
Definition plain_failure (o : UrlOutcome) : bool :=
  match o with
  | HTTPError code None => retryable code
  | TimeoutErr _ | ConnectionErr _ | URLErr _ => true
  | _ => false
  end.

(** The exception raised for a failure when no attempt is left. *)
Definition raised_of (o : UrlOutcome) : NetRaised :=
  match o with
  | HTTPError code _ => RHTTPError code
  | TimeoutErr msg => RTimeout msg
  | ConnectionErr msg => RConnection msg
  | URLErr msg => RURLError msg
  | OtherErr msg => ROther msg
  | Body _ => RValueError
  end.

(** Nobody sets the abort flag. *)
Definition never_aborted (w : World) : Prop :=
  (forall k, abort_is_set w k = false) /\ (forall k, wait_aborted w k = false).

End Http.

Module Client.
Import PyStr Prefs Ce Report.

(** An exception that leaves [compile_cached]: one of [_request_json],
    as [test] tells them apart, or the [NameError] of its own loop. *)
Inductive Raised :=
| ECancelled
| ETimeout (msg : string)
| EOther (msg : string)
| ENameError (name : string).

(** How a call ends: with a JSON value or with an exception. *)
Inductive Outcome :=
| Returned (v : PyVal)
| Raises (e : Raised).

(** One entry [(lid, ver)] of [pairs]. *)
Definition LibPair : Type := string * string.

(** The computation of [libs_key]; [None] when it raises.  For the
    first entry of a list the loop calls [_normalize_ce_library_id], a
    name that [cetest_ce.py] neither defines nor imports, which raises
    [NameError]; the key is computed only when [libraries] is not a
    list, where it stays [()], or is an empty list, where it is
    [tuple(sorted(set([])))]. *)
Definition libs_key (libraries : option (list Library))
  : option (list LibPair) :=
  match libraries with
  | None => Some []
  | Some [] => Some []
  | Some (_ :: _) => None
  end.

(** The key [(compiler_id, user_arguments, libs_key, h)]. *)
Definition Key : Type := string * string * list LibPair * string.

Record ClientState := {
  _compile_cache : gmap Key PyVal;
  requests : list CompileRequest;   (* the calls of [_request_json] *)
}.

Section CompileCached.
(** [hashlib.sha1(...).hexdigest()], and [_request_json] for the compile
    end point, which answers in view of the calls made before. *)
Context (sha1_hex : string -> string).
Context (_request_json : list CompileRequest -> CompileRequest -> Outcome).

Definition is_none (v : PyVal) : bool :=
  match v with VNone => true | _ => false end.

Definition compile_cached (st : ClientState)
    (compiler_id source user_arguments : string)
    (libraries : option (list Library)) : Outcome * ClientState :=
  let h := sha1_hex source in
  match libs_key libraries with
  | None => (Raises (ENameError "_normalize_ce_library_id"), st)
  | Some lk =>
      let key : Key := (compiler_id, user_arguments, lk, h) in
      let hit := default VNone (_compile_cache st !! key) in
      if negb (is_none hit) then (Returned hit, st)
      else
        let rq := {| rq_compiler_id := compiler_id; rq_source := source;
                     rq_user_arguments := user_arguments;
                     rq_libraries := default [] libraries |} in
        match _request_json (requests st) rq with
        | Returned resp =>
            (Returned resp,
             {| _compile_cache := <[key := resp]> (_compile_cache st);
                requests := rq :: requests st |})
        | Raises e =>
            (Raises e,
             {| _compile_cache := _compile_cache st;
                requests := rq :: requests st |})
        end
  end.

(** The arguments of one call, and a sequence of calls. *)
Definition Call : Type := string * string * string * option (list Library).

Definition call (st : ClientState) (c : Call) : Outcome * ClientState :=
  let '(compiler_id, source, user_arguments, libraries) := c in
  compile_cached st compiler_id source user_arguments libraries.

Definition calls (st : ClientState) (cs : list Call) : ClientState :=
  fold_left (fun st c => (call st c).2) cs st.

End CompileCached.

(** Entries other than [None] stay as they are. *)
Definition cache_kept (st st' : ClientState) : Prop :=
  forall k v, _compile_cache st !! k = Some v -> is_none v = false ->
              _compile_cache st' !! k = Some v.

(** A call made without libraries: [None] or an empty list. *)
Definition no_libraries (libraries : option (list Library)) : bool :=
  match libraries with
  | None | Some [] => true
  | Some (_ :: _) => false
  end.

End Client.

Module Listing.
Import PyStr Models Report.

Section ListCompilers.
Context (repr_container : PyVal -> string).

Local Abbreviation py_str := (Report.py_str repr_container).

(** [str(v) if v is not None else None] *)
Definition opt_str (v : PyVal) : option string :=
  match v with
  | VNone => None
  | _ => Some (py_str v)
  end.

(** One turn of the loop over the items: the compiler appended, if any. *)
Definition compiler_of_item (it : PyVal) : option CompilerInfo :=
  match it with
  | VDict d =>
      let cid := py_str (py_or (get d "id") (VStr "")) in
      let name := py_str (py_or (get d "name") (VStr "")) in
      let lang := py_str (py_or (get d "lang") (VStr "")) in
      let ct := py_str (py_or (get d "compilerType") (VStr "")) in
      let semver := get d "semver" in
      let instruction_set := get d "instructionSet" in
      if is_empty cid || negb (String.eqb lang "c++") then None
      else if contains "ex-wine" (lower name) then None
      else Some (Build_CompilerInfo cid name lang ct (opt_str semver)
                   (opt_str instruction_set))
  | _ => None
  end.

(** [list_compilers_cpp], from the decoded answer [items] of the
    request on. *)
Definition list_compilers_cpp (items : PyVal) : list CompilerInfo :=
  let items :=
    match items with
    | VDict d =>
        match get d "compilers" with
        | VList l => VList l
        | _ => items
        end
    | _ => items
    end in
  match items with
  | VList l => omap compiler_of_item l
  | _ => []
  end.

End ListCompilers.
End Listing.

(** ** cetest_preprocess.py: include directories of a command line *)

Module IncludeArgs.
Import PyStr Preprocess.

(** [strip] of the double-quote character, at both ends. *)
Fixpoint lstrip_quotes (s : string) : string :=
  match s with
  | EmptyString => EmptyString
  | String c r => if Ascii.eqb c DQ then lstrip_quotes r else s
  end.

Fixpoint rstrip_quotes (s : string) : string :=
  match s with
  | EmptyString => EmptyString
  | String c r =>
      let r' := rstrip_quotes r in
      if Ascii.eqb c DQ && is_empty r' then EmptyString else String c r'
  end.

Definition strip_quotes (s : string) : string :=
  rstrip_quotes (lstrip_quotes s).

(** The three lists [quote_dirs], [user_dirs] and [sys_dirs]. *)
Record Dirs := {
  quote_dirs : list Path;
  user_dirs : list Path;
  sys_dirs : list Path;
}.

Inductive Kind := KindI | KindIquote | KindIsystem.

Section Iter.
(** Path operations: the file system of the flattener, [is_absolute],
    [resolve] ([None] when it raises) and [absolute]. *)
Context (fs : FileSystem).
Context (is_absolute : Path -> bool).
Context (resolve : Path -> option Path) (absolute : Path -> Path).

(** The path appended for the value [v] of a flag. *)
Definition include_dir (directory : Path) (v : string) : Path :=
  let p := expanduser fs (strip_quotes (strip v)) in
  let p := if is_absolute p then p else joinpath fs directory p in
  match resolve p with
  | Some q => q
  | None => absolute p
  end.

Definition add_dir (directory : Path) (kind : Kind) (v : string)
    (acc : Dirs) : Dirs :=
  let p := include_dir directory v in
  match kind with
  | KindIquote =>
      {| quote_dirs := (quote_dirs acc ++ [p])%list;
         user_dirs := user_dirs acc; sys_dirs := sys_dirs acc |}
  | KindI =>
      {| quote_dirs := quote_dirs acc;
         user_dirs := (user_dirs acc ++ [p])%list; sys_dirs := sys_dirs acc |}
  | KindIsystem =>
      {| quote_dirs := quote_dirs acc; user_dirs := user_dirs acc;
         sys_dirs := (sys_dirs acc ++ [p])%list |}
  end.

(** A flag that stands alone takes the next argument as its value, if
    there is one. *)
Definition flag_alone (a : string) : option Kind :=
  if String.eqb a "-I" then Some KindI
  else if startswith "-I" a && (2 <? String.length a)%nat then None
  else if String.eqb a "-iquote" then Some KindIquote
  else if startswith "-iquote" a && (7 <? String.length a)%nat then None
  else if String.eqb a "-isystem" then Some KindIsystem
  else None.

(** A flag joined with its value. *)
Definition flag_joined (a : string) : option (Kind * string) :=
  if String.eqb a "-I" then None
  else if startswith "-I" a && (2 <? String.length a)%nat
       then Some (KindI, drop_chars 2 a)
  else if String.eqb a "-iquote" then None
  else if startswith "-iquote" a && (7 <? String.length a)%nat
       then Some (KindIquote, drop_chars 7 a)
  else if String.eqb a "-isystem" then None
  else if startswith "-isystem" a && (8 <? String.length a)%nat
       then Some (KindIsystem, drop_chars 8 a)
  else None.

(** The [while i < len(args)] loop, on the arguments from [i] on. *)
Fixpoint iter (directory : Path) (args : list string) (acc : Dirs) : Dirs :=
  match args with
  | [] => acc
  | a :: rest =>
      match flag_alone a with
      | Some kind =>
          match rest with
          | v :: rest' => iter directory rest' (add_dir directory kind v acc)
          | [] => acc
          end
      | None =>
          match flag_joined a with
          | Some (kind, v) => iter directory rest (add_dir directory kind v acc)
          | None => iter directory rest acc
          end
      end
  end.

Definition _iter_include_dirs_from_args (args : list string)
    (directory : Path) : Dirs :=
  iter directory args
    {| quote_dirs := []; user_dirs := []; sys_dirs := [] |}.

End Iter.
End IncludeArgs.

(** ** cetest_core.py *)

Module Core.
Import PyStr.

(** The five replacements of [_escape_html], innermost first. *)
Definition _escape_html (s : string) : string :=
  replace_char "'" "&#39;"
    (replace_char (ascii_of_nat 34) "&quot;"
       (replace_char ">" "&gt;"
          (replace_char "<" "&lt;"
             (replace_char "&" "&amp;" s)))).

(** The characters that open or close markup or an attribute value. *)
Definition is_markup (c : ascii) : bool :=
  Ascii.eqb c "<" || Ascii.eqb c ">" || Ascii.eqb c (ascii_of_nat 34)
  || Ascii.eqb c "'".

End Core.

(** ** Sample data

    The rules, compilers, mocked services and small file systems on which
    the properties below are exercised. *)

(** The three fmt rules of the specification's example. *)
Definition fmt_rules : list Prefs.LibraryRule :=
  [ Prefs.Build_LibraryRule "all" "" "fmt" "9.0";
    Prefs.Build_LibraryRule "family" "gcc" "fmt" "11.0";
    Prefs.Build_LibraryRule "compiler" "g132" "fmt" "13.0" ].

Definition sample_ok_attempt : Ce.CeAttempt :=
Ce.Build_CeAttempt "x86-64" "x86-64 gcc" "gcc" "g132" "x86-64 gcc 13.2"
  (Some "13.2.0") 0 "".

Definition sample_failed_attempt : Ce.CeAttempt :=
Ce.Build_CeAttempt "x86-64" "x86-64 gcc" "gcc" "g48" "x86-64 gcc 4.8"
  None 1 "error: unrecognized option".

Definition sample_summaries : list Ce.CeGroupSummary :=
[ Ce.Build_CeGroupSummary "x86-64" "x86-64 gcc" "gcc"
    (Some sample_ok_attempt) (Some sample_ok_attempt)
    (Some sample_failed_attempt) [sample_ok_attempt; sample_failed_attempt]
    None;
  Ce.Build_CeGroupSummary "aarch64" "armv8 clang" "clang" None None None []
    (Some "Timeout talking to Compiler Explorer (compiler id=c1)") ].

(** A mocked service: sixteen compilers, newest first. *)

Definition sample_ci (v : string) : Models.CompilerInfo :=
  Models.Build_CompilerInfo ("g" ++ v) ("x86-64 gcc " ++ v) "c++" "gcc"
    (Some v) None.

Definition sample_compilers : list Models.CompilerInfo :=
  map sample_ci
    [ "15.2"; "15.1"; "14.3"; "14.2"; "14.1"; "13.4"; "13.3"; "13.2";
      "13.1"; "12.5"; "12.4"; "12.3"; "12.2"; "12.1"; "11.5"; "11.4" ].

Definition sample_worker : Ce.Worker :=
  {| Ce._source := "int main() { return 0; }";
     Ce._cpp_std := "c++20";
     Ce._extra_flags := {| Flags.extra_gnu := "-Wall"; Flags.extra_msvc := "";
                           Flags.extra_by_group := ∅ |};
     Ce._library_rules := fmt_rules |}.

Definition sample_state : Ce.PState :=
  {| Ce.ce_log := []; Ce.polls := 0; Ce.attempts_by_idx := ∅;
     Ce.reason := None |}.

(** The service accepts the compilers whose id is in [oks], times out on
    the one whose id is [slow], and rejects the others. *)
Definition mock_env (oks : list string) (slow : string) : Ce.Env :=
  {| Ce.compile_cached := fun _ rq =>
       if existsb (String.eqb (Ce.rq_compiler_id rq)) oks
       then Ce.Responded 0 ""
       else if String.eqb (Ce.rq_compiler_id rq) slow
       then Ce.RaisedTimeout "timed out"
       else Ce.Responded 1 "error: use of undeclared identifier";
     Ce.cancelled_at := fun _ => false |}.

Definition first_six : list string :=
  ["g15.2"; "g15.1"; "g14.3"; "g14.2"; "g14.1"; "g13.4"].

Definition sample_code (i : nat) : Z := if (i <=? 5)%nat then 0%Z else 1%Z.

Definition sample_stderr (i : nat) : string :=
  if (i <=? 5)%nat then "" else "error: use of undeclared identifier".

Definition sample_jobs : list Ce.Job :=
  [ ("x86-64", "x86-64 gcc", "gcc", sample_compilers);
    ("aarch64", "armv8 gcc", "gcc", firstn 3 sample_compilers) ].

(** One probe of the sixteen compilers, the first six of which accept
    the source, and the summary it returns. *)
Definition sample_probe : Ce.Res Ce.CeGroupSummary * Ce.PState :=
  Ce._probe_group_binary (mock_env first_six "") sample_worker
    "x86-64" "x86-64 gcc" "gcc" sample_compilers sample_state.

Definition sample_summary : Ce.CeGroupSummary :=
  match fst sample_probe with
  | Ce.Done s => s
  | _ => Ce.summary "" "" "" None None None [] None
  end.

(** A service whose abort flag is set from the start. *)
Definition cancelled_env : Ce.Env :=
  {| Ce.compile_cached := fun _ _ => Ce.Responded 0 "";
     Ce.cancelled_at := fun _ => true |}.

(** Two small file systems: a cycle and a diamond. *)

(** Files in one directory, given by name and text. *)
Definition table_fs (files : list (string * string)) : Preprocess.FileSystem :=
  {| Preprocess.expanduser := fun p => p;
     Preprocess.norm_abs := fun p => p;
     Preprocess.is_file := fun p =>
       existsb (fun kv => String.eqb (fst kv) p) files;
     Preprocess.read_text := fun p =>
       snd <$> List.find (fun kv => String.eqb (fst kv) p) files;
     Preprocess.parent := fun _ => "";
     Preprocess.joinpath := fun d n => d ++ n |}.

Definition include_line (n : string) : string :=
  "#include " ++ Preprocess.dq ++ n ++ Preprocess.dq ++ Preprocess.nl.

Definition text_line (s : string) : string := s ++ Preprocess.nl.

Definition cycle_fs : Preprocess.FileSystem :=
  table_fs [ ("a.h", include_line "b.h" ++ text_line "int a;");
             ("b.h", include_line "a.h" ++ text_line "int b;") ].

Definition diamond_fs : Preprocess.FileSystem :=
  table_fs
    [ ("r.cpp", include_line "b.h" ++ include_line "c.h"
                ++ text_line "int main() { return b + c; }");
      ("b.h", text_line "#pragma once" ++ include_line "d.h"
              ++ text_line "int b = d;");
      ("c.h", text_line "#pragma once" ++ include_line "d.h"
              ++ text_line "int c = d;");
      ("d.h", text_line "#pragma once" ++ text_line "int d = 1;") ].

Definition plain_options (once : bool) : Preprocess.Options :=
  {| Preprocess.inline_once := once;
     Preprocess.strip_pragma_once := true;
     Preprocess.emit_line_directives := false;
     Preprocess.include_debug_comments := false |}.

(** A source file whose only include does not resolve, and options that
    leave the text alone. *)
Definition lone_text : string :=
  include_line "missing.h" ++ text_line "int x;".

Definition lone_fs : Preprocess.FileSystem := table_fs [ ("m.cpp", lone_text) ].

Definition verbatim_options : Preprocess.Options :=
  {| Preprocess.inline_once := true;
     Preprocess.strip_pragma_once := false;
     Preprocess.emit_line_directives := false;
     Preprocess.include_debug_comments := false |}.

(** A client whose service accepts everything, and calls made in between. *)
Definition sample_response : Report.PyVal :=
  Report.VDict [ ("code", Report.VInt 0) ].

Definition accepting_service (_ : list Ce.CompileRequest)
    (_ : Ce.CompileRequest) : Client.Outcome :=
  Client.Returned sample_response.

Definition fresh_client : Client.ClientState :=
  {| Client._compile_cache := ∅; Client.requests := [] |}.

Definition sample_libs : option (list Prefs.Library) :=
  Some [ {| Prefs.l_id := "fmt"; Prefs.l_version := "1000" |};
         {| Prefs.l_id := "boost"; Prefs.l_version := "183" |} ].

Definition other_calls : list Client.Call :=
  [ ("g132", "int main() {}", "-std=c++20 -fsyntax-only", None);
    ("g141", "int x;", "-std=c++17 -fsyntax-only", sample_libs) ].

(** A network on which every call times out. *)
Definition timeout_world : Http.World :=
  {| Http.urlopen := fun _ => Http.TimeoutErr "timed out";
     Http.has_abort_event := true;
     Http.abort_is_set := fun _ => false;
     Http.wait_aborted := fun _ => false;
     Http.json_loads := fun _ => None;
     Http.float_of_text := fun _ => None |}.

(** A service that answers 429 and asks for an infinite pause, to a
    caller whose abort flag is never set. *)
Definition stalling_world : Http.World :=
  {| Http.urlopen := fun _ => Http.HTTPError 429 (Some "inf");
     Http.has_abort_event := true;
     Http.abort_is_set := fun _ => false;
     Http.wait_aborted := fun _ => false;
     Http.json_loads := fun _ => None;
     Http.float_of_text := fun t =>
       if String.eqb t "inf" then Some Http.PosInf else None |}.

Definition idle_net : Http.NetState :=
  {| Http.url_calls := 0; Http.flag_polls := 0; Http.waits := 0;
     Http.slept := [] |}.

(** A table with one group, and selections saved for it. *)
Definition sample_table : Migrate.Table :=
  {[ "gcc" := {[ "x86-64" := {[ "GCC 13" := 3%Z ]} ]} ]}.

(** * Properties *)

(** ** Version keys ([parse_semver_key]) *)

Section SemverKeyFacts.
Import PyStr Models.

Lemma lstrip_idem s : lstrip (lstrip s) = lstrip s.
Proof.
  induction s as [|c r IH]; simpl; [reflexivity|].
  destruct (is_space c) eqn:E; [exact IH|].
  simpl. rewrite E. reflexivity.
Qed.

Lemma rstrip_head_kept c r :
  is_space c = false -> rstrip (String c r) = String c (rstrip r).
Proof. intros E. simpl. rewrite E. reflexivity. Qed.

(** A stripped text has no leading blank. *)
Lemma lstrip_strip s : lstrip (strip s) = strip s.
Proof.
  unfold strip.
  pose proof (lstrip_idem s) as Hi.
  destruct (lstrip s) as [|c r] eqn:E; [reflexivity|].
  simpl in Hi. destruct (is_space c) eqn:Ec.
  - (* the first character of a left-stripped text is not a blank *)
    exfalso. clear Hi.
    revert c r E Ec. induction s as [|d s IH]; simpl; intros c r E Ec.
    + discriminate.
    + destruct (is_space d) eqn:Ed.
      * eapply IH; eassumption.
      * injection E as -> ->. congruence.
  - rewrite rstrip_head_kept by assumption. simpl. rewrite Ec. reflexivity.
Qed.

Lemma lower_digit c : is_digit c = true -> lower_char c = c.
Proof.
  unfold is_digit, lower_char. intros H.
  destruct ((65 <=? nat_of_ascii c)%nat && (nat_of_ascii c <=? 90)%nat) eqn:E;
    [|reflexivity].
  apply andb_true_iff in H as [_ H2]. apply andb_true_iff in E as [E1 _].
  apply Nat.leb_le in H2, E1. lia.
Qed.

Lemma span_digit_head u g r :
  span is_digit u = (g, r) -> g <> EmptyString ->
  starts_with_digit (lower u) = true.
Proof.
  destruct u as [|c u']; simpl.
  - intros [= <- <-] H. congruence.
  - destruct (is_digit c) eqn:E.
    + intros _ _. rewrite lower_digit by assumption. exact E.
    + intros [= <- <-] H. congruence.
Qed.

Lemma match_version_digit u g :
  match_version u = Some g -> lstrip u = u ->
  starts_with_digit (lower u) = true.
Proof.
  unfold match_version. intros H Hu. rewrite Hu in H.
  destruct (span is_digit u) as [g1 r1] eqn:E.
  destruct g1 as [|c g1']; [discriminate|].
  eapply span_digit_head; [exact E|discriminate].
Qed.

Lemma parse_semver_key_bleeding s :
  is_bleeding_edge s = true ->
  parse_semver_key (Some s)
  = Some (9999, 9999, 9999, 9999, lower (strip s))%Z.
Proof.
  unfold is_bleeding_edge. intros H.
  destruct s as [|c0 s0]; [discriminate|].
  unfold parse_semver_key. rewrite H. reflexivity.
Qed.

Lemma key_lt_sentinel a b c tw rest st :
  (tw = 0 \/ tw = 1)%Z ->
  key_lt (a, b, c, tw, rest) (9999, 9999, 9999, 9999, st)%Z = true
  <-> triple_within_sentinel (a, b, c, tw, rest).
Proof.
  intros Htw. unfold key_lt, key_compare, triple_within_sentinel.
  destruct (Z.compare_spec a 9999); [|split; intros; [lia|reflexivity]|].
  2:{ split; [discriminate|lia]. }
  destruct (Z.compare_spec b 9999); [|split; intros; [lia|reflexivity]|].
  2:{ split; [discriminate|lia]. }
  destruct (Z.compare_spec c 9999); [|split; intros; [lia|reflexivity]|].
  2:{ split; [discriminate|lia]. }
  destruct (Z.compare_spec tw 9999); [lia|split; intros; [lia|reflexivity]|lia].
Qed.

(** *** From the specification's words to the test of the code *)

Lemma append_cons c (r b : string) : String c r ++ b = String c (r ++ b).
Proof. reflexivity. Qed.

Lemma startswith_app p s : startswith p (p ++ s) = true.
Proof.
  induction p as [|c p IH]; [reflexivity|]. rewrite append_cons.
  cbn [startswith]. rewrite Ascii.eqb_refl. exact IH.
Qed.

(** A text that occurs in [s] is found by [in]. *)
Lemma occurs_in_contains sub s : occurs_in sub s -> contains sub s = true.
Proof.
  intros (pre & post & ->). induction pre as [|c pre IH].
  - change ("" ++ sub ++ post) with (sub ++ post).
    pose proof (startswith_app sub post) as H.
    destruct (sub ++ post); cbn [contains]; rewrite H; reflexivity.
  - rewrite append_cons. cbn [contains]. rewrite IH. apply orb_true_r.
Qed.

Lemma lower_char_space c : is_space (lower_char c) = is_space c.
Proof. destruct c as [[] [] [] [] [] [] [] []]; reflexivity. Qed.

Lemma lower_char_digit c : is_digit (lower_char c) = is_digit c.
Proof. destruct c as [[] [] [] [] [] [] [] []]; reflexivity. Qed.

Lemma lower_lstrip s : lower (lstrip s) = lstrip (lower s).
Proof.
  induction s as [|c r IH]; [reflexivity|]. cbn [lstrip lower].
  rewrite lower_char_space. destruct (is_space c); [exact IH|reflexivity].
Qed.

Lemma lower_empty s : is_empty (lower s) = is_empty s.
Proof. destruct s; reflexivity. Qed.

Lemma lower_rstrip s : lower (rstrip s) = rstrip (lower s).
Proof.
  induction s as [|c r IH]; [reflexivity|]. cbn [rstrip lower].
  rewrite lower_char_space, <- IH, lower_empty.
  destruct (is_space c && is_empty (rstrip r)); reflexivity.
Qed.

Lemma lower_strip s : lower (strip s) = strip (lower s).
Proof. unfold strip. rewrite lower_rstrip, lower_lstrip. reflexivity. Qed.

(** Stripping does not reach into a text that has no blank. *)
Lemma rstrip_solid tok post :
  all_chars (fun c => negb (is_space c)) tok = true ->
  rstrip (tok ++ post) = tok ++ rstrip post.
Proof.
  induction tok as [|c tok IH]; [reflexivity|]. cbn [all_chars].
  intros [Hc Ht]%andb_true_iff. apply negb_true_iff in Hc.
  rewrite !append_cons. cbn [rstrip]. rewrite Hc, (IH Ht). reflexivity.
Qed.

Lemma rstrip_after pre u :
  is_empty (rstrip u) = false -> rstrip (pre ++ u) = pre ++ rstrip u.
Proof.
  intros Hu. induction pre as [|x pre IH]; [reflexivity|].
  rewrite !append_cons. cbn [rstrip]. rewrite IH.
  replace (is_empty (pre ++ rstrip u)) with false;
    [rewrite andb_false_r; reflexivity|].
  destruct pre; [symmetry; exact Hu|reflexivity].
Qed.

Lemma occurs_in_rstrip tok s :
  all_chars (fun c => negb (is_space c)) tok = true -> is_empty tok = false ->
  occurs_in tok s -> occurs_in tok (rstrip s).
Proof.
  intros Ht Hne (pre & post & ->).
  exists pre, (rstrip post).
  rewrite rstrip_after; rewrite (rstrip_solid _ _ Ht); [reflexivity|].
  destruct tok; [discriminate|reflexivity].
Qed.

Lemma occurs_in_lstrip tok s :
  all_chars (fun c => negb (is_space c)) tok = true -> is_empty tok = false ->
  occurs_in tok s -> occurs_in tok (lstrip s).
Proof.
  intros Ht Hne (pre & post & ->). induction pre as [|x pre IH].
  - exists "", post. destruct tok as [|c tok]; [discriminate|].
    cbn [all_chars] in Ht. apply andb_true_iff in Ht as [Hc _].
    apply negb_true_iff in Hc.
    change ("" ++ String c tok ++ post) with (String c (tok ++ post)).
    cbn [lstrip]. rewrite Hc. reflexivity.
  - rewrite append_cons. cbn [lstrip].
    destruct (is_space x); [exact IH|].
    exists (String x pre), post. reflexivity.
Qed.

Lemma occurs_in_strip tok s :
  all_chars (fun c => negb (is_space c)) tok = true -> is_empty tok = false ->
  occurs_in tok s -> occurs_in tok (strip s).
Proof.
  intros Ht Hne H. unfold strip.
  apply occurs_in_rstrip, occurs_in_lstrip; assumption.
Qed.

Lemma bleeding_tokens_solid tok :
  In tok bleeding_tokens ->
  all_chars (fun c => negb (is_space c)) tok = true /\ is_empty tok = false.
Proof.
  cbn. intros [<-|[<-|[<-|[<-|[<-|[<-|[]]]]]]]; split; reflexivity.
Qed.

Lemma mentions_token_found s :
  mentions_token s -> has_bleeding_token (lower (strip s)) = true.
Proof.
  intros (tok & Hin & Ho). unfold has_bleeding_token.
  apply existsb_exists. exists tok. split; [exact Hin|].
  apply occurs_in_contains. rewrite lower_strip.
  destruct (bleeding_tokens_solid _ Hin) as [H1 H2].
  apply occurs_in_strip; assumption.
Qed.

Lemma starts_with_a_digit_test s :
  starts_with_a_digit s <-> starts_with_digit (lower s) = true.
Proof.
  unfold starts_with_a_digit. destruct s as [|c r]; cbn [lower starts_with_digit].
  - split; [intros (c & r & [=] & _)|discriminate].
  - rewrite lower_char_digit. split.
    + intros (c' & r' & [= <- <-] & H). exact H.
    + intros H. eauto.
Qed.

(** The specification's condition is the one the code tests, on the
    stripped text. *)
Lemma bleeding_edge_words s :
  mentions_token s -> ~ starts_with_a_digit (strip s) ->
  is_bleeding_edge s = true.
Proof.
  intros Hm Hd. unfold is_bleeding_edge.
  rewrite (mentions_token_found _ Hm). cbn [andb].
  apply negb_true_iff. apply not_true_is_false.
  intros H. apply Hd, starts_with_a_digit_test, H.
Qed.

(** The digit groups of a match are not longer than the text. *)
Lemma span_length f s a b :
  span f s = (a, b) -> String.length a + String.length b = String.length s.
Proof.
  revert a b. induction s as [|c s IH]; intros a b; cbn [span].
  - intros [= <- <-]. reflexivity.
  - destruct (f c).
    + destruct (span f s) as [a' b']. intros [= <- <-]. cbn.
      rewrite (IH a' b' eq_refl). reflexivity.
    + intros [= <- <-]. reflexivity.
Qed.

Lemma lstrip_length s : String.length (lstrip s) <= String.length s.
Proof.
  induction s as [|c s IH]; [reflexivity|]. cbn [lstrip].
  destruct (is_space c); cbn; lia.
Qed.

Lemma rstrip_length s : String.length (rstrip s) <= String.length s.
Proof.
  induction s as [|c s IH]; [reflexivity|]. cbn [rstrip].
  destruct (is_space c && is_empty (rstrip s)); cbn; lia.
Qed.

Lemma strip_length s : String.length (strip s) <= String.length s.
Proof.
  unfold strip. pose proof (rstrip_length (lstrip s)).
  pose proof (lstrip_length s). lia.
Qed.

Lemma match_dot_digits_length r g r' :
  match_dot_digits r = (g, r') ->
  String.length r' <= String.length r
  /\ forall d, g = Some d -> String.length d <= String.length r.
Proof.
  unfold match_dot_digits.
  destruct r as [|c r0]; [intros [= <- <-]; split; [lia|discriminate]|].
  destruct (Ascii.eqb_spec c "."%char) as [->|Hne].
  - destruct (span is_digit r0) as [d r''] eqn:E.
    pose proof (span_length _ _ _ _ E) as HL.
    destruct d as [|d0 d1]; [intros [= <- <-]; split; [lia|discriminate]|].
    intros [= <- <-]. cbn [String.length] in *.
    split; [lia|]. intros d [= <-]. cbn. lia.
  - destruct c as [[] [] [] [] [] [] [] []];
      try (intros [= <- <-]; split; [lia|discriminate]).
    contradiction.
Qed.

Lemma match_version_length u g1 g2 g3 g4 :
  match_version u = Some (g1, g2, g3, g4) ->
  String.length g1 <= String.length u
  /\ (forall d, g2 = Some d -> String.length d <= String.length u)
  /\ (forall d, g3 = Some d -> String.length d <= String.length u).
Proof.
  unfold match_version.
  destruct (span is_digit (lstrip u)) as [d r1] eqn:E1.
  pose proof (span_length _ _ _ _ E1) as H1.
  pose proof (lstrip_length u) as H0.
  destruct d as [|d0 d1]; [discriminate|].
  destruct (match_dot_digits r1) as [h2 r2] eqn:E2.
  destruct (match_dot_digits_length _ _ _ E2) as [L2 D2].
  destruct (match h2 with Some _ => match_dot_digits r2 | None => (None, r2) end)
    as [h3 r3] eqn:E3.
  destruct (match_dot_star_end r3); [|discriminate].
  intros [= <- <- <- <-]. split; [lia|]. split.
  - intros d Hd. specialize (D2 d Hd). lia.
  - intros d ->. destruct h2; [|discriminate].
    destruct (match_dot_digits_length _ _ _ E3) as [_ D3].
    specialize (D3 d eq_refl). lia.
Qed.

Lemma int_of_digits_short d :
  String.length d <= int_max_str_digits ->
  int_of_digits d = Some (digits_value d).
Proof.
  intros H. unfold int_of_digits.
  destruct (Nat.leb_spec (String.length d) int_max_str_digits);
    [reflexivity|lia].
Qed.

(** The three calls of [int] succeed on a text of at most 4300
    characters: such a text has a key. *)
Lemma parse_semver_key_returns t :
  String.length t <= int_max_str_digits ->
  exists k, parse_semver_key (Some t) = Some k.
Proof.
  intros Hlen. destruct t as [|c0 t0]; [eexists; reflexivity|].
  unfold parse_semver_key.
  destruct (has_bleeding_token _ && _); [eexists; reflexivity|].
  pose proof (strip_length (String c0 t0)) as Hs.
  destruct (match_version (strip (String c0 t0)))
    as [[[[g1 g2] g3] g4]|] eqn:E; [|eexists; reflexivity].
  destruct (match_version_length _ _ _ _ _ E) as (L1 & L2 & L3).
  rewrite (int_of_digits_short g1) by lia.
  assert (H2 : exists b, int_of_group g2 = Some b).
  { destruct g2 as [d|]; cbn [int_of_group]; [|eauto].
    specialize (L2 d eq_refl). rewrite int_of_digits_short by lia. eauto. }
  assert (H3 : exists c, int_of_group g3 = Some c).
  { destruct g3 as [d|]; cbn [int_of_group]; [|eauto].
    specialize (L3 d eq_refl). rewrite int_of_digits_short by lia. eauto. }
  destruct H2 as [b ->]. destruct H3 as [c ->]. eexists. reflexivity.
Qed.

(** A text of at most 4300 characters whose stripped form starts with a
    digit has a key, made of three numbers and a tweak of 0 or 1. *)
Lemma parse_semver_key_numbered t :
  starts_with_digit (lower (strip t)) = true ->
  String.length t <= int_max_str_digits ->
  exists a b c tw rest,
    parse_semver_key (Some t) = Some (a, b, c, tw, rest)
    /\ (tw = 0 \/ tw = 1)%Z.
Proof.
  intros Hd Hlen. destruct t as [|c0 t0]; [discriminate|].
  unfold parse_semver_key. rewrite Hd, andb_false_r.
  pose proof (strip_length (String c0 t0)) as Hs.
  destruct (match_version (strip (String c0 t0)))
    as [[[[g1 g2] g3] g4]|] eqn:E; [|do 5 eexists; split; [reflexivity|auto]].
  destruct (match_version_length _ _ _ _ _ E) as (L1 & L2 & L3).
  rewrite (int_of_digits_short g1) by lia.
  assert (H2 : exists b, int_of_group g2 = Some b).
  { destruct g2 as [d|]; cbn [int_of_group]; [|eauto].
    specialize (L2 d eq_refl). rewrite int_of_digits_short by lia. eauto. }
  assert (H3 : exists c, int_of_group g3 = Some c).
  { destruct g3 as [d|]; cbn [int_of_group]; [|eauto].
    specialize (L3 d eq_refl). rewrite int_of_digits_short by lia. eauto. }
  destruct H2 as [b ->]. destruct H3 as [c ->].
  do 5 eexists. split; [reflexivity|]. destruct (_ || _); auto.
Qed.

(** C3, amended.  Under the key, "14.2.0" > "14.1.0" > "9.0" and
    "trunk" and "nightly" are above "99.0.0".  A text that contains one
    of the tokens trunk, head, git, snapshot, nightly, tip (in any letter
    case) and that, once the blanks around it are stripped, does not
    start with a digit gets the key (9999, 9999, 9999, 9999, text).  A
    numbered release, a text of at most 4300 characters that starts with
    a digit once stripped, has a key too, and the tagged text is strictly
    newer exactly when the release's (major, minor, patch) is at most
    (9999, 9999, 9999); in particular it is newer than every release
    whose major is below 9999. *)
Theorem parse_semver_key_bleeding_edge_order (s t : string) :
  is_ascii s = true -> is_ascii t = true ->
  mentions_token s -> ~ starts_with_a_digit (strip s) ->
  starts_with_a_digit (strip t) ->
  String.length t <= int_max_str_digits ->
  parse_semver_key (Some s)
  = Some (9999, 9999, 9999, 9999, lower (strip s))%Z
  /\ (exists kt,
        parse_semver_key (Some t) = Some kt
        /\ (key_lt kt (9999, 9999, 9999, 9999, lower (strip s))%Z = true
            <-> triple_within_sentinel kt))
  /\ sorts_below (Some "14.1.0") (Some "14.2.0") = true
  /\ sorts_below (Some "9.0") (Some "14.1.0") = true
  /\ sorts_below (Some "99.0.0") (Some "trunk") = true
  /\ sorts_below (Some "99.0.0") (Some "nightly") = true.
Proof.
  intros _ _ Hm Hd Ht Hlen.
  split; [apply parse_semver_key_bleeding, bleeding_edge_words; assumption|].
  split; [|repeat split; vm_compute; reflexivity].
  apply starts_with_a_digit_test in Ht.
  destruct (parse_semver_key_numbered _ Ht Hlen)
    as (a & b & c & tw & rest & E & Htw).
  eexists. split; [exact E|]. apply key_lt_sentinel. exact Htw.
Qed.

Lemma parse_semver_key_bleeding_edge_order_witness :
  parse_semver_key (Some "GCC (Trunk)")
  = Some (9999, 9999, 9999, 9999, lower (strip "GCC (Trunk)"))%Z
  /\ (exists kt,
        parse_semver_key (Some "13.2.0") = Some kt
        /\ (key_lt kt (9999, 9999, 9999, 9999, lower (strip "GCC (Trunk)"))%Z
            = true
            <-> triple_within_sentinel kt)).
Proof.
  refine (let H := parse_semver_key_bleeding_edge_order "GCC (Trunk)" "13.2.0"
                     eq_refl eq_refl _ _ _ _ in
          conj (proj1 H) (proj1 (proj2 H))).
  - exists "trunk". split; [left; reflexivity|].
    exists "gcc (", ")". reflexivity.
  - intros (c & r & E & H). vm_compute in E. injection E as <- <-.
    vm_compute in H. discriminate H.
  - exists "1"%char, "3.2.0". split; reflexivity.
  - apply Nat.leb_le. reflexivity.
Defined.

(** C3 as stated fails: "trunk" contains a token and does not start
    with a digit, and "10000.0.0" is a numbered release, yet "trunk" is
    not newer. *)
Lemma parse_semver_key_trunk_below_10000 :
  ~ (forall s t,
       is_ascii s = true -> is_ascii t = true ->
       mentions_token s -> ~ starts_with_a_digit s ->
       starts_with_a_digit t ->
       sorts_below (Some t) (Some s) = true).
Proof.
  intros H.
  assert (E : sorts_below (Some "10000.0.0") (Some "trunk") = true).
  { apply H; try reflexivity.
    - exists "trunk". split; [left; reflexivity|]. exists "", "". reflexivity.
    - intros (c & r & E & Hc). injection E as <- <-. discriminate Hc.
    - exists "1"%char, "0000.0.0". split; reflexivity. }
  vm_compute in E. discriminate E.
Qed.

(** The two keys of the counterexample. *)
Example parse_semver_key_trunk_and_10000 :
  parse_semver_key (Some "10000.0.0") = Some (10000, 0, 0, 0, "")%Z
  /\ parse_semver_key (Some "trunk")
     = Some (9999, 9999, 9999, 9999, "trunk")%Z
  /\ key_lt (10000, 0, 0, 0, "")%Z (9999, 9999, 9999, 9999, "trunk")%Z
     = false.
Proof. repeat split; vm_compute; reflexivity. Qed.

(** The leading digit is looked for after the blanks are stripped: the
    text " 1trunk" contains a token and starts with a blank, and is read
    as release 1 with the rest "trunk". *)
Example parse_semver_key_blank_then_digit :
  parse_semver_key (Some " 1trunk") = Some (1, 0, 0, 1, "trunk")%Z.
Proof. vm_compute. reflexivity. Qed.

(** *** Further properties of the key *)

Lemma rstrip_idem s : rstrip (rstrip s) = rstrip s.
Proof.
  induction s as [|c r IH]; [reflexivity|]. cbn [rstrip].
  destruct (is_space c) eqn:Hc; cbn [andb].
  - destruct (rstrip r) as [|c' r'] eqn:Er; cbn [is_empty]; [reflexivity|].
    cbn [rstrip]. rewrite Hc. cbn [andb]. cbn [rstrip] in IH. rewrite IH.
    reflexivity.
  - cbn [rstrip]. rewrite Hc, IH. reflexivity.
Qed.

Lemma strip_idem s : strip (strip s) = strip s.
Proof.
  unfold strip at 1. rewrite lstrip_strip. unfold strip. apply rstrip_idem.
Qed.

(** Blanks around a version text do not matter: the text and its
    stripped form get the same key. *)
Theorem parse_semver_key_strip (s : string) :
  parse_semver_key (Some s) = parse_semver_key (Some (strip s)).
Proof.
  destruct s as [|c r]; [reflexivity|].
  destruct (strip (String c r)) as [|c' r'] eqn:E.
  - unfold parse_semver_key. rewrite E. reflexivity.
  - rewrite <- E. unfold parse_semver_key. rewrite E, <- E, strip_idem.
    reflexivity.
Qed.

Lemma append_empty_r (s : string) : s ++ "" = s.
Proof.
  induction s as [|c r IH]; [reflexivity|]. rewrite append_cons, IH.
  reflexivity.
Qed.

Lemma all_chars_app f a b :
  all_chars f (a ++ b) = all_chars f a && all_chars f b.
Proof.
  induction a as [|c r IH]; [reflexivity|].
  rewrite append_cons. cbn [all_chars]. rewrite IH. apply andb_assoc.
Qed.

Lemma all_chars_impl (f g : ascii -> bool) s :
  (forall c, f c = true -> g c = true) ->
  all_chars f s = true -> all_chars g s = true.
Proof.
  intros Hfg. induction s as [|c r IH]; [reflexivity|]. cbn.
  intros [Hc Hr]%andb_true_iff. rewrite (Hfg _ Hc), (IH Hr). reflexivity.
Qed.

Lemma digit_not_space c : is_digit c = true -> negb (is_space c) = true.
Proof.
  unfold is_digit, is_space. intros H.
  apply andb_true_iff in H as [H1 H2].
  apply Nat.leb_le in H1. apply Nat.leb_le in H2.
  apply negb_true_iff, orb_false_iff. split; apply andb_false_iff.
  - right. apply Nat.leb_gt. lia.
  - right. apply Nat.leb_gt. lia.
Qed.

Lemma rstrip_no_blank s :
  all_chars (fun c => negb (is_space c)) s = true -> rstrip s = s.
Proof.
  induction s as [|c r IH]; [reflexivity|]. cbn.
  intros [Hc Hr]%andb_true_iff. apply negb_true_iff in Hc.
  rewrite Hc, (IH Hr). reflexivity.
Qed.

Lemma lstrip_no_blank s :
  all_chars (fun c => negb (is_space c)) s = true -> lstrip s = s.
Proof.
  destruct s as [|c r]; [reflexivity|]. cbn.
  intros [Hc _]%andb_true_iff. apply negb_true_iff in Hc.
  rewrite Hc. reflexivity.
Qed.

Lemma strip_no_blank s :
  all_chars (fun c => negb (is_space c)) s = true -> strip s = s.
Proof.
  intros H. unfold strip. rewrite (lstrip_no_blank _ H).
  apply rstrip_no_blank, H.
Qed.

(** The digits of a run are read off as one group when what follows does
    not start with a digit. *)
Lemma span_digits_app d r :
  all_chars is_digit d = true -> starts_with_digit r = false ->
  span is_digit (d ++ r) = (d, r).
Proof.
  intros Hd Hr. induction d as [|c d IH].
  - change ("" ++ r) with r.
    destruct r as [|c r]; [reflexivity|]. cbn in Hr. cbn. rewrite Hr.
    reflexivity.
  - cbn in Hd. apply andb_true_iff in Hd as [Hc Hd].
    rewrite append_cons. cbn [span]. rewrite Hc, (IH Hd). reflexivity.
Qed.

Lemma match_dot_digits_app d r :
  all_chars is_digit d = true -> is_empty d = false ->
  starts_with_digit r = false ->
  match_dot_digits ("." ++ d ++ r) = (Some d, r).
Proof.
  intros Hd Hne Hr. rewrite append_cons. change ("" ++ (d ++ r)) with (d ++ r).
  unfold match_dot_digits. rewrite (span_digits_app _ _ Hd Hr).
  destruct d; [discriminate|reflexivity].
Qed.

Lemma digits_head M r :
  all_chars is_digit M = true -> is_empty M = false ->
  exists c r', (M ++ r) = String c r' /\ is_digit c = true.
Proof.
  destruct M as [|c M]; [discriminate|]. cbn [all_chars].
  intros [Hc _]%andb_true_iff _. rewrite append_cons. eauto.
Qed.

(** A text that starts with a digit run [M], followed by a blank-free
    tail that the two optional groups consume entirely. *)
Lemma parse_semver_key_digits M tail g2 g3 :
  all_chars is_digit M = true -> is_empty M = false ->
  all_chars (fun c => negb (is_space c)) tail = true ->
  starts_with_digit tail = false ->
  (let '(h2, r2) := match_dot_digits tail in
   let '(h3, r3) := match h2 with
                    | Some _ => match_dot_digits r2
                    | None => (None, r2)
                    end in
   (h2, h3, r3)) = (g2, g3, "") ->
  parse_semver_key (Some (M ++ tail))
  = match int_of_digits M, int_of_group g2, int_of_group g3 with
    | Some a, Some b, Some c => Some (a, b, c, 0%Z, "")
    | _, _, _ => None
    end.
Proof.
  intros HM Hne Ht Hs Htail.
  assert (Hnb : all_chars (fun c => negb (is_space c)) (M ++ tail) = true).
  { rewrite all_chars_app, Ht, andb_true_r.
    eapply all_chars_impl; [|exact HM]. apply digit_not_space. }
  destruct (digits_head M tail HM Hne) as (c & r' & E & Hc).
  unfold parse_semver_key. rewrite (strip_no_blank _ Hnb). rewrite E.
  replace (starts_with_digit (lower (String c r'))) with true
    by (cbn; rewrite (lower_digit _ Hc), Hc; reflexivity).
  rewrite andb_false_r. rewrite <- E. unfold match_version.
  rewrite (lstrip_no_blank _ Hnb), (span_digits_app _ _ HM Hs).
  destruct M as [|m0 M']; [discriminate|].
  destruct (match_dot_digits tail) as [h2 r2].
  destruct (match h2 with Some _ => match_dot_digits r2 | None => (None, r2) end)
    as [h3 r3].
  injection Htail as -> -> ->.
  change (match_dot_star_end "") with (Some ""). cbv iota.
  destruct (int_of_digits (String m0 M')); [|reflexivity].
  destruct (int_of_group g2); [|reflexivity].
  destruct (int_of_group g3); reflexivity.
Qed.

Lemma is_number_parts s :
  is_number s = true -> all_chars is_digit s = true /\ is_empty s = false.
Proof.
  unfold is_number. intros [H1 H2]%andb_true_iff.
  apply negb_true_iff in H1. auto.
Qed.

Lemma dot_not_blank : all_chars (fun c => negb (is_space c)) "." = true.
Proof. reflexivity. Qed.

Lemma number_not_blank s :
  is_number s = true -> all_chars (fun c => negb (is_space c)) s = true.
Proof.
  intros [H _]%is_number_parts. eapply all_chars_impl; [|exact H].
  apply digit_not_space.
Qed.

(** X1.  A plain dotted version is read numerically: for non-empty runs
    of digits [M], [m] and [p], each of at most 4300 digits (the limit
    of [int]), the texts M, M.m and M.m.p get the keys
    (int M, 0, 0, 0, ""), (int M, int m, 0, 0, "") and
    (int M, int m, int p, 0, ""); a missing minor or patch counts as 0. *)
Theorem parse_semver_key_dotted (M m p : string) :
  is_number M = true -> is_number m = true -> is_number p = true ->
  String.length M <= int_max_str_digits ->
  String.length m <= int_max_str_digits ->
  String.length p <= int_max_str_digits ->
  parse_semver_key (Some M) = Some (digits_value M, 0, 0, 0, "")%Z
  /\ parse_semver_key (Some (M ++ "." ++ m))
     = Some (digits_value M, digits_value m, 0, 0, "")%Z
  /\ parse_semver_key (Some (M ++ "." ++ m ++ "." ++ p))
     = Some (digits_value M, digits_value m, digits_value p, 0, "")%Z.
Proof.
  intros HM Hm Hp LM Lm Lp.
  destruct (is_number_parts _ HM) as [HM1 HM2].
  destruct (is_number_parts _ Hm) as [Hm1 Hm2].
  destruct (is_number_parts _ Hp) as [Hp1 Hp2].
  split; [|split].
  - rewrite <- (append_empty_r M) at 1.
    rewrite (parse_semver_key_digits M "" None None) by auto.
    cbn [int_of_group]. rewrite (int_of_digits_short M) by exact LM.
    reflexivity.
  - rewrite (parse_semver_key_digits M ("." ++ m) (Some m) None); auto.
    + cbn [int_of_group].
      rewrite (int_of_digits_short M), (int_of_digits_short m) by assumption.
      reflexivity.
    + rewrite all_chars_app, (number_not_blank _ Hm). reflexivity.
    + rewrite <- (append_empty_r m) at 1.
      rewrite (match_dot_digits_app m ""); auto.
  - rewrite (parse_semver_key_digits M ("." ++ m ++ "." ++ p) (Some m) (Some p));
      auto.
    + cbn [int_of_group].
      rewrite (int_of_digits_short M), (int_of_digits_short m),
        (int_of_digits_short p) by assumption.
      reflexivity.
    + rewrite !all_chars_app, (number_not_blank _ Hm), (number_not_blank _ Hp).
      reflexivity.
    + rewrite (match_dot_digits_app m ("." ++ p)); auto.
      rewrite <- (append_empty_r p) at 1.
      rewrite (match_dot_digits_app p ""); auto.
Qed.

Lemma parse_semver_key_dotted_witness :
  parse_semver_key (Some "14")%string = Some (14, 0, 0, 0, "")%Z
  /\ parse_semver_key (Some "14.1") = Some (14, 1, 0, 0, "")%Z
  /\ parse_semver_key (Some "14.1.0") = Some (14, 1, 0, 0, "")%Z.
Proof.
  apply (parse_semver_key_dotted "14" "1" "0"); try reflexivity;
    apply Nat.leb_le; reflexivity.
Defined.

Lemma span_digits_all s d r :
  span is_digit s = (d, r) -> all_chars is_digit d = true.
Proof.
  revert d r. induction s as [|c s IH]; intros d r; cbn.
  - intros [= <- <-]. reflexivity.
  - destruct (is_digit c) eqn:Hc.
    + destruct (span is_digit s) as [a b]. intros [= <- <-]. cbn.
      rewrite Hc. apply (IH a b). reflexivity.
    + intros [= <- <-]. reflexivity.
Qed.

Lemma digit_val_nonneg c : is_digit c = true -> (0 <= digit_val c)%Z.
Proof.
  unfold is_digit, digit_val. intros [H _]%andb_true_iff.
  apply Nat.leb_le in H. lia.
Qed.

Lemma int_of_digits_from_nonneg d acc :
  all_chars is_digit d = true -> (0 <= acc)%Z ->
  (0 <= int_of_digits_from acc d)%Z.
Proof.
  revert acc. induction d as [|c d IH]; intros acc; cbn; [auto|].
  intros [Hc Hd]%andb_true_iff Ha. apply IH; [exact Hd|].
  pose proof (digit_val_nonneg _ Hc). lia.
Qed.

Lemma int_of_digits_nonneg d z :
  all_chars is_digit d = true -> int_of_digits d = Some z -> (0 <= z)%Z.
Proof.
  unfold int_of_digits. intros Hd.
  destruct (_ <=? _)%nat; [|discriminate]. intros [= <-].
  apply int_of_digits_from_nonneg; [exact Hd|lia].
Qed.

Lemma match_dot_digits_nonneg r g r' z :
  match_dot_digits r = (g, r') -> int_of_group g = Some z -> (0 <= z)%Z.
Proof.
  unfold match_dot_digits.
  destruct r as [|c r0]; [intros [= <- <-] [= <-]; lia|].
  destruct (Ascii.eqb_spec c "."%char) as [->|Hne].
  - destruct (span is_digit r0) as [d r''] eqn:E.
    destruct d as [|d0 d1]; [intros [= <- <-] [= <-]; lia|].
    intros [= <- <-]. cbn [int_of_group].
    apply int_of_digits_nonneg. eapply span_digits_all, E.
  - destruct c as [[] [] [] [] [] [] [] []];
      try (intros [= <- <-] [= <-]; lia).
    contradiction.
Qed.

Lemma compare_empty_r r : String.compare r "" <> Lt.
Proof. destruct r; discriminate. Qed.

Lemma key_lt_zero a b c tw rest :
  (0 <= a)%Z -> (0 <= b)%Z -> (0 <= c)%Z -> (0 <= tw)%Z ->
  key_lt (a, b, c, tw, rest) (0, 0, 0, 0, "")%Z = false.
Proof.
  intros Ha Hb Hc Ht. unfold key_lt, key_compare.
  destruct (Z.compare_spec a 0); [|lia|reflexivity].
  destruct (Z.compare_spec b 0); [|lia|reflexivity].
  destruct (Z.compare_spec c 0); [|lia|reflexivity].
  destruct (Z.compare_spec tw 0); [|lia|reflexivity].
  pose proof (compare_empty_r rest). destruct (String.compare rest ""); congruence.
Qed.

Lemma parse_semver_key_not_below_zero (s : option string) (k : SemverKey) :
  parse_semver_key s = Some k -> key_lt k (0, 0, 0, 0, "")%Z = false.
Proof.
  intros E.
  destruct s as [[|c0 s0]|];
    [injection E as <-; reflexivity| |injection E as <-; reflexivity].
  unfold parse_semver_key in E.
  destruct (has_bleeding_token _ && _); [injection E as <-; reflexivity|].
  destruct (match_version (strip (String c0 s0)))
    as [[[[g1 g2] g3] g4]|] eqn:Em;
    [|injection E as <-; apply key_lt_zero; lia].
  destruct (int_of_digits g1) as [a|] eqn:Ea; [|discriminate].
  destruct (int_of_group g2) as [b|] eqn:Eb; [|discriminate].
  destruct (int_of_group g3) as [c|] eqn:Ec; [|discriminate].
  injection E as <-.
  unfold match_version in Em.
  destruct (span is_digit (lstrip (strip (String c0 s0)))) as [d r1] eqn:E1.
  destruct d as [|d0 d1]; [discriminate|].
  destruct (match_dot_digits r1) as [h2 r2] eqn:E2.
  destruct (match h2 with Some _ => match_dot_digits r2 | None => (None, r2) end)
    as [h3 r3] eqn:E3.
  destruct (match_dot_star_end r3); [|discriminate].
  injection Em as <- <- <- <-.
  apply key_lt_zero.
  - eapply int_of_digits_nonneg; [eapply span_digits_all, E1|exact Ea].
  - eapply match_dot_digits_nonneg; [exact E2|exact Eb].
  - destruct h2; [eapply match_dot_digits_nonneg; [exact E3|exact Ec]|].
    injection E3 as <- <-. injection Ec as <-. lia.
  - destruct (_ || _); lia.
Qed.

(** X2.  No version sorts strictly below a missing one: the key of
    [None] is (0, 0, 0, 0, ""), and the key of any text is not below it;
    a text has no key only when [int] raises, which takes a text of
    more than 4300 characters. *)
Theorem parse_semver_key_missing_lowest (s : option string) :
  parse_semver_key None = Some (0, 0, 0, 0, "")%Z
  /\ sorts_below s None = false
  /\ match parse_semver_key s with
     | Some k => key_lt k (0, 0, 0, 0, "")%Z = false
     | None => exists t, s = Some t /\ int_max_str_digits < String.length t
     end.
Proof.
  split; [reflexivity|].
  unfold sorts_below.
  change (parse_semver_key None) with (Some (0, 0, 0, 0, "")%Z).
  destruct (parse_semver_key s) as [k|] eqn:E.
  - rewrite (parse_semver_key_not_below_zero _ _ E). auto.
  - split; [reflexivity|].
    destruct s as [t|]; [|discriminate]. exists t. split; [reflexivity|].
    destruct (Nat.le_gt_cases (String.length t) int_max_str_digits)
      as [Hle|Hgt]; [|exact Hgt].
    destruct (parse_semver_key_returns t Hle) as [k Hk]. congruence.
Qed.

End SemverKeyFacts.

(** ** Library rules ([_effective_libraries_for_compiler]) *)

Section LibraryRuleFacts.
Import PyStr Prefs.

(** Rules that do not apply are skipped: the loop is a fold of
    [apply_rule] over the applicable rules, in list order. *)
Lemma fold_step_filter fam cid rules acc :
  fold_left (step fam cid) rules acc
  = fold_left (fun a r => apply_rule r a)
              (filter (fun r => rule_applies fam cid r = true) rules) acc.
Proof.
  revert acc. induction rules as [|r rules IH]; intros acc; [reflexivity|].
  rewrite filter_cons. simpl. unfold step at 2.
  destruct (decide (rule_applies fam cid r = true)) as [E|E].
  - rewrite E. simpl. apply IH.
  - apply not_true_is_false in E. rewrite E. apply IH.
Qed.

Local Abbreviation P_all :=
  (fun r : LibraryRule => String.eqb (scope r) "all" = true).
Local Abbreviation P_family fam :=
  (fun r : LibraryRule =>
     (String.eqb (scope r) "family" && String.eqb (target r) fam) = true).
Local Abbreviation P_compiler cid :=
  (fun r : LibraryRule =>
     (String.eqb (scope r) "compiler" && String.eqb (target r) cid) = true).

Lemma classify_rule fam cid r : rule_class fam cid r.
Proof.
  destruct (String.eqb (scope r) "all") eqn:Ea;
    [|destruct (String.eqb (scope r) "family") eqn:Ef;
      [|destruct (String.eqb (scope r) "compiler") eqn:Ec]];
    try (apply String.eqb_eq in Ea as Ea');
    try (apply String.eqb_eq in Ef as Ef');
    try (apply String.eqb_eq in Ec as Ec').
  - apply class_all;
      unfold rule_applies, scope_rank;
      rewrite ?Ea'; simpl; congruence.
  - destruct (String.eqb (target r) fam) eqn:Et;
      [apply class_family|apply class_none];
      unfold rule_applies, scope_rank;
      rewrite ?Ea, ?Ef, ?Et, ?Ef'; simpl; congruence.
  - destruct (String.eqb (target r) cid) eqn:Et;
      [apply class_compiler|apply class_none];
      unfold rule_applies, scope_rank;
      rewrite ?Ea, ?Ef, ?Ec, ?Et; simpl; congruence.
  - apply class_none;
      unfold rule_applies, scope_rank;
      rewrite ?Ea, ?Ef, ?Ec; simpl; congruence.
Qed.

(** When the applicable rules ascend in rank, listing them scope by
    scope lists them as they stand. *)
Lemma ordered_rules_sequence fam cid rules prev :
  ranks_ascend prev
    (filter (fun r => rule_applies fam cid r = true) rules) = true ->
  filter (fun r => rule_applies fam cid r = true) rules
  = (filter (P_all) rules ++ filter (P_family fam) rules
     ++ filter (P_compiler cid) rules)%list
  /\ (1 <= prev -> filter P_all rules = [])
  /\ (2 <= prev -> filter (P_family fam) rules = []).
Proof.
  revert prev. induction rules as [|r rules IH]; intros prev H.
  - repeat split; reflexivity.
  - rewrite !filter_cons in *. cbv beta in *.
    destruct (classify_rule fam cid r) as [A F C Ap Rk|A F C Ap Rk|A F C Ap Rk|A F C Ap].
    + rewrite !decide_True in * by assumption.
      rewrite !decide_False by assumption.
      simpl in H. rewrite Rk in H. apply andb_true_iff in H as [Hp H].
      apply Nat.leb_le in Hp.
      destruct (IH _ H) as (E & _ & _). rewrite E.
      repeat split; try reflexivity; intros; lia.
    + rewrite (decide_True _ _ Ap) in *. rewrite (decide_True _ _ F).
      rewrite (decide_False _ _ A), (decide_False _ _ C).
      simpl in H. rewrite Rk in H. apply andb_true_iff in H as [Hp H].
      apply Nat.leb_le in Hp.
      destruct (IH _ H) as (E & E0 & _). rewrite E, E0 by lia.
      repeat split; try reflexivity; intros; lia.
    + rewrite (decide_True _ _ Ap) in *. rewrite (decide_True _ _ C).
      rewrite (decide_False _ _ A), (decide_False _ _ F).
      simpl in H. rewrite Rk in H. apply andb_true_iff in H as [Hp H].
      apply Nat.leb_le in Hp.
      destruct (IH _ H) as (E & E0 & E1). rewrite E, E0, E1 by lia.
      repeat split; reflexivity.
    + assert (Hn : ~ rule_applies fam cid r = true) by congruence.
      rewrite (decide_False _ _ Hn) in *.
      rewrite (decide_False _ _ A), (decide_False _ _ F), (decide_False _ _ C).
      apply IH. exact H.
Qed.

Lemma spec_matches_applies fam cid r :
  spec_matches fam cid r = rule_applies fam cid r.
Proof.
  unfold spec_matches, rule_applies.
  destruct (String.eqb (scope r) "all"); [reflexivity|].
  destruct (String.eqb (scope r) "family" && String.eqb (target r) fam);
    [reflexivity|].
  destruct (String.eqb (scope r) "compiler" && String.eqb (target r) cid);
    reflexivity.
Qed.

Lemma fold_step_matching fam cid rules acc :
  fold_left (step fam cid) rules acc
  = fold_left (fun a r => apply_rule r a)
              (filter (fun r => spec_matches fam cid r = true) rules) acc.
Proof.
  revert acc. induction rules as [|r rules IH]; intros acc; [reflexivity|].
  rewrite filter_cons. cbn [fold_left]. unfold step at 2.
  rewrite <- spec_matches_applies.
  destruct (decide (spec_matches fam cid r = true)) as [E|E].
  - rewrite E. cbn [fold_left]. apply IH.
  - apply not_true_is_false in E. rewrite E. apply IH.
Qed.

Lemma first_seen_elem ids x : x ∈ first_seen ids <-> x ∈ ids.
Proof.
  induction ids as [|y l IH]; [reflexivity|]. cbn [first_seen].
  rewrite !elem_of_cons, <- IH. split.
  - intros [->|H]; [auto|]. apply list_elem_of_filter in H as [_ H]. auto.
  - intros [->|H]; [auto|]. destruct (decide (x = y)) as [->|Hn]; [auto|].
    right. apply list_elem_of_filter. auto.
Qed.

Lemma first_seen_snoc ids x :
  first_seen (ids ++ [x])
  = if bool_decide (x ∈ ids) then first_seen ids
    else (first_seen ids ++ [x])%list.
Proof.
  induction ids as [|y l IH]; [reflexivity|].
  cbn [app first_seen]. rewrite IH.
  destruct (bool_decide_reflect (x ∈ l)) as [Hl|Hl].
  - rewrite bool_decide_eq_true_2 by (right; exact Hl). reflexivity.
  - rewrite filter_app, filter_cons, filter_nil.
    destruct (decide (x = y)) as [->|Hn].
    + rewrite bool_decide_eq_true_2 by left.
      rewrite decide_False by tauto. rewrite app_nil_r. reflexivity.
    + rewrite bool_decide_eq_false_2
        by (intros [H|H]%elem_of_cons; [exact (Hn H)|exact (Hl H)]).
      rewrite decide_True by exact Hn. reflexivity.
Qed.

Lemma last_written_snoc lid es i v :
  last_written lid (es ++ [(i, v)])
  = if String.eqb i lid then Some v else last_written lid es.
Proof.
  unfold last_written. rewrite filter_app, filter_cons, filter_nil.
  cbn [fst]. destruct (String.eqb_spec i lid) as [->|Hn].
  - rewrite decide_True by reflexivity. rewrite last_snoc. reflexivity.
  - rewrite decide_False by exact Hn. rewrite app_nil_r. reflexivity.
Qed.

Lemma last_written_None lid es :
  last_written lid es = None <-> lid ∉ map fst es.
Proof.
  induction es as [|[i v] es IH] using rev_ind.
  - split; [intros _; apply not_elem_of_nil|reflexivity].
  - rewrite last_written_snoc, map_app, elem_of_app. cbn [map fst].
    rewrite list_elem_of_singleton.
    destruct (String.eqb_spec i lid) as [->|Hn].
    + split; [discriminate|tauto].
    + rewrite IH. split; [intros H [H1|H1]; [auto|congruence]|tauto].
Qed.

Lemma apply_rule_entry r acc :
  apply_rule r acc
  = match rule_entry r with
    | None => acc
    | Some (lid, ver) =>
        (<[lid := ver]> acc.1,
         match acc.1 !! lid with
         | None => (acc.2 ++ [lid])%list
         | Some _ => acc.2
         end)
    end.
Proof.
  unfold apply_rule, rule_entry,
    _normalize_ce_library_id, _normalize_ce_library_version.
  destruct (is_empty (strip (lib_id r)) || is_empty (strip (version r)));
    [reflexivity|].
  destruct acc as [m order]. reflexivity.
Qed.

(** What the loop has in its two locals after a sequence of rules. *)
Lemma fold_apply_rule_spec sequence :
  let acc := fold_left (fun a r => apply_rule r a) sequence (∅, []) in
  acc.2 = first_seen (map fst (omap rule_entry sequence))
  /\ forall lid, acc.1 !! lid = last_written lid (omap rule_entry sequence).
Proof.
  induction sequence as [|r l IH] using rev_ind.
  - split; [reflexivity|]. intros lid. apply lookup_empty.
  - cbv zeta in *. rewrite fold_left_app. cbn [fold_left].
    destruct (fold_left _ l _) as [m order]. cbn [fst snd] in IH.
    destruct IH as [Ho Hm]. rewrite omap_app. cbn [omap list_omap].
    rewrite apply_rule_entry.
    destruct (rule_entry r) as [[lid ver]|]; [|rewrite app_nil_r; auto].
    cbn [fst snd]. rewrite map_app. cbn [map fst]. split.
    + rewrite first_seen_snoc, <- Ho.
      destruct (bool_decide_reflect (lid ∈ map fst (omap rule_entry l)))
        as [Hin|Hin].
      * destruct (m !! lid) eqn:E; [reflexivity|].
        rewrite Hm in E. apply last_written_None in E. contradiction.
      * apply last_written_None in Hin. rewrite <- Hm in Hin. rewrite Hin.
        reflexivity.
    + intros x. rewrite last_written_snoc.
      destruct (String.eqb_spec lid x) as [->|Hn].
      * apply lookup_insert_eq.
      * rewrite lookup_insert_ne by exact Hn. apply Hm.
Qed.

Lemma collect_spec_merge sequence :
  collect (fold_left (fun a r => apply_rule r a) sequence (∅, []))
  = spec_merge sequence.
Proof.
  pose proof (fold_apply_rule_spec sequence) as [Ho Hm]. cbv zeta in *.
  destruct (fold_left _ sequence _) as [m order]. cbn [fst snd] in *.
  unfold collect, spec_merge. rewrite <- Ho.
  clear Ho. induction order as [|x order IH]; [reflexivity|].
  cbn [omap list_omap]. rewrite Hm, IH. reflexivity.
Qed.

(** C5, amended.  For every rule list the result is the last-writer-wins
    merge of the rules that match the compiler, taken in the order of
    the list, deduplicated by library id in first-seen order.  When the
    matching rules stand in priority order in the list ("all" before
    "family" before "compiler") this is the merge in priority order; so
    it is for the three fmt rules, which give fmt 13.0 for g132 in gcc,
    fmt 11.0 for g100 in gcc and fmt 9.0 for a clang compiler. *)
Theorem effective_libraries_priority_merge
    (rules : list LibraryRule) (family compiler_id : string) :
  is_ascii family = true -> is_ascii compiler_id = true ->
  forallb rule_is_ascii rules = true ->
  _effective_libraries_for_compiler rules family compiler_id
  = spec_list_order_libraries rules family compiler_id
  /\ (priority_ordered family compiler_id rules = true ->
      _effective_libraries_for_compiler rules family compiler_id
      = spec_effective_libraries rules family compiler_id)
  /\ _effective_libraries_for_compiler fmt_rules "gcc" "g132"
     = [ {| l_id := "fmt"; l_version := "13.0" |} ]
  /\ _effective_libraries_for_compiler fmt_rules "gcc" "g100"
     = [ {| l_id := "fmt"; l_version := "11.0" |} ]
  /\ _effective_libraries_for_compiler fmt_rules "clang" "clang1701"
     = [ {| l_id := "fmt"; l_version := "9.0" |} ].
Proof.
  intros _ _ _.
  split.
  { unfold _effective_libraries_for_compiler, spec_list_order_libraries.
    rewrite fold_step_matching. apply collect_spec_merge. }
  split; [|repeat split; vm_compute; reflexivity].
  intros H.
  unfold _effective_libraries_for_compiler, spec_effective_libraries.
  rewrite fold_step_filter.
  unfold priority_ordered in H.
  destruct (ordered_rules_sequence _ _ _ _ H) as (E & _ & _).
  rewrite E. apply collect_spec_merge.
Qed.

Lemma effective_libraries_priority_merge_witness :
  priority_ordered "gcc" "g132" fmt_rules = true
  /\ _effective_libraries_for_compiler fmt_rules "gcc" "g132"
     = spec_list_order_libraries fmt_rules "gcc" "g132"
  /\ _effective_libraries_for_compiler fmt_rules "gcc" "g132"
     = spec_effective_libraries fmt_rules "gcc" "g132".
Proof.
  split; [reflexivity|].
  destruct (effective_libraries_priority_merge fmt_rules "gcc" "g132"
              eq_refl eq_refl eq_refl) as (H1 & H2 & _).
  split; [exact H1|exact (H2 eq_refl)].
Defined.

(** C5 as stated fails: with the compiler rule listed before the "all"
    rule, the loop lets the "all" rule win, the priority merge does not. *)
Lemma effective_libraries_list_order_wins :
  ~ (forall rules family compiler_id,
       is_ascii family = true -> is_ascii compiler_id = true ->
       forallb rule_is_ascii rules = true ->
       _effective_libraries_for_compiler rules family compiler_id
       = spec_effective_libraries rules family compiler_id).
Proof.
  intros H.
  specialize (H [ {| scope := "compiler"; target := "g132"; lib_id := "fmt";
                     version := "13.0" |};
                  {| scope := "all"; target := ""; lib_id := "fmt";
                     version := "9.0" |} ]
                "gcc" "g132" eq_refl eq_refl eq_refl).
  vm_compute in H. discriminate.
Qed.

(** *** Further properties of the merge *)

Lemma chosen_ok_empty : chosen_ok (∅, []).
Proof.
  split; [constructor|split].
  - intros lid. cbn. rewrite lookup_empty, elem_of_nil.
    split; [tauto|intros [? [=]]].
  - intros lid v. cbn. rewrite lookup_empty. discriminate.
Qed.

Lemma apply_rule_ok r acc : chosen_ok acc -> chosen_ok (apply_rule r acc).
Proof.
  intros (Hnd & Hin & Hne). unfold apply_rule.
  destruct (is_empty (_normalize_ce_library_id (lib_id r))) eqn:E1;
    [exact (conj Hnd (conj Hin Hne))|].
  destruct (is_empty (_normalize_ce_library_version (version r))) eqn:E2;
    [exact (conj Hnd (conj Hin Hne))|].
  cbn [orb]. destruct acc as [m order]. cbn [fst snd] in *.
  set (lid := _normalize_ce_library_id (lib_id r)) in *.
  set (ver := _normalize_ce_library_version (version r)) in *.
  split; [|split]; cbn [fst snd].
  - destruct (m !! lid) eqn:El; [exact Hnd|].
    apply NoDup_app. split; [exact Hnd|]. split; [|apply NoDup_singleton].
    intros x Hx ->%list_elem_of_singleton. apply Hin in Hx.
    rewrite El in Hx. destruct Hx as [? [=]].
  - intros x. destruct (decide (x = lid)) as [->|Hx].
    + rewrite lookup_insert_eq. split; [eauto|intros _].
      destruct (m !! lid) eqn:El.
      * apply Hin. rewrite El. eauto.
      * apply elem_of_app. right. apply list_elem_of_singleton. reflexivity.
    + rewrite lookup_insert_ne by congruence. rewrite <- Hin.
      destruct (m !! lid); [reflexivity|].
      rewrite elem_of_app, list_elem_of_singleton. tauto.
  - intros x v. destruct (decide (x = lid)) as [->|Hx].
    + rewrite lookup_insert_eq. intros [= <-]. auto.
    + rewrite lookup_insert_ne by congruence. apply Hne.
Qed.

Lemma fold_step_ok fam cid rules acc :
  chosen_ok acc -> chosen_ok (fold_left (step fam cid) rules acc).
Proof.
  revert acc. induction rules as [|r rules IH]; intros acc H; [exact H|].
  cbn [fold_left]. apply IH. unfold step.
  destruct (rule_applies fam cid r); [apply apply_rule_ok|]; exact H.
Qed.

Lemma collect_ids acc :
  chosen_ok acc -> map l_id (collect acc) = acc.2.
Proof.
  intros (_ & Hin & _). destruct acc as [m order]. cbn [fst snd] in *.
  unfold collect.
  assert (H : forall lid, lid ∈ order -> is_Some (m !! lid))
    by (intros lid; apply Hin).
  clear Hin. induction order as [|x order IH]; [reflexivity|].
  cbn [omap list_omap]. destruct (H x) as [v Ev]; [left|].
  rewrite Ev. cbn. f_equal. apply IH. intros lid Hl. apply H. right. exact Hl.
Qed.

Lemma elem_of_collect acc l :
  l ∈ collect acc <-> l_id l ∈ acc.2 /\ acc.1 !! l_id l = Some (l_version l).
Proof.
  destruct acc as [m order]. unfold collect. cbn [fst snd].
  rewrite list_elem_of_omap. split.
  - intros (lid & Hl & E). destruct (m !! lid) as [v|] eqn:Ev; [|discriminate].
    cbn in E. injection E as <-. cbn. auto.
  - intros [Hl E]. exists (l_id l). split; [exact Hl|]. rewrite E.
    destruct l. reflexivity.
Qed.

(** X3.  The effective libraries never name a library twice, and every
    entry has a non-empty id and a non-empty version. *)
Theorem effective_libraries_distinct_ids (rules : list LibraryRule)
    (family compiler_id : string) :
  NoDup (map l_id (_effective_libraries_for_compiler rules family compiler_id))
  /\ (forall l,
        l ∈ _effective_libraries_for_compiler rules family compiler_id ->
        is_empty (l_id l) = false /\ is_empty (l_version l) = false).
Proof.
  unfold _effective_libraries_for_compiler.
  pose proof (fold_step_ok (strip family) (strip compiler_id) rules _
                chosen_ok_empty) as H.
  split.
  - rewrite (collect_ids _ H). apply H.
  - intros l [_ E]%elem_of_collect. destruct H as (_ & _ & Hne).
    apply (Hne _ _ E).
Qed.

(** Rules that leave the entry of [lid] alone. *)
Lemma fold_step_keeps fam cid rules acc lid ver :
  acc.1 !! lid = Some ver -> lid ∈ acc.2 ->
  (forall r, r ∈ rules -> rule_applies fam cid r = true ->
             _normalize_ce_library_id (lib_id r) <> lid) ->
  (fold_left (step fam cid) rules acc).1 !! lid = Some ver
  /\ lid ∈ (fold_left (step fam cid) rules acc).2.
Proof.
  revert acc. induction rules as [|r rules IH]; intros acc Hm Ho Hr; [auto|].
  cbn [fold_left]. apply IH.
  - unfold step. destruct (rule_applies fam cid r) eqn:Ea; [|exact Hm].
    unfold apply_rule. destruct (_ || _); [exact Hm|].
    destruct acc as [m order]. cbn [fst snd] in *.
    rewrite lookup_insert_ne; [exact Hm|]. apply Hr; [left|exact Ea].
  - unfold step. destruct (rule_applies fam cid r) eqn:Ea; [|exact Ho].
    unfold apply_rule. destruct (_ || _); [exact Ho|].
    destruct acc as [m order]. cbn [fst snd] in *.
    destruct (m !! _normalize_ce_library_id (lib_id r)); [exact Ho|].
    apply elem_of_app. left. exact Ho.
  - intros r' Hr'. apply Hr. right. exact Hr'.
Qed.

(** X4.  The last applicable rule for a library decides its version: if
    rule [r] applies to the compiler, has a non-blank id and version,
    and no later applicable rule names the same library, then the
    library of [r] is in the result with the version of [r]. *)
Theorem effective_libraries_last_rule_wins (pre post : list LibraryRule)
    (r : LibraryRule) (family compiler_id : string) :
  rule_applies (strip family) (strip compiler_id) r = true ->
  is_empty (strip (lib_id r)) = false ->
  is_empty (strip (version r)) = false ->
  (forall r', r' ∈ post ->
     rule_applies (strip family) (strip compiler_id) r' = true ->
     strip (lib_id r') <> strip (lib_id r)) ->
  {| l_id := strip (lib_id r); l_version := strip (version r) |}
    ∈ _effective_libraries_for_compiler (pre ++ r :: post) family compiler_id.
Proof.
  intros Ha Hl Hv Hpost. unfold _effective_libraries_for_compiler.
  rewrite fold_left_app. cbn [fold_left].
  set (acc := fold_left _ pre _). apply elem_of_collect. cbn [l_id l_version].
  apply and_comm. apply fold_step_keeps; [| |exact Hpost].
  - unfold step. rewrite Ha. unfold apply_rule.
    unfold _normalize_ce_library_id, _normalize_ce_library_version.
    rewrite Hl, Hv. cbn [orb]. destruct acc as [m order]. cbn [fst].
    apply lookup_insert_eq.
  - unfold step. rewrite Ha. unfold apply_rule.
    unfold _normalize_ce_library_id, _normalize_ce_library_version.
    rewrite Hl, Hv. cbn [orb].
    pose proof (fold_step_ok (strip family) (strip compiler_id) pre _
                  chosen_ok_empty) as (_ & Hin & _).
    fold acc in Hin. destruct acc as [m order]. cbn [fst snd] in *.
    destruct (m !! strip (lib_id r)) eqn:E.
    + apply Hin. rewrite E. eauto.
    + apply elem_of_app. right. apply list_elem_of_singleton. reflexivity.
Qed.

(** A rule that does not apply to the compiler (another family,
    another compiler, or an unknown scope) has no effect, wherever it
    stands in the list. *)
Theorem effective_libraries_ignores_other_rules (pre post : list LibraryRule)
    (r : LibraryRule) (family compiler_id : string) :
  rule_applies (strip family) (strip compiler_id) r = false ->
  _effective_libraries_for_compiler (pre ++ r :: post) family compiler_id
  = _effective_libraries_for_compiler (pre ++ post) family compiler_id.
Proof.
  intros Ha. unfold _effective_libraries_for_compiler.
  rewrite !fold_left_app. cbn [fold_left]. unfold step at 2. rewrite Ha.
  reflexivity.
Qed.

Lemma effective_libraries_last_rule_wins_witness :
  {| l_id := "fmt"; l_version := "11.0" |}
    ∈ _effective_libraries_for_compiler
        ([Build_LibraryRule "all" "" "fmt" "9.0"]
         ++ Build_LibraryRule "family" "gcc" " fmt " "11.0"
         :: [Build_LibraryRule "compiler" "g132" "fmt" "13.0"]) "gcc" "g141".
Proof.
  apply (effective_libraries_last_rule_wins
           [Build_LibraryRule "all" "" "fmt" "9.0"]
           [Build_LibraryRule "compiler" "g132" "fmt" "13.0"]
           (Build_LibraryRule "family" "gcc" " fmt " "11.0") "gcc" "g141").
  - reflexivity.
  - reflexivity.
  - reflexivity.
  - intros r' Hin%list_elem_of_singleton. subst r'. discriminate.
Defined.

Lemma effective_libraries_ignores_other_rules_witness :
  _effective_libraries_for_compiler
    ([Build_LibraryRule "all" "" "fmt" "9.0"]
     ++ Build_LibraryRule "compiler" "g132" "fmt" "13.0"
     :: [Build_LibraryRule "family" "gcc" "boost" "1.84"]) "gcc" "g141"
  = _effective_libraries_for_compiler
      ([Build_LibraryRule "all" "" "fmt" "9.0"]
       ++ [Build_LibraryRule "family" "gcc" "boost" "1.84"]) "gcc" "g141".
Proof.
  apply (effective_libraries_ignores_other_rules
           [Build_LibraryRule "all" "" "fmt" "9.0"]
           [Build_LibraryRule "family" "gcc" "boost" "1.84"]
           (Build_LibraryRule "compiler" "g132" "fmt" "13.0") "gcc" "g141").
  reflexivity.
Defined.

End LibraryRuleFacts.

(** ** Compiler flags ([cetest_flags.py], [build_user_args_for_group]) *)

Section FlagFacts.
Import PyStr Flags Prefs.

Lemma collapse_blanks_spaced b s : single_spaced b (collapse_blanks b s) = true.
Proof.
  revert b. induction s as [|c r IH]; intros b; [reflexivity|].
  cbn [collapse_blanks]. destruct (is_space c) eqn:Hc.
  - destruct b; [apply IH|]. cbn. apply IH.
  - cbn [single_spaced]. rewrite Hc. apply IH.
Qed.

Lemma collapse_blanks_fixed b s :
  single_spaced b s = true -> collapse_blanks b s = s.
Proof.
  revert b. induction s as [|c r IH]; intros b; [reflexivity|].
  cbn [single_spaced collapse_blanks]. destruct (is_space c).
  - intros [[Hb Hc]%andb_true_iff Hr]%andb_true_iff.
    apply negb_true_iff in Hb. subst b. apply Ascii.eqb_eq in Hc. subst c.
    rewrite (IH _ Hr). reflexivity.
  - intros Hr. rewrite (IH _ Hr). reflexivity.
Qed.

Lemma single_spaced_weaken b s :
  single_spaced b s = true -> single_spaced false s = true.
Proof.
  destruct s as [|c r]; [reflexivity|]. cbn [single_spaced].
  destruct (is_space c); [|auto].
  intros [[_ Hc]%andb_true_iff Hr]%andb_true_iff. rewrite Hc, Hr. reflexivity.
Qed.

Lemma lstrip_spaced b s :
  single_spaced b s = true -> single_spaced false (lstrip s) = true.
Proof.
  destruct s as [|c r]; [reflexivity|]. cbn [single_spaced lstrip].
  destruct (is_space c) eqn:Hc.
  - intros [_ Hr]%andb_true_iff. destruct r as [|c' r']; [reflexivity|].
    cbn [single_spaced lstrip] in *. destruct (is_space c') eqn:Hc'.
    + cbn in Hr. discriminate.
    + cbn [single_spaced]. rewrite Hc'. exact Hr.
  - intros Hr. cbn [single_spaced]. rewrite Hc. exact Hr.
Qed.

Lemma rstrip_spaced b s :
  single_spaced b s = true -> single_spaced b (rstrip s) = true.
Proof.
  revert b. induction s as [|c r IH]; intros b; [reflexivity|].
  cbn [single_spaced rstrip]. destruct (is_space c) eqn:Hc.
  - intros [[Hb Hcc]%andb_true_iff Hr]%andb_true_iff. cbn [andb].
    destruct (is_empty (rstrip r)); [reflexivity|].
    cbn [single_spaced]. rewrite Hc, Hb, Hcc, (IH _ Hr). reflexivity.
  - intros Hr. cbn [andb single_spaced]. rewrite Hc. apply IH, Hr.
Qed.

(** X5.  Normalising a flags text twice is the same as normalising it
    once: a normalised text is a fixed point. *)
Theorem normalize_user_flags_text_idempotent (s : string) :
  _normalize_user_flags_text (_normalize_user_flags_text s)
  = _normalize_user_flags_text s.
Proof.
  unfold _normalize_user_flags_text.
  rewrite (collapse_blanks_fixed false).
  - apply strip_idem.
  - unfold strip. apply rstrip_spaced. eapply lstrip_spaced.
    apply collapse_blanks_spaced.
Qed.

Lemma append_assoc (a b c : string) : (a ++ b) ++ c = a ++ (b ++ c).
Proof.
  induction a as [|x a IH]; [reflexivity|]. rewrite !append_cons, IH.
  reflexivity.
Qed.

Lemma collapse_blanks_prefix p s :
  all_chars (fun c => negb (is_space c)) p = true ->
  is_empty p = false ->
  collapse_blanks false (p ++ s) = p ++ collapse_blanks false s.
Proof.
  intros Hp _. induction p as [|c p IH]; [reflexivity|].
  cbn [all_chars] in Hp. apply andb_true_iff in Hp as [Hc Hp].
  apply negb_true_iff in Hc. rewrite !append_cons. cbn [collapse_blanks].
  rewrite Hc, (IH Hp). reflexivity.
Qed.

Lemma lstrip_prefix p s :
  all_chars (fun c => negb (is_space c)) p = true ->
  is_empty p = false ->
  lstrip (p ++ s) = p ++ s.
Proof.
  destruct p as [|c p]; [discriminate|]. cbn [all_chars].
  intros [Hc _]%andb_true_iff _. apply negb_true_iff in Hc.
  rewrite append_cons. cbn [lstrip]. rewrite Hc. reflexivity.
Qed.

Lemma rstrip_prefix p s :
  all_chars (fun c => negb (is_space c)) p = true ->
  rstrip (p ++ s) = p ++ rstrip s.
Proof.
  intros Hp. induction p as [|c p IH]; [reflexivity|].
  cbn [all_chars] in Hp. apply andb_true_iff in Hp as [Hc Hp].
  apply negb_true_iff in Hc. rewrite !append_cons. cbn [rstrip].
  rewrite Hc, (IH Hp). reflexivity.
Qed.

(** A blank-free, non-empty beginning survives the normalisation. *)
Lemma normalize_user_flags_text_prefix p s :
  all_chars (fun c => negb (is_space c)) p = true ->
  is_empty p = false ->
  startswith p (_normalize_user_flags_text (p ++ s)) = true.
Proof.
  intros Hp Hne. unfold _normalize_user_flags_text, strip.
  rewrite (collapse_blanks_prefix _ _ Hp Hne), (lstrip_prefix _ _ Hp Hne),
    (rstrip_prefix _ _ Hp).
  apply startswith_app.
Qed.

Local Abbreviation std_flag_prefix fam :=
  (if String.eqb (_flag_style_for_family fam) "msvc" then "/std:"
   else "-std=").

Lemma std_flags_for_family_prefix fam std :
  exists rest, std_flags_for_family fam std = std_flag_prefix fam ++ rest.
Proof.
  unfold std_flags_for_family, _flag_style_for_family.
  destruct (String.eqb (lower (strip fam)) "msvc"
            || String.eqb (lower (strip fam)) "clang-cl").
  - cbn [String.eqb]. repeat (destruct (String.eqb _ _); [eexists; reflexivity|]).
    eexists; reflexivity.
  - eexists. reflexivity.
Qed.

Lemma concat_head (sep x : string) (l : list string) :
  exists rest, String.concat sep (x :: l) = x ++ rest.
Proof.
  destruct l as [|y l]; cbn [String.concat].
  - exists "". symmetry. apply append_empty_r.
  - eexists. reflexivity.
Qed.

(** X6.  The arguments built for a group always begin with the flag that
    selects the standard, in the style of the family: [/std:] for the
    MSVC style, [-std=] for the others; extra flags come after it. *)
Theorem build_user_args_std_first (fam platform series cpp_std : string)
    (extra : ExtraFlagsConfig) :
  startswith
    (if String.eqb (_flag_style_for_family fam) "msvc" then "/std:"
     else "-std=")
    (build_user_args_for_group fam platform series cpp_std extra) = true.
Proof.
  unfold build_user_args_for_group.
  destruct (std_flags_for_family_prefix fam cpp_std) as [rest E].
  assert (Hne : is_empty (std_flags_for_family fam cpp_std) = false).
  { rewrite E. destruct (String.eqb _ _); reflexivity. }
  rewrite filter_cons, decide_True by exact Hne.
  destruct (concat_head " " (std_flags_for_family fam cpp_std)
              (filter (fun p => is_empty p = false)
                 [if String.eqb (_flag_style_for_family fam) "msvc"
                  then extra_msvc extra else extra_gnu extra;
                  extra_for_group extra fam platform series])) as [tl Et].
  rewrite Et, E, append_assoc.
  apply normalize_user_flags_text_prefix;
    destruct (String.eqb _ _); reflexivity.
Qed.

End FlagFacts.

(** ** The report dictionary and its reader *)

Section ReportFacts.
Import PyStr Ce Report.
Context (repr_container : PyVal -> string) (int_of_text : string -> option Z).

Lemma or_default_nonempty dflt s : is_empty s = false -> or_default dflt s = s.
Proof. unfold or_default. intros ->. reflexivity. Qed.

Lemma dict_to_att_att_to_dict a :
  dict_to_att repr_container int_of_text (att_to_dict a)
  = Some (read_back_attempt a).
Proof.
  destruct a as [pl se ct ci cn sv cd er].
  unfold dict_to_att, att_to_dict, read_back_attempt, or_default. simpl.
  f_equal.
  destruct pl, se, ct, ci, cn, sv, er; reflexivity.
Qed.

Lemma opt_dict_to_att_opt_att a :
  opt_dict_to_att repr_container int_of_text (opt_att a)
  = Some (read_back_attempt <$> a).
Proof.
  destruct a as [a|]; [|reflexivity].
  unfold opt_att, opt_dict_to_att.
  rewrite dict_to_att_att_to_dict. reflexivity.
Qed.

Lemma attempts_of_map l :
  attempts_of repr_container int_of_text
    (VList (map (fun a => VDict (att_to_dict a)) l))
  = Some (map read_back_attempt l).
Proof.
  unfold attempts_of.
  assert (forallb is_dict (map (fun a => VDict (att_to_dict a)) l) = true)
    as -> by (induction l; simpl; auto).
  induction l as [|a l IH]; [reflexivity|].
  cbn [map atts_of]. rewrite dict_to_att_att_to_dict, IH. reflexivity.
Qed.

Lemma group_of_group_to_dict s :
  group_of repr_container int_of_text (group_to_dict s)
  = Some (read_back_summary s).
Proof.
  destruct s as [pl se ct hs ls ff atts inc].
  unfold group_of, group_to_dict.
  cbn [get String.eqb Ascii.eqb Bool.eqb g_platform g_series g_compiler_type
       highest_supported lowest_supported first_failure attempts
       inconclusive_reason].
  rewrite !opt_dict_to_att_opt_att, attempts_of_map.
  unfold read_back_summary, or_default. simpl.
  destruct pl, se, ct, inc; reflexivity.
Qed.

(** The round trip in general: every field comes back, and an empty
    platform, series, family or standard comes back as its default. *)
Lemma report_round_trip_read_back standard summaries :
  report_dict_to_summaries repr_container int_of_text
    (summaries_to_report_dict standard summaries)
  = Some (or_default "c++17" standard, map read_back_summary summaries).
Proof.
  unfold report_dict_to_summaries, summaries_to_report_dict.
  cbn [get String.eqb Ascii.eqb Bool.eqb].
  assert (groups_of repr_container int_of_text
            (map (fun s => VDict (group_to_dict s)) summaries)
          = Some (map read_back_summary summaries)) as ->.
  { induction summaries as [|s l IH]; [reflexivity|].
    cbn [map groups_of]. rewrite group_of_group_to_dict, IH. reflexivity. }
  unfold or_default. destruct standard; reflexivity.
Qed.

Lemma read_back_attempt_named a :
  attempt_named a = true -> read_back_attempt a = a.
Proof.
  destruct a as [pl se ct ci cn sv cd er]. unfold attempt_named, read_back_attempt.
  simpl. intros H.
  apply andb_true_iff in H as [H H3]. apply andb_true_iff in H as [H1 H2].
  apply negb_true_iff in H1, H2, H3.
  rewrite !or_default_nonempty by assumption. reflexivity.
Qed.

Lemma read_back_opt_named a :
  opt_attempt_named a = true -> read_back_attempt <$> a = a.
Proof.
  destruct a as [a|]; simpl; [|reflexivity].
  intros H. rewrite read_back_attempt_named by assumption. reflexivity.
Qed.

Lemma read_back_summary_named s :
  summary_named s = true -> read_back_summary s = s.
Proof.
  destruct s as [pl se ct hs ls ff atts inc].
  unfold summary_named, read_back_summary. simpl. intros H.
  apply andb_true_iff in H as [H Hatts]. apply andb_true_iff in H as [H Hff].
  apply andb_true_iff in H as [H Hls]. apply andb_true_iff in H as [H Hhs].
  apply andb_true_iff in H as [H H3]. apply andb_true_iff in H as [H1 H2].
  apply negb_true_iff in H1, H2, H3.
  rewrite !or_default_nonempty, !read_back_opt_named by assumption.
  f_equal.
  induction atts as [|a l IH]; [reflexivity|].
  simpl in Hatts. apply andb_true_iff in Hatts as [Ha Hl].
  simpl. rewrite read_back_attempt_named, IH by assumption. reflexivity.
Qed.

(** C4, amended.  Whenever the standard text and the platform, series and
    family of every summary and of every attempt in it are non-empty,
    writing the summaries with [summaries_to_report_dict] and reading them
    with [report_dict_to_summaries] returns the same standard and the same
    summaries, equal in every field ([None] and set, empty and populated
    lists alike).  In general an empty standard, platform, series or
    family is read back as its default, and every other field as it is. *)
Theorem report_round_trip (standard : string) (summaries : list CeGroupSummary) :
  is_empty standard = false ->
  forallb summary_named summaries = true ->
  report_dict_to_summaries repr_container int_of_text
    (summaries_to_report_dict standard summaries)
  = Some (standard, summaries)
  /\ forall standard' summaries',
       report_dict_to_summaries repr_container int_of_text
         (summaries_to_report_dict standard' summaries')
       = Some (or_default "c++17" standard',
               map read_back_summary summaries').
Proof.
  intros Hs Hn. split; [|apply report_round_trip_read_back].
  rewrite report_round_trip_read_back.
  rewrite or_default_nonempty by assumption. do 2 f_equal.
  induction summaries as [|s l IH]; [reflexivity|].
  simpl in Hn. apply andb_true_iff in Hn as [H1 H2].
  simpl. rewrite read_back_summary_named, IH by assumption. reflexivity.
Qed.

End ReportFacts.

Lemma report_round_trip_witness :
  Report.report_dict_to_summaries (fun _ => "") (fun _ => None)
    (Report.summaries_to_report_dict "c++20" sample_summaries)
  = Some ("c++20", sample_summaries).
Proof.
  apply (report_round_trip (fun _ => "") (fun _ => None) "c++20"
           sample_summaries eq_refl eq_refl).
Defined.

(** C4 as stated fails: an empty standard text is read back as "c++17". *)
Lemma report_round_trip_empty_standard :
  ~ (forall repr_container int_of_text standard summaries,
       Report.report_dict_to_summaries repr_container int_of_text
         (Report.summaries_to_report_dict standard summaries)
       = Some (standard, summaries)).
Proof.
  intros H. specialize (H (fun _ => "") (fun _ => None) "" []).
  vm_compute in H. discriminate.
Qed.

(** ** The boundary search ([_probe_group_binary]) *)

Section ProbeFacts.
Import PyStr Models Flags Prefs Ce.
Context (env : Env) (self : Worker).
Context (platform series fam : string) (compilers : list CompilerInfo).

Local Abbreviation test := (Ce.test env self platform series fam compilers).
Local Abbreviation bsearch :=
  (Ce.bsearch env self platform series fam compilers).
Local Abbreviation summary := (Ce.summary platform series fam).
Local Abbreviation probe :=
  (_probe_group_binary env self platform series fam compilers).
Local Abbreviation request_for := (Ce.request_for self fam).
Local Abbreviation mk_attempt := (Ce.mk_attempt platform series fam).
Local Abbreviation fault_attempt := (Ce.fault_attempt platform series fam).
Local Abbreviation test_result :=
  (Ce.test_result env self platform series fam compilers).
Local Abbreviation clean_from := (Ce.clean_from env).
Local Abbreviation fault_last :=
  (Ce.fault_last env self platform series fam compilers).
Local Abbreviation cache_ok := (Ce.cache_ok platform series fam compilers).

(** One unfolding of the loop. *)
Lemma bsearch_unfold ua newest low high st :
  bsearch ua newest low high st =
  if decide (1 < high - low) then
    match check_cancelled env st with
    | (Cancelled, st1) => (Cancelled, st1)
    | (Failed e, st1) => (Failed e, st1)
    | (Done _, st1) =>
        match test ua (mid low high) st1 with
        | (Cancelled, st2) => (Cancelled, st2)
        | (Failed e, st2) => (Failed e, st2)
        | (Done am, st2) =>
            match reason st2 with
            | Some inc =>
                (Done (inl (summary (Some newest) None (Some am)
                              (tested_of (attempts_by_idx st2)) (Some inc))),
                 st2)
            | None =>
                if ok am then bsearch ua newest (mid low high) high st2
                else bsearch ua newest low (mid low high) st2
            end
        end
    end
  else (Done (inr (low, high)), st).
Proof.
  simp bsearch.
  destruct (decide (1 < high - low)); simpl; [|reflexivity].
  destruct (check_cancelled env st) as [[u| |e] st1]; simpl; try reflexivity.
  destruct (Ce.test env self platform series fam compilers ua (mid low high) st1)
    as [[am| |e] st2]; simpl; try reflexivity.
  destruct (reason st2); simpl; [reflexivity|].
  destruct (ok am); reflexivity.
Qed.

Lemma test_cases ua i st : test_result ua i st (test ua i st).
Proof.
  unfold Ce.test, bind, check_cancelled.
  destruct (cancelled_at env (polls st)) eqn:Ec; [apply tr_poll_cancel; exact Ec|].
  cbn [attempts_by_idx ce_log polls reason].
  destruct (attempts_by_idx st !! i) as [a|] eqn:Eh; [apply tr_hit; assumption|].
  destruct (compilers !! i) as [ci|] eqn:Ei; [|apply tr_index_error; assumption].
  destruct (compile_cached env (ce_log st) (request_for ua ci)) as [c err| |e|e] eqn:Eo.
  - apply tr_responded; assumption.
  - apply tr_call_cancel; assumption.
  - apply (tr_fault env self platform series fam compilers ua i st ci
             (RaisedTimeout e)); auto.
  - apply (tr_fault env self platform series fam compilers ua i st ci
             (RaisedOther e)); auto.
Qed.

Lemma cache_grows_refl st : cache_grows st st.
Proof. intros j _. reflexivity. Qed.

Lemma cache_grows_trans st1 st2 st3 :
  cache_grows st1 st2 -> cache_grows st2 st3 -> cache_grows st1 st3.
Proof.
  intros H1 H2 j Hj. rewrite <- (H1 j Hj). apply H2. rewrite (H1 j Hj). exact Hj.
Qed.

Lemma cache_grows_some st st' j :
  cache_grows st st' -> is_Some (attempts_by_idx st !! j) ->
  is_Some (attempts_by_idx st' !! j).
Proof. intros H Hj. rewrite (H j Hj). exact Hj. Qed.

Lemma fault_attempt_code ci o : code (fault_attempt ci o) <> 0%Z.
Proof. destruct o; simpl; unfold CODE_TIMEOUT, CODE_TRANSPORT_ERROR; lia. Qed.

Lemma fault_last_code ua base i a rsn log :
  fault_last ua base i a rsn log -> code a <> 0%Z.
Proof. intros (ci & log1 & _ & _ & _ & _ & -> & _). apply fault_attempt_code. Qed.

Lemma fault_last_reason ua base i a rsn log :
  fault_last ua base i a rsn log -> is_Some rsn.
Proof. intros (ci & log1 & _ & _ & _ & _ & _ & ->). eauto. Qed.

(** What one call of [test] does to a state without a pending reason. *)
Lemma test_step ua i base st r st' :
  reason st = None -> clean_from base (ce_log st) ->
  test ua i st = (r, st') ->
  polls st' = S (polls st) /\ cache_grows st st' /\
  match r with
  | Done a =>
      attempts_by_idx st' !! i = Some a
      /\ ((reason st' = None /\ clean_from base (ce_log st'))
          \/ fault_last ua base i a (reason st') (ce_log st'))
  | _ => clean_from base (ce_log st')
  end.
Proof.
  intros Hr Hc E. pose proof (test_cases ua i st) as T. rewrite E in T.
  assert (Hins : forall a rq rsn,
             attempts_by_idx st !! i = None ->
             cache_grows st (sent rq rsn (<[i := a]> (attempts_by_idx st)) st)).
  { intros a rq rsn Hn j Hj. cbn. rewrite lookup_insert_ne; [reflexivity|].
    intros ->. rewrite Hn in Hj. destruct Hj; discriminate. }
  inversion T; subst; clear T;
    (split; [reflexivity|]); (split; [try (intros j _; reflexivity); auto|]);
    cbn [polls ce_log attempts_by_idx reason polled sent].
  - assumption.
  - split; [assumption|]. left. auto.
  - assumption.
  - split; [apply lookup_insert_eq|]. left. split; [assumption|].
    apply clean_step; [assumption|].
    match goal with H : compile_cached _ _ _ = _ |- _ => rewrite H end.
    reflexivity.
  - apply clean_step; [assumption|].
    match goal with H : compile_cached _ _ _ = _ |- _ => rewrite H end.
    reflexivity.
  - split; [apply lookup_insert_eq|]. right.
    exists ci, (ce_log st). repeat split; auto.
Qed.

Lemma polled_grows st : cache_grows st (polled st).
Proof. intros j _. reflexivity. Qed.

(** The loop keeps its bounds among the tested indices, and leaves with a
    summary only on a fault, which is then the last request made. *)
Lemma bsearch_outcome ua newest base low high st r st' :
  reason st = None -> clean_from base (ce_log st) ->
  is_Some (attempts_by_idx st !! low) ->
  is_Some (attempts_by_idx st !! high) ->
  bsearch ua newest low high st = (r, st') ->
  match r with
  | Done (inr (l, h)) =>
      reason st' = None /\ clean_from base (ce_log st')
      /\ is_Some (attempts_by_idx st' !! l)
      /\ is_Some (attempts_by_idx st' !! h)
  | Done (inl s) =>
      exists i a,
        fault_last ua base i a (inconclusive_reason s) (ce_log st')
        /\ highest_supported s = Some newest
        /\ lowest_supported s = None
        /\ first_failure s = Some a
  | _ => clean_from base (ce_log st')
  end.
Proof.
  remember (high - low) as d eqn:Ed. revert low high st Ed.
  induction d as [d IH] using lt_wf_ind. intros low high st Ed Hr Hc Hl Hh E.
  rewrite bsearch_unfold in E.
  destruct (decide (1 < high - low)) as [Hgt|Hle].
  2:{ injection E as <- <-. auto. }
  pose proof (mid_between low high Hgt) as Hmid.
  unfold check_cancelled in E.
  destruct (cancelled_at env (polls st)).
  { injection E as <- <-. exact Hc. }
  fold (polled st) in E.
  destruct (test ua (mid low high) (polled st)) as [[am| |e] st2] eqn:Et;
    pose proof (test_step ua _ base (polled st) _ _ Hr Hc Et) as (Hp & Hg & Hm).
  - destruct Hm as [Hm [[Hr2 Hc2]|Hf]].
    + rewrite Hr2 in E.
      assert (Hg' : cache_grows st st2)
        by (eapply cache_grows_trans; [apply polled_grows|exact Hg]).
      destruct (ok am).
      * eapply (IH (high - mid low high)); [lia|reflexivity|..|exact E]; auto.
        eapply cache_grows_some; eassumption.
      * eapply (IH (mid low high - low)); [lia|reflexivity|..|exact E]; auto.
        eapply cache_grows_some; eassumption.
    + destruct (fault_last_reason _ _ _ _ _ _ Hf) as [inc Hinc].
      rewrite Hinc in E. injection E as <- <-.
      exists (mid low high), am. cbn. rewrite <- Hinc. auto.
  - injection E as <- <-. exact Hm.
  - injection E as <- <-. exact Hm.
Qed.

(** The whole probe: the summary is sound, and either no request met a
    fault and no reason is reported, or the last request met a fault and
    is reported as the first failure, with no lowest supported. *)
Lemma probe_outcome st r st' :
  probe st = (r, st') ->
  match r with
  | Done s =>
      summary_sound s
      /\ ((inconclusive_reason s = None
           /\ clean_from (ce_log st) (ce_log st'))
          \/ (exists i a,
                fault_last (user_args_of_group self platform series fam)
                           (ce_log st) i a (inconclusive_reason s) (ce_log st')
                /\ first_failure s = Some a
                /\ lowest_supported s = None))
  | _ => clean_from (ce_log st) (ce_log st')
  end.
Proof.
  unfold _probe_group_binary.
  set (ua := user_args_of_group self platform series fam).
  set (base := ce_log st).
  assert (Hb : clean_from base (ce_log (fresh_locals st))) by apply clean_base.
  assert (Hr0 : reason (fresh_locals st) = None) by reflexivity.
  generalize dependent (fresh_locals st). intros s0 Hb Hr0.
  destruct (length compilers =? 0)%nat.
  { intros [= <- <-]. split; [|left; auto].
    repeat split; cbn; discriminate. }
  unfold bind at 1.
  destruct (test ua 0 s0) as [[newest| |e] s1] eqn:E0;
    pose proof (test_step ua _ base s0 _ _ Hr0 Hb E0) as (_ & _ & Hm0);
    [|intros [= <- <-]; exact Hm0..].
  destruct Hm0 as [Hn0 [[Hr1 Hc1]|Hf]]; unfold bind, get_reason, get_tested, ret;
    cbn [fst snd].
  2:{ destruct (fault_last_reason _ _ _ _ _ _ Hf) as [inc Hinc]. rewrite Hinc.
      intros [= <- <-]. cbn. rewrite <- Hinc. split.
      - repeat split; cbn; try discriminate.
        intros a [= <-]. eapply fault_last_code; exact Hf.
      - right. exists 0, newest. auto. }
  rewrite Hr1.
  destruct (ok newest) eqn:Eok; cbn [negb].
  2:{ intros [= <- <-]. split; [|left; auto].
      repeat split; cbn; try discriminate.
      intros a [= <-]. unfold ok in Eok. apply Z.eqb_neq in Eok. exact Eok. }
  assert (Hcode0 : code newest = 0%Z) by (apply Z.eqb_eq; exact Eok).
  destruct (length compilers =? 1)%nat.
  { intros [= <- <-]. split; [|left; auto].
    repeat split; cbn; try discriminate; intros a [= <-]; exact Hcode0. }
  destruct (test ua (length compilers - 1) s1) as [[oldest| |e] s2] eqn:E1;
    pose proof (test_step ua _ base s1 _ _ Hr1 Hc1 E1) as (_ & Hg1 & Hm1);
    [|intros [= <- <-]; exact Hm1..].
  destruct Hm1 as [Hn1 [[Hr2 Hc2]|Hf]].
  2:{ destruct (fault_last_reason _ _ _ _ _ _ Hf) as [inc Hinc]. rewrite Hinc.
      intros [= <- <-]. cbn. rewrite <- Hinc. split.
      - repeat split; cbn; try discriminate.
        + intros a [= <-]. exact Hcode0.
        + intros a [= <-]. eapply fault_last_code; exact Hf.
      - right. exists (length compilers - 1), oldest. auto. }
  rewrite Hr2.
  destruct (ok oldest) eqn:Eok1.
  { intros [= <- <-]. split; [|left; auto].
    repeat split; cbn; try discriminate; intros a [= <-];
      [exact Hcode0|apply Z.eqb_eq; exact Eok1]. }
  destruct (bsearch ua newest 0 (length compilers - 1) s2)
    as [[[s|[low high]]| |e] s3] eqn:Eb;
    pose proof (bsearch_outcome ua newest base _ _ _ _ _ Hr2 Hc2
                  (cache_grows_some _ _ _ Hg1 (ex_intro _ _ Hn0))
                  (ex_intro _ _ Hn1) Eb) as Hb3;
    [| |intros [= <- <-]; exact Hb3..].
  { destruct Hb3 as (i & a & Hf & Hh & Hl & Hff).
    intros [= <- <-]. split.
    - repeat split; intros a'; rewrite ?Hh, ?Hl, ?Hff; try discriminate.
      + intros [= <-]. exact Hcode0.
      + intros [= <-]. eapply fault_last_code; exact Hf.
    - right. exists i, a. auto. }
  destruct Hb3 as (Hr3 & Hc3 & [al Hal] & [ah Hah]).
  destruct (test ua low s3) as [[lowest_ok| |e] s4] eqn:E4;
    pose proof (test_step ua _ base s3 _ _ Hr3 Hc3 E4) as (_ & Hg4 & Hm4);
    [|intros [= <- <-]; exact Hm4..].
  assert (Hr4 : reason s4 = None /\ clean_from base (ce_log s4)).
  { pose proof (test_cases ua low s3) as T. rewrite E4 in T.
    inversion T; subst; cbn; try congruence; auto. }
  destruct Hr4 as [Hr4 Hc4].
  destruct (test ua high s4) as [[first_fail| |e] s5] eqn:E5;
    pose proof (test_step ua _ base s4 _ _ Hr4 Hc4 E5) as (_ & Hg5 & Hm5);
    [|intros [= <- <-]; exact Hm5..].
  assert (Hr5 : reason s5 = None /\ clean_from base (ce_log s5)).
  { pose proof (test_cases ua high s4) as T. rewrite E5 in T.
    assert (Hah' : attempts_by_idx s4 !! high = Some ah)
      by (rewrite (Hg4 high); eauto).
    inversion T; subst; cbn; try congruence; auto. }
  destruct Hr5 as [Hr5 Hc5]. rewrite Hr5.
  intros [= <- <-]. split; [|left; auto].
  repeat split; cbn.
  - intros a [= <-]. exact Hcode0.
  - destruct (ok lowest_ok) eqn:Eo; [|discriminate].
    intros a [= <-]. apply Z.eqb_eq. exact Eo.
  - destruct (ok first_fail) eqn:Eo; cbn; [discriminate|].
    intros a [= <-]. apply Z.eqb_neq. exact Eo.
Qed.

(** A request that met a fault is never followed by another request. *)
Lemma clean_from_no_fault base log later rq mid :
  clean_from base log ->
  log = (later ++ rq :: mid ++ base)%list ->
  is_fault (compile_cached env (mid ++ base)%list rq) = false.
Proof.
  intros Hc. revert later. induction Hc as [|log rq0 Hc IH Hf]; intros later E.
  - apply (f_equal length) in E. rewrite !length_app in E. simpl in E.
    rewrite length_app in E. lia.
  - destruct later as [|x later]; simpl in E.
    + injection E as -> ->. exact Hf.
    + injection E as _ E. eapply IH. exact E.
Qed.

(** C2.  Whatever the candidates and the state, if a request made during
    the probe met a network fault (a timeout or another transport error),
    then it is the last request of the probe, and the probe returns a
    summary whose reason is set, whose first failure is the attempt
    recorded for that request, and whose lowest supported is None. *)
Theorem probe_fault_halts (st st' : PState) (r : Res CeGroupSummary)
    (later mid : list CompileRequest) (rq : CompileRequest) :
  probe st = (r, st') ->
  ce_log st' = (later ++ rq :: mid ++ ce_log st)%list ->
  is_fault (compile_cached env (mid ++ ce_log st)%list rq) = true ->
  later = []
  /\ exists s i ci,
       r = Done s
       /\ compilers !! i = Some ci
       /\ rq = request_for (user_args_of_group self platform series fam) ci
       /\ first_failure s
          = Some (fault_attempt ci
                    (compile_cached env (mid ++ ce_log st)%list rq))
       /\ inconclusive_reason s
          = Some (fault_reason ci
                    (compile_cached env (mid ++ ce_log st)%list rq))
       /\ lowest_supported s = None.
Proof.
  intros E Hlog Hf. pose proof (probe_outcome _ _ _ E) as H.
  assert (Hclean : clean_from (ce_log st) (ce_log st') -> False).
  { intros Hc. rewrite (clean_from_no_fault _ _ _ _ _ Hc Hlog) in Hf.
    discriminate. }
  destruct r as [s| |e]; [|contradiction..].
  destruct H as [_ [[_ Hc]|(i & a & Hfl & Hff & Hls)]]; [contradiction|].
  destruct Hfl as (ci & log1 & Hci & Hl1 & Hc1 & Hf1 & -> & Hrs).
  rewrite Hl1 in Hlog. destruct later as [|x later]; simpl in Hlog.
  - injection Hlog as <- ->. split; [reflexivity|].
    exists s, i, ci. auto 10.
  - injection Hlog as _ Hlog.
    rewrite (clean_from_no_fault _ _ _ _ _ Hc1 Hlog) in Hf. discriminate.
Qed.

Lemma test_hit ua i st a :
  cancelled_at env (polls st) = false ->
  attempts_by_idx st !! i = Some a ->
  test ua i st = (Done a, polled st).
Proof.
  intros Hc Hh. unfold Ce.test, bind, check_cancelled. rewrite Hc.
  cbn [attempts_by_idx]. rewrite Hh. reflexivity.
Qed.

Lemma test_miss_responded ua i st ci c err :
  cancelled_at env (polls st) = false ->
  attempts_by_idx st !! i = None ->
  compilers !! i = Some ci ->
  compile_cached env (ce_log st) (request_for ua ci) = Responded c err ->
  test ua i st
  = (Done (mk_attempt ci c err),
     sent (request_for ua ci) (reason st)
          (<[i := mk_attempt ci c err]> (attempts_by_idx st)) st).
Proof.
  intros Hc Hh Hi Ho. unfold Ce.test, bind, check_cancelled. rewrite Hc.
  cbn [attempts_by_idx ce_log polls reason]. rewrite Hh, Hi, Ho. reflexivity.
Qed.

Lemma length_lookup_0 ci :
  compilers !! 0 = Some ci -> (length compilers =? 0)%nat = false.
Proof. destruct compilers; [discriminate|reflexivity]. Qed.

(** C6.  When the newest candidate compiles with a non-zero result code,
    the probe makes that one request and no other, and returns a summary
    whose only attempt is that one, reported as the first failure, with no
    highest supported. *)
Theorem probe_newest_fails (st : PState) (ci : CompilerInfo) (c : Z)
    (err : string) :
  compilers !! 0 = Some ci ->
  cancelled_at env (polls st) = false ->
  compile_cached env (ce_log st)
    (request_for (user_args_of_group self platform series fam) ci)
  = Responded c err ->
  c <> 0%Z ->
  exists s st',
    probe st = (Done s, st')
    /\ highest_supported s = None
    /\ lowest_supported s = None
    /\ first_failure s = Some (mk_attempt ci c err)
    /\ attempts s = [mk_attempt ci c err]
    /\ inconclusive_reason s = None
    /\ ce_log st'
       = request_for (user_args_of_group self platform series fam) ci
           :: ce_log st.
Proof.
  intros H0 Hc Ho Hne. unfold _probe_group_binary.
  rewrite (length_lookup_0 _ H0). unfold bind at 1.
  rewrite (test_miss_responded _ 0 (fresh_locals st) ci c err);
    [|assumption|apply lookup_empty|assumption|assumption].
  unfold bind, get_reason, ret. cbn [reason sent fresh_locals].
  replace (ok (mk_attempt ci c err)) with false
    by (symmetry; apply Z.eqb_neq; exact Hne).
  cbn [negb]. eexists _, _. split; [reflexivity|].
  cbn [highest_supported lowest_supported first_failure attempts
       inconclusive_reason summary].
  repeat split; reflexivity.
Qed.

(** The attempts listed for two tested indices, in index order. *)
Lemma tested_of_pair (a b : CeAttempt) (k : nat) :
  0 < k ->
  tested_of (<[k := b]> (<[0 := a]> (∅ : gmap nat CeAttempt))) = [a; b].
Proof.
  intros Hk. unfold tested_of, sorted_keys.
  assert (Hp : merge_sort Nat.le
                 (map fst (map_to_list
                    (<[k := b]> (<[0 := a]> (∅ : gmap nat CeAttempt)))))
               = [0; k]).
  { set (l := merge_sort _ _).
    assert (Hperm : l ≡ₚ [k; 0]).
    { unfold l. rewrite merge_sort_Permutation.
      rewrite map_to_list_insert
        by (rewrite lookup_insert_ne by lia; apply lookup_empty).
      rewrite map_to_list_insert by apply lookup_empty.
      rewrite map_to_list_empty. reflexivity. }
    assert (Hs : Sorted Nat.le l) by (apply Sorted_merge_sort; apply _).
    symmetry in Hperm. apply Permutation_length_2_inv in Hperm as [E|E];
      [|exact E].
    rewrite E in Hs. inversion Hs as [|? ? _ Hd]; subst.
    inversion Hd; subst. lia. }
  rewrite Hp. cbn [omap list_omap]. cbv beta.
  rewrite lookup_insert_ne by lia. rewrite lookup_insert_eq.
  rewrite lookup_insert_eq. reflexivity.
Qed.

(** C7.  With at least two candidates, when the newest and the oldest both
    compile, the probe makes exactly these two requests and reports the
    newest as highest supported, the oldest as lowest supported and no
    first failure. *)
Theorem probe_oldest_succeeds (st : PState) (c0 cl : CompilerInfo)
    (e0 el : string) :
  2 <= length compilers ->
  compilers !! 0 = Some c0 ->
  compilers !! (length compilers - 1) = Some cl ->
  cancelled_at env (polls st) = false ->
  cancelled_at env (S (polls st)) = false ->
  compile_cached env (ce_log st)
    (request_for (user_args_of_group self platform series fam) c0)
  = Responded 0 e0 ->
  compile_cached env
    (request_for (user_args_of_group self platform series fam) c0 :: ce_log st)
    (request_for (user_args_of_group self platform series fam) cl)
  = Responded 0 el ->
  exists s st',
    probe st = (Done s, st')
    /\ highest_supported s = Some (mk_attempt c0 0 e0)
    /\ lowest_supported s = Some (mk_attempt cl 0 el)
    /\ first_failure s = None
    /\ attempts s = [mk_attempt c0 0 e0; mk_attempt cl 0 el]
    /\ inconclusive_reason s = None
    /\ ce_log st'
       = request_for (user_args_of_group self platform series fam) cl
           :: request_for (user_args_of_group self platform series fam) c0
           :: ce_log st.
Proof.
  intros Hn H0 Hl Hc0 Hc1 Ho0 Ho1. unfold _probe_group_binary.
  rewrite (length_lookup_0 _ H0). unfold bind at 1.
  rewrite (test_miss_responded _ 0 (fresh_locals st) c0 0 e0);
    [|assumption|apply lookup_empty|assumption|assumption].
  unfold bind at 1, get_reason at 1. cbn [reason sent fresh_locals].
  change (ok (mk_attempt c0 0 e0)) with true. cbn [negb].
  replace (length compilers =? 1)%nat with false
    by (symmetry; apply Nat.eqb_neq; lia).
  unfold bind at 1.
  rewrite (test_miss_responded _ (length compilers - 1) _ cl 0 el);
    [|assumption|cbn; rewrite lookup_insert_ne by lia; apply lookup_empty
     |assumption|assumption].
  unfold bind, get_reason, get_tested, ret.
  cbn [reason sent attempts_by_idx ce_log fresh_locals].
  change (ok (mk_attempt cl 0 el)) with true. cbn iota. cbv beta.
  cbn [attempts_by_idx sent]. rewrite tested_of_pair by lia.
  eexists _, _. split; [reflexivity|].
  cbn [highest_supported lowest_supported first_failure attempts
       inconclusive_reason summary].
  repeat split; reflexivity.
Qed.

(** The two halves of an interval of width at most [2 * p]. *)
Lemma mid_halves low high p :
  high - low <= 2 * p ->
  high - mid low high <= p /\ mid low high - low <= p.
Proof.
  intros H. unfold mid.
  pose proof (Nat.div_mod_eq (low + high) 2) as E.
  pose proof (Nat.mod_upper_bound (low + high) 2) as U.
  lia.
Qed.

Section FixedOutcomes.
(** A mock of the service with one fixed outcome per index, and no
    cancellation. *)
Context (ua : string) (oc : nat -> Z) (oe : nat -> string).
Context (Hno_cancel : forall t, cancelled_at env t = false).
Context (Hmock : forall log i ci,
            compilers !! i = Some ci ->
            compile_cached env log (request_for ua ci)
            = Responded (oc i) (oe i)).

Lemma test_exact i st ci :
  compilers !! i = Some ci -> cache_ok oc oe st ->
  exists st',
    test ua i st = (Done (mk_attempt ci (oc i) (oe i)), st')
    /\ reason st' = reason st
    /\ cache_ok oc oe st'
    /\ attempts_by_idx st' !! i = Some (mk_attempt ci (oc i) (oe i))
    /\ cache_grows st st'
    /\ length (ce_log st') <= S (length (ce_log st))
    /\ (is_Some (attempts_by_idx st !! i) -> ce_log st' = ce_log st).
Proof.
  intros Hi Hok. destruct (attempts_by_idx st !! i) as [a|] eqn:Eh.
  - destruct (Hok _ _ Eh) as (ci' & Hi' & ->).
    assert (ci' = ci) as -> by congruence.
    exists (polled st). rewrite (test_hit _ _ _ _ (Hno_cancel _) Eh).
    repeat split; auto; try (intros j _; reflexivity).
  - eexists. rewrite (test_miss_responded _ _ _ _ _ _ (Hno_cancel _) Eh Hi
                        (Hmock _ _ _ Hi)).
    split; [reflexivity|]. split; [reflexivity|]. split.
    { intros j a. cbn. destruct (decide (i = j)) as [<-|Hne].
      - rewrite lookup_insert_eq. intros [= <-]. eauto.
      - rewrite lookup_insert_ne by assumption. apply Hok. }
    split; [apply lookup_insert_eq|]. split.
    { intros j Hj. cbn. rewrite lookup_insert_ne; [reflexivity|].
      intros ->. rewrite Eh in Hj. destruct Hj; discriminate. }
    split; [cbn; lia|]. intros [x Hx]. discriminate.
Qed.

Context (k : nat).
Context (Hok : forall i, i <= k -> oc i = 0%Z).
Context (Hfail : forall i, k < i -> i < length compilers -> oc i <> 0%Z).

(** The loop narrows any bracket of the boundary down to [(k, k + 1)],
    with at most [e] requests when the bracket is at most [2 ^ e] wide. *)
Lemma bsearch_exact newest e :
  forall low high st,
    high - low <= 2 ^ e -> low <= k -> k < high -> high < length compilers ->
    cache_ok oc oe st -> reason st = None ->
    is_Some (attempts_by_idx st !! low) ->
    is_Some (attempts_by_idx st !! high) ->
    exists st',
      bsearch ua newest low high st = (Done (inr (k, S k)), st')
      /\ reason st' = None /\ cache_ok oc oe st'
      /\ is_Some (attempts_by_idx st' !! k)
      /\ is_Some (attempts_by_idx st' !! S k)
      /\ length (ce_log st') <= length (ce_log st) + e.
Proof.
  induction e as [|e IH]; intros low high st Hw Hlo Hhi Hn Hc Hr Hl Hh;
    rewrite bsearch_unfold;
    destruct (decide (1 < high - low)) as [Hgt|Hle].
  - simpl in Hw. lia.
  - assert (low = k) as -> by lia. assert (high = S k) as -> by lia.
    exists st. repeat split; auto. lia.
  - pose proof (mid_between low high Hgt) as Hmid.
    rewrite Nat.pow_succ_r' in Hw.
    pose proof (mid_halves low high _ Hw) as [Hup Hdn].
    unfold check_cancelled. rewrite Hno_cancel. fold (polled st).
    destruct (lookup_lt_is_Some_2 compilers (mid low high)) as [cm Hcm]; [lia|].
    destruct (test_exact (mid low high) (polled st) cm Hcm Hc)
      as (st2 & -> & Hr2 & Hc2 & Hm2 & Hg2 & Hlen2 & _).
    rewrite Hr2. cbn [reason polled]. rewrite Hr.
    assert (Hl2 : is_Some (attempts_by_idx st2 !! low))
      by (eapply cache_grows_some; [exact Hg2|exact Hl]).
    assert (Hh2 : is_Some (attempts_by_idx st2 !! high))
      by (eapply cache_grows_some; [exact Hg2|exact Hh]).
    assert (Hr2' : reason st2 = None) by (rewrite Hr2; exact Hr).
    unfold ok. cbn [code Ce.mk_attempt]. cbn [ce_log polled] in Hlen2.
    destruct (decide (mid low high <= k)) as [Hmk|Hmk].
    + rewrite (Hok _ Hmk). cbn [Z.eqb].
      destruct (IH (mid low high) high st2 Hup Hmk Hhi Hn Hc2 Hr2'
                  (ex_intro _ _ Hm2) Hh2)
        as (st' & -> & H1 & H2 & H3 & H4 & H5).
      exists st'. repeat split; auto. lia.
    + replace (oc (mid low high) =? 0)%Z with false
        by (symmetry; apply Z.eqb_neq; apply Hfail; lia).
      destruct (IH low (mid low high) st2 Hdn Hlo ltac:(lia) ltac:(lia) Hc2
                  Hr2' Hl2 (ex_intro _ _ Hm2))
        as (st' & -> & H1 & H2 & H3 & H4 & H5).
      exists st'. repeat split; auto. lia.
  - assert (low = k) as -> by lia. assert (high = S k) as -> by lia.
    exists st. repeat split; auto. lia.
Qed.

End FixedOutcomes.

(** C1.  Let the compile outcomes be fixed per index, OK (code 0) for the
    indices up to [k] and FAIL (a non-zero code) for the later ones, with
    [k + 1] still an index of the list, and let nobody cancel.  Then the
    probe returns a summary whose highest supported is the attempt at
    index 0, whose lowest supported is the attempt at index [k], whose
    first failure is the attempt at index [k + 1], with no reason, after
    at most [ceil (log2 n) + 2] requests. *)
Theorem probe_finds_boundary (st : PState) (k : nat)
    (oc : nat -> Z) (oe : nat -> string) (c0 ck ck1 : CompilerInfo) :
  compilers !! 0 = Some c0 ->
  compilers !! k = Some ck ->
  compilers !! S k = Some ck1 ->
  (forall t, cancelled_at env t = false) ->
  (forall log i ci,
     compilers !! i = Some ci ->
     compile_cached env log
       (request_for (user_args_of_group self platform series fam) ci)
     = Responded (oc i) (oe i)) ->
  (forall i, i <= k -> oc i = 0%Z) ->
  (forall i, k < i -> i < length compilers -> oc i <> 0%Z) ->
  exists s st',
    probe st = (Done s, st')
    /\ highest_supported s = Some (mk_attempt c0 (oc 0) (oe 0))
    /\ lowest_supported s = Some (mk_attempt ck (oc k) (oe k))
    /\ first_failure s = Some (mk_attempt ck1 (oc (S k)) (oe (S k)))
    /\ inconclusive_reason s = None
    /\ length (ce_log st')
       <= length (ce_log st) + (Nat.log2_up (length compilers) + 2).
Proof.
  intros H0 Hk Hk1 Hnc Hmock Hok Hfail.
  set (ua := user_args_of_group self platform series fam) in *.
  pose proof (lookup_lt_Some _ _ _ Hk1) as Hn.
  destruct (lookup_lt_is_Some_2 compilers (length compilers - 1)) as [cl Hcl];
    [lia|].
  unfold _probe_group_binary. fold ua.
  rewrite (length_lookup_0 _ H0). unfold bind at 1.
  assert (Hc0 : cache_ok oc oe (fresh_locals st)).
  { intros i a. cbn. rewrite lookup_empty. discriminate. }
  destruct (test_exact ua oc oe Hnc Hmock 0 _ c0 H0 Hc0)
    as (s1 & -> & Hr1 & Hc1 & Hm1 & Hg1 & Hlen1 & _).
  unfold bind at 1, get_reason at 1. rewrite Hr1. cbn [reason fresh_locals].
  unfold ok at 1. cbn [code Ce.mk_attempt]. rewrite (Hok 0) by lia. cbn [Z.eqb negb].
  replace (length compilers =? 1)%nat with false
    by (symmetry; apply Nat.eqb_neq; lia).
  unfold bind at 1.
  destruct (test_exact ua oc oe Hnc Hmock _ s1 cl Hcl Hc1)
    as (s2 & -> & Hr2 & Hc2 & Hm2 & Hg2 & Hlen2 & _).
  unfold bind at 1, get_reason at 1. rewrite Hr2, Hr1. cbn [reason fresh_locals].
  unfold ok at 1. cbn [code Ce.mk_attempt].
  replace (oc (length compilers - 1)%nat =? 0)%Z with false
    by (symmetry; apply Z.eqb_neq; apply Hfail; lia).
  unfold bind at 1.
  assert (Hw : length compilers - 1 - 0 <= 2 ^ Nat.log2_up (length compilers))
    by (pose proof (Nat.log2_up_spec (length compilers)); lia).
  assert (Hrs2 : reason s2 = None) by (rewrite Hr2, Hr1; reflexivity).
  assert (Hl2 : is_Some (attempts_by_idx s2 !! 0))
    by (eapply cache_grows_some; [exact Hg2|eauto]).
  destruct (bsearch_exact ua oc oe Hnc Hmock k Hok Hfail
              (mk_attempt c0 0 (oe 0)) (Nat.log2_up (length compilers))
              0 (length compilers - 1) s2 Hw ltac:(lia) ltac:(lia) ltac:(lia)
              Hc2 Hrs2 Hl2 (ex_intro _ _ Hm2))
    as (s3 & -> & Hr3 & Hc3 & [ak Hak] & [ak1 Hak1] & Hlen3).
  destruct (Hc3 _ _ Hak) as (ck' & Hk' & ->).
  destruct (Hc3 _ _ Hak1) as (ck1' & Hk1' & ->).
  assert (ck' = ck) as -> by congruence.
  assert (ck1' = ck1) as -> by congruence.
  unfold bind at 1. rewrite (test_hit _ _ _ _ (Hnc _) Hak).
  unfold bind at 1. rewrite (test_hit ua (S k) (polled s3) _ (Hnc _) Hak1).
  unfold bind, get_tested, get_reason, ret. cbn [reason polled].
  rewrite Hr3. unfold ok. cbn [code Ce.mk_attempt].
  rewrite (Hok k) by lia.
  replace (oc (S k) =? 0)%Z with false
    by (symmetry; apply Z.eqb_neq; apply Hfail; lia).
  cbn [Z.eqb negb].
  eexists _, _. split; [reflexivity|].
  cbn [highest_supported lowest_supported first_failure inconclusive_reason
       Ce.summary ce_log polled].
  repeat split; try reflexivity.
  cbn [ce_log fresh_locals] in Hlen1. lia.
Qed.

Lemma probe_summary_sound st s st' :
  probe st = (Done s, st') -> summary_sound s.
Proof. intros E. apply (probe_outcome _ _ _ E). Qed.

(** *** The probe under arbitrary answers *)

Local Abbreviation attempt_of := (Ce.attempt_of platform series fam compilers).
Local Abbreviation entries_ok := (Ce.entries_ok platform series fam compilers).
Local Abbreviation never_cancels := (Ce.never_cancels env).
Local Abbreviation bsearch_post :=
  (Ce.bsearch_post env platform series fam compilers).
Local Abbreviation summary_facts :=
  (Ce.summary_facts platform series fam compilers).
Local Abbreviation labelled := (Ce.labelled platform series fam).

Lemma omap_length_total {A B} (f : A -> option B) l :
  (forall x, x ∈ l -> is_Some (f x)) -> length (omap f l) = length l.
Proof.
  induction l as [|x l IH]; intros H; [reflexivity|]. cbn [omap list_omap].
  destruct (H x) as [y Ey]; [left|]. rewrite Ey. cbn. f_equal. apply IH.
  intros z Hz. apply H. right. exact Hz.
Qed.

Lemma sorted_keys_elem m k :
  k ∈ sorted_keys m <-> is_Some (m !! k).
Proof.
  unfold sorted_keys. rewrite merge_sort_Permutation, list_elem_of_fmap.
  split.
  - intros ([k' a] & -> & H%elem_of_map_to_list). cbn. eauto.
  - intros [a H]. exists (k, a). split; [reflexivity|].
    apply elem_of_map_to_list, H.
Qed.

Lemma tested_of_length m : length (tested_of m) = size m.
Proof.
  unfold tested_of. rewrite omap_length_total.
  - unfold sorted_keys. rewrite merge_sort_Permutation, length_map.
    apply length_map_to_list.
  - intros k. apply sorted_keys_elem.
Qed.

Lemma tested_of_elem m a :
  a ∈ tested_of m -> exists i, m !! i = Some a.
Proof.
  unfold tested_of. intros (i & _ & H)%list_elem_of_omap. eauto.
Qed.

Lemma test_entry ua i base st r st' :
  entries_ok st -> counted base st -> i < length compilers ->
  test ua i st = (r, st') ->
  length (ce_log st') <= S (length (ce_log st))
  /\ match r with
     | Done a =>
         entries_ok st' /\ counted base st' /\ cache_grows st st'
         /\ attempts_by_idx st' !! i = Some a
     | Cancelled => ~ never_cancels
     | Failed _ => False
     end.
Proof.
  intros He Hn Hi E. pose proof (test_cases ua i st) as T.
  rewrite E in T.
  assert (Hins : forall a rq rsn ci,
             attempts_by_idx st !! i = None ->
             compilers !! i = Some ci ->
             a = mk_attempt ci (code a) (stderr_text a) ->
             entries_ok (sent rq rsn (<[i := a]> (attempts_by_idx st)) st)
             /\ counted base (sent rq rsn (<[i := a]> (attempts_by_idx st)) st)
             /\ cache_grows st
                  (sent rq rsn (<[i := a]> (attempts_by_idx st)) st)
             /\ <[i := a]> (attempts_by_idx st) !! i = Some a).
  { intros a rq rsn ci Hnone Hci Ha. split; [|split; [|split]].
    - intros j b. cbn [attempts_by_idx sent].
      destruct (decide (j = i)) as [->|Hj].
      + rewrite lookup_insert_eq. intros [= <-]. exists ci. auto.
      + rewrite lookup_insert_ne by congruence. apply He.
    - unfold counted in *. cbn [ce_log attempts_by_idx sent length].
      rewrite map_size_insert_None by exact Hnone. lia.
    - intros j Hj. cbn [attempts_by_idx sent].
      rewrite lookup_insert_ne; [reflexivity|].
      intros ->. rewrite Hnone in Hj. destruct Hj; discriminate.
    - apply lookup_insert_eq. }
  inversion T; subst; clear T; cbn [ce_log polled sent length].
  - split; [lia|]. intros [Hc _]. congruence.
  - split; [lia|]. split; [exact He|]. split; [exact Hn|].
    split; [intros j _; reflexivity|assumption].
  - split; [lia|]. apply lookup_lt_is_Some_2 in Hi as [ci Hci]. congruence.
  - split; [lia|]. eapply Hins; eauto.
  - split; [lia|]. intros [_ Hc]. eapply Hc. eassumption.
  - split; [lia|]. eapply Hins; eauto.
Qed.

Lemma bsearch_post_grows newest base st0 st r st' :
  cache_grows st0 st -> bsearch_post newest base st r st' ->
  bsearch_post newest base st0 r st'.
Proof.
  intros Hg. destruct r as [[s|[l h]]| |e]; cbn; try tauto.
  - intros (?&?&?&?&?&?&?&Hg'). repeat (split; [assumption|]).
    eapply cache_grows_trans; eassumption.
  - intros (?&?&?&?&?&?&?&Hg'). repeat (split; [assumption|]).
    eapply cache_grows_trans; eassumption.
Qed.

(** The loop, for any answers of the service: it keeps an OK attempt at
    [low] and a failed one at [high], sends at most [e] requests when
    the interval is at most [2 ^ e] wide, and never reads outside the
    list. *)
Lemma bsearch_entry ua newest base e :
  forall low high st r st' al ah,
  entries_ok st -> counted base st -> reason st = None ->
  low < high -> high < length compilers ->
  attempts_by_idx st !! low = Some al -> ok al = true ->
  attempts_by_idx st !! high = Some ah -> ok ah = false ->
  high - low <= 2 ^ e ->
  bsearch ua newest low high st = (r, st') ->
  length (ce_log st') <= length (ce_log st) + e
  /\ bsearch_post newest base st r st'.
Proof.
  induction e as [|e IH]; intros low high st r st' al ah He Hn Hr Hlh Hh
    Hal Hoka Hah Hokh Hw E;
    rewrite bsearch_unfold in E;
    destruct (decide (1 < high - low)) as [Hgt|Hle];
    try (injection E as <- <-; split; [lia|]; cbn [bsearch_post];
         repeat (split; [first [assumption|lia|eauto]|]);
         apply cache_grows_refl).
  { cbn in Hw. lia. }
  pose proof (mid_between low high Hgt) as Hmid.
  assert (Hml : mid low high < length compilers) by lia.
  rewrite Nat.pow_succ_r' in Hw.
  pose proof (mid_halves low high _ Hw) as [Hw1 Hw2].
  unfold check_cancelled in E.
  destruct (cancelled_at env (polls st)) eqn:Ec.
  { injection E as <- <-. split; [cbn; lia|]. intros [Hc _]. congruence. }
  fold (polled st) in E.
  destruct (test ua (mid low high) (polled st)) as [[am| |err] st2] eqn:Et;
    pose proof (test_entry ua _ base (polled st) _ _ He Hn Hml Et)
      as [Hlen Hm]; cbn [ce_log polled] in Hlen.
  - destruct Hm as (He2 & Hn2 & Hg & Hm).
    destruct (reason st2) as [inc|] eqn:Er2.
    + injection E as <- <-. split; [lia|]. cbn.
      repeat (split; [first [assumption|reflexivity|eauto]|]).
      eapply cache_grows_trans; [apply polled_grows|exact Hg].
    + destruct (ok am) eqn:Eok.
      * destruct (IH (mid low high) high st2 r st' am ah) as [Hl' Hpost];
          try assumption; try lia.
        { rewrite (Hg high); [exact Hah|]. cbn. rewrite Hah. eauto. }
        split; [lia|]. eapply bsearch_post_grows; [|exact Hpost].
        eapply cache_grows_trans; [apply polled_grows|exact Hg].
      * destruct (IH low (mid low high) st2 r st' al am) as [Hl' Hpost];
          try assumption; try lia.
        { rewrite (Hg low); [exact Hal|]. cbn. rewrite Hal. eauto. }
        split; [lia|]. eapply bsearch_post_grows; [|exact Hpost].
        eapply cache_grows_trans; [apply polled_grows|exact Hg].
  - injection E as <- <-. split; [lia|exact Hm].
  - contradiction.
Qed.

Lemma test_cached ua i st a r st' :
  attempts_by_idx st !! i = Some a ->
  test ua i st = (r, st') ->
  st' = polled st /\ (r = Done a \/ (r = Cancelled /\ ~ never_cancels)).
Proof.
  intros Ha E. pose proof (test_cases ua i st) as T.
  rewrite E in T. inversion T; subst; try congruence.
  - split; [reflexivity|]. right. split; [reflexivity|].
    intros [Hc _]. congruence.
  - split; [reflexivity|]. left. congruence.
Qed.

Lemma tested_of_lookup m i a : m !! i = Some a -> a ∈ tested_of m.
Proof.
  intros H. unfold tested_of. apply list_elem_of_omap. exists i.
  split; [|exact H]. apply sorted_keys_elem. eauto.
Qed.

Lemma tested_summary_facts base st hs ls ff inc :
  entries_ok st -> counted base st ->
  (forall a, hs = Some a \/ ls = Some a \/ ff = Some a ->
             exists i, attempts_by_idx st !! i = Some a) ->
  (forall a, hs = Some a -> attempts_by_idx st !! 0 = Some a) ->
  (forall a b, ls = Some a -> ff = Some b ->
               exists i, attempts_by_idx st !! i = Some a
                         /\ attempts_by_idx st !! S i = Some b) ->
  (inc = None -> is_Some hs -> is_Some ls) ->
  summary_facts base (ce_log st)
    (summary hs ls ff (tested_of (attempts_by_idx st)) inc).
Proof.
  intros He Hn Hin Hhs Hadj Hlast. unfold summary_facts. cbn.
  split; [rewrite tested_of_length; exact Hn|].
  split; [intros a (i & Ha)%tested_of_elem; exists i; eapply He, Ha|].
  split; [intros a Ha; destruct (Hin a Ha) as [i Hi];
          eapply tested_of_lookup, Hi|].
  split; [intros a Ha; eapply He, Hhs, Ha|].
  split; [|exact Hlast].
  intros a b Ha Hb. destruct (Hadj a b Ha Hb) as (i & Hi & Hj).
  exists i. split; eapply He; eassumption.
Qed.

Lemma single_summary_facts base st newest hs ls ff :
  entries_ok st -> counted base st ->
  attempts_by_idx st !! 0 = Some newest ->
  length (ce_log st) <= S (length base) ->
  (forall a, hs = Some a \/ ls = Some a \/ ff = Some a -> a = newest) ->
  ls = None \/ ff = None ->
  (is_Some hs -> is_Some ls) ->
  summary_facts base (ce_log st) (summary hs ls ff [newest] None).
Proof.
  intros He Hn H0 Hlen Hall Hnone Hlast. unfold summary_facts. cbn.
  split.
  { unfold counted in Hn.
    pose proof (map_size_ne_0_lookup_2 (attempts_by_idx st) 0
                  (ex_intro _ _ H0)). lia. }
  split; [intros a ->%list_elem_of_singleton; exists 0; eapply He, H0|].
  split; [intros a ->%Hall; apply list_elem_of_singleton; reflexivity|].
  split; [intros a Ha; rewrite (Hall a); [eapply He, H0|auto]|].
  split; [|intros _; exact Hlast].
  intros a b Ha Hb. destruct Hnone; congruence.
Qed.

(** Side conditions on the three reported attempts. *)
Ltac reported :=
  first
    [ assumption | discriminate | lia | solve [eauto]
    | solve [intros ? [[= <-]|[[= <-]|[= <-]]]; first [reflexivity|eauto]]
    | solve [intros ? [= <-]; assumption]
    | solve [intros ? ? [= <-] [= <-]; eauto]
    | solve [intros [? [=]]] | solve [intros _ [? [=]]] ].

(** The whole probe, for any answers of the service. *)
Lemma probe_facts st r st' :
  probe st = (r, st') ->
  length (ce_log st')
  <= length (ce_log st) + (Nat.log2_up (length compilers) + 2)
  /\ match r with
     | Done s => summary_facts (ce_log st) (ce_log st') s
     | Cancelled => ~ never_cancels
     | Failed _ => False
     end.
Proof.
  unfold _probe_group_binary.
  set (ua := user_args_of_group self platform series fam).
  set (base := ce_log st).
  assert (He0 : entries_ok (fresh_locals st)).
  { intros i a. cbn. rewrite lookup_empty. discriminate. }
  assert (Hn0 : counted base (fresh_locals st)).
  { unfold counted. cbn. rewrite map_size_empty. subst base. lia. }
  assert (Hl0 : length (ce_log (fresh_locals st)) = length base)
    by reflexivity.
  generalize dependent (fresh_locals st). intros s0 He0 Hn0 Hl0.
  destruct (length compilers =? 0)%nat eqn:En0.
  { intros [= <- <-]. split; [lia|]. unfold summary_facts. cbn.
    split; [lia|]. split; [intros a []%elem_of_nil|].
    split; [intros a [|[|]]; discriminate|].
    split; [discriminate|]. split; [discriminate|].
    intros _ [? [=]]. }
  apply Nat.eqb_neq in En0.
  unfold bind at 1.
  destruct (test ua 0 s0) as [[newest| |e] s1] eqn:E0;
    pose proof (test_entry ua 0 base s0 _ _ He0 Hn0 ltac:(lia) E0)
      as [Hlen1 Hm0];
    [|intros [= <- <-]; split; [lia|exact Hm0]..].
  destruct Hm0 as (He1 & Hn1 & Hg1 & Hm1).
  unfold bind, get_reason, get_tested, ret; cbn [fst snd].
  destruct (reason s1) as [inc1|] eqn:Er1.
  { intros [= <- <-]. split; [lia|]. apply tested_summary_facts; reported. }
  destruct (ok newest) eqn:Eok; cbn [negb].
  2:{ intros [= <- <-]. split; [lia|].
      apply single_summary_facts; reported. }
  destruct (length compilers =? 1)%nat eqn:En1.
  { intros [= <- <-]. split; [lia|]. apply single_summary_facts; reported. }
  apply Nat.eqb_neq in En1.
  destruct (test ua (length compilers - 1) s1) as [[oldest| |e] s2] eqn:E1;
    pose proof (test_entry ua (length compilers - 1) base s1 _ _ He1 Hn1
                  ltac:(lia) E1)
      as [Hlen2 Hm2];
    [|intros [= <- <-]; split; [lia|exact Hm2]..].
  destruct Hm2 as (He2 & Hn2 & Hg2 & Hm2).
  assert (H02 : attempts_by_idx s2 !! 0 = Some newest)
    by (rewrite (Hg2 0); [exact Hm1|rewrite Hm1; eauto]).
  destruct (reason s2) as [inc2|] eqn:Er2.
  { intros [= <- <-]. split; [lia|]. apply tested_summary_facts; reported. }
  destruct (ok oldest) eqn:Eok1.
  { intros [= <- <-]. split; [lia|]. apply tested_summary_facts; reported. }
  assert (Hw : length compilers - 1 - 0 <= 2 ^ Nat.log2_up (length compilers))
    by (pose proof (Nat.log2_up_spec (length compilers)); lia).
  destruct (bsearch ua newest 0 (length compilers - 1) s2)
    as [[[s|[low high]]| |e] s3] eqn:Eb;
    pose proof (bsearch_entry ua newest base (Nat.log2_up (length compilers))
                  0 (length compilers - 1) s2 _ _ newest oldest
                  He2 Hn2 Er2 ltac:(lia) ltac:(lia) H02 Eok Hm2 Eok1 Hw Eb)
      as [Hlen3 Hb3]; cbn [bsearch_post] in Hb3;
    [| |intros [= <- <-]; split; [lia|exact Hb3]..].
  { destruct Hb3 as (He3 & Hn3 & Hatt & Hhs & Hls & Hinc & (i & a & Hff & Hi)
                     & Hg3).
    intros [= <- <-]. split; [lia|].
    assert (H03 : attempts_by_idx s3 !! 0 = Some newest)
      by (rewrite (Hg3 0); [exact H02|rewrite H02; eauto]).
    unfold summary_facts. rewrite Hatt, Hhs, Hls, Hff.
    split; [rewrite tested_of_length; exact Hn3|].
    split; [intros b (j & Hb)%tested_of_elem; exists j; eapply He3, Hb|].
    split; [intros b [[= <-]|[|[= <-]]]; try discriminate;
            eapply tested_of_lookup; eassumption|].
    split; [intros b [= <-]; eapply He3, H03|].
    split; [discriminate|]. intros Hnone. rewrite Hnone in Hinc.
    destruct Hinc as [? [=]]. }
  destruct Hb3 as (He3 & Hn3 & Hr3 & -> & Hh3 & (al & Hal & Hoka)
                   & (ah & Hah & Hokh) & Hg3).
  assert (H03 : attempts_by_idx s3 !! 0 = Some newest)
    by (rewrite (Hg3 0); [exact H02|rewrite H02; eauto]).
  destruct (test ua low s3) as [r4 s4] eqn:E4.
  destruct (test_cached ua low s3 al r4 s4 Hal E4) as [-> [->|[-> Hc]]];
    [|intros [= <- <-]; split; [cbn; lia|exact Hc]].
  destruct (test ua (S low) (polled s3)) as [r5 s5] eqn:E5.
  destruct (test_cached ua (S low) (polled s3) ah r5 s5 Hah E5)
    as [-> [->|[-> Hc]]];
    [|intros [= <- <-]; split; [cbn; lia|exact Hc]].
  cbn [reason polled attempts_by_idx]. rewrite Hr3, Hoka, Hokh. cbn [negb].
  intros [= <- <-]. split; [cbn; lia|]. cbn [ce_log polled].
  apply tested_summary_facts; reported.
Qed.

Lemma bsearch_labelled ua newest low high st s st' :
  bsearch ua newest low high st = (Done (inl s), st') -> labelled s.
Proof.
  remember (high - low) as d eqn:Ed. revert low high st Ed.
  induction d as [d IH] using lt_wf_ind. intros low high st Ed E.
  rewrite bsearch_unfold
    in E.
  destruct (decide (1 < high - low)) as [Hgt|Hle]; [|discriminate].
  pose proof (mid_between low high Hgt) as Hmid.
  destruct (check_cancelled env st) as [[u| |e] st1]; try discriminate.
  destruct (test ua (mid low high) st1) as [[am| |e] st2]; try discriminate.
  destruct (reason st2).
  - injection E as <- <-. repeat split.
  - destruct (ok am).
    + eapply (IH (high - mid low high)); [lia|reflexivity|exact E].
    + eapply (IH (mid low high - low)); [lia|reflexivity|exact E].
Qed.

Lemma probe_labelled st s st' : probe st = (Done s, st') -> labelled s.
Proof.
  unfold _probe_group_binary, bind, ret, get_reason, get_tested.
  destruct (length compilers =? 0)%nat; [intros [= <- <-]; repeat split|].
  destruct (test _ 0 _) as [[newest| |e] s1]; try discriminate.
  destruct (reason s1); [intros [= <- <-]; repeat split|].
  destruct (negb (ok newest)); [intros [= <- <-]; repeat split|].
  destruct (length compilers =? 1)%nat; [intros [= <- <-]; repeat split|].
  destruct (test _ (length compilers - 1) _) as [[oldest| |e] s2];
    try discriminate.
  destruct (reason s2); [intros [= <- <-]; repeat split|].
  destruct (ok oldest); [intros [= <- <-]; repeat split|].
  destruct (bsearch _ newest 0 (length compilers - 1) s2)
    as [[[s'|[low high]]| |e] s3] eqn:Eb; try discriminate.
  - intros [= <- <-]. eapply bsearch_labelled, Eb.
  - destruct (test _ low s3) as [[a1| |e] s4]; try discriminate.
    destruct (test _ high s4) as [[a2| |e] s5]; try discriminate.
    destruct (reason s5); intros [= <- <-]; repeat split.
Qed.

(** X7.  Whatever the service answers and whenever the probe is cancelled,
    one call of the probe sends at most [ceil (log2 n) + 2] compile
    requests for [n] candidates. *)
Theorem probe_request_bound (st : PState) :
  length (ce_log (probe st).2)
  <= length (ce_log st) + (Nat.log2_up (length compilers) + 2).
Proof.
  destruct (probe st) as [r st'] eqn:E. apply (probe_facts _ _ _ E).
Qed.

(** X8.  The probe never reads outside the candidate list: it ends with a
    summary or with the cancellation, never with an IndexError. *)
Theorem probe_index_in_range (st : PState) :
  match (probe st).1 with
  | Failed _ => False
  | _ => True
  end.
Proof.
  destruct (probe st) as [r st'] eqn:E.
  pose proof (probe_facts _ _ _ E) as [_ H]. destruct r; [exact I..|exact H].
Qed.

(** X9.  A summary lists exactly one attempt per request that the probe
    sent, each made with a candidate of the list, and the attempts
    reported as highest supported, lowest supported and first failure
    are among them. *)
Theorem probe_attempts_listed (st st' : PState) (s : CeGroupSummary) :
  probe st = (Done s, st') ->
  length (ce_log st') = length (ce_log st) + length (attempts s)
  /\ (forall a, a ∈ attempts s ->
        exists i ci, compilers !! i = Some ci
                     /\ a = mk_attempt ci (code a) (stderr_text a))
  /\ (forall a, highest_supported s = Some a \/ lowest_supported s = Some a
                \/ first_failure s = Some a -> a ∈ attempts s).
Proof.
  intros E. pose proof (probe_facts _ _ _ E) as [_ (H1 & H2 & H3 & _)].
  split; [exact H1|]. split; [|exact H3].
  intros a Ha. destruct (H2 a Ha) as (i & ci & Hci & Ea). eauto.
Qed.

(** X10.  The highest supported attempt of a summary, when there is one,
    is the attempt made with the first (newest) candidate, and it
    compiled. *)
Theorem probe_highest_is_newest (st st' : PState) (s : CeGroupSummary)
    (a : CeAttempt) :
  probe st = (Done s, st') ->
  highest_supported s = Some a ->
  exists c0, compilers !! 0 = Some c0
             /\ a = mk_attempt c0 0 (stderr_text a).
Proof.
  intros E Ha. pose proof (probe_facts _ _ _ E) as [_ (_ & _ & _ & H & _)].
  destruct (H a Ha) as (c0 & H0 & Ea).
  pose proof (probe_summary_sound _ _ _ E) as (Hc & _).
  exists c0. split; [exact H0|]. rewrite <- (Hc a Ha). exact Ea.
Qed.

(** X11.  When a summary reports both a lowest supported attempt and a
    first failure, they were made with two neighbouring candidates: the
    lowest supported one compiled, and the next older candidate did
    not.  This holds for any answers of the service, monotone or not. *)
Theorem probe_boundary_adjacent (st st' : PState) (s : CeGroupSummary)
    (a b : CeAttempt) :
  probe st = (Done s, st') ->
  lowest_supported s = Some a ->
  first_failure s = Some b ->
  exists i ci cj,
    compilers !! i = Some ci /\ compilers !! S i = Some cj
    /\ a = mk_attempt ci 0 (stderr_text a)
    /\ b = mk_attempt cj (code b) (stderr_text b)
    /\ code b <> 0%Z.
Proof.
  intros E Ha Hb.
  pose proof (probe_facts _ _ _ E) as [_ (_ & _ & _ & _ & H & _)].
  destruct (H a b Ha Hb) as (i & (ci & Hi & Ea) & (cj & Hj & Eb)).
  pose proof (probe_summary_sound _ _ _ E) as (_ & Hl & Hf).
  exists i, ci, cj. split; [exact Hi|]. split; [exact Hj|].
  split; [rewrite <- (Hl a Ha); exact Ea|]. split; [exact Eb|].
  apply Hf, Hb.
Qed.

(** X12.  A summary without an inconclusive reason that reports a highest
    supported attempt also reports a lowest supported one. *)
Theorem probe_lowest_reported (st st' : PState) (s : CeGroupSummary) :
  probe st = (Done s, st') ->
  inconclusive_reason s = None ->
  is_Some (highest_supported s) ->
  is_Some (lowest_supported s).
Proof.
  intros E. pose proof (probe_facts _ _ _ E) as [_ (_ & _ & _ & _ & _ & H)].
  exact H.
Qed.

(** X13.  When nobody cancels (the abort flag is never seen set and no
    request is aborted), the probe returns a summary, labelled with the
    platform, series and family of its group. *)
Theorem probe_completes (st : PState) :
  never_cancels ->
  exists s st',
    probe st = (Done s, st')
    /\ g_platform s = platform /\ g_series s = series
    /\ g_compiler_type s = fam.
Proof.
  intros Hn. destruct (probe st) as [[s| |e] st'] eqn:E;
    pose proof (probe_facts _ _ _ E) as [_ H].
  - exists s, st'. split; [reflexivity|]. eapply probe_labelled, E.
  - contradiction.
  - contradiction.
Qed.

(** When the abort flag is already set as the probe of a non-empty
    group starts, the probe is cancelled before any request is sent. *)
Theorem probe_cancelled_at_entry (st : PState) :
  compilers <> [] ->
  cancelled_at env (polls st) = true ->
  (probe st).1 = Cancelled /\ ce_log (probe st).2 = ce_log st.
Proof.
  intros Hne Hc.
  assert (E : probe st = (Cancelled, polled (fresh_locals st))).
  { unfold _probe_group_binary.
    destruct compilers as [|c0 cs] eqn:Ec; [contradiction|].
    cbn [length Nat.eqb]. unfold bind at 1, Ce.test at 1, bind at 1.
    unfold check_cancelled. cbn [polls fresh_locals]. rewrite Hc.
    reflexivity. }
  rewrite E. split; reflexivity.
Qed.

End ProbeFacts.

(** ** The worker loop ([run]) *)

Lemma probe_error_summary_sound platform series compiler_type e :
  Ce.summary_sound (Ce.probe_error_summary platform series compiler_type e).
Proof.
  repeat split; cbn; try discriminate.
  intros a [= <-]. cbn. unfold Ce.CODE_TRANSPORT_ERROR. lia.
Qed.

Lemma run_jobs_sound env self jobs st s :
  In (Ce.group_done s) (snd (fst (Ce.run_jobs env self jobs st))) ->
  Ce.summary_sound s.
Proof.
  revert st. induction jobs as [|[[[platform series] compiler_type] compilers] rest IH];
    intros st; cbn [Ce.run_jobs]; [intros []|].
  unfold Ce.check_cancelled. destruct (Ce.cancelled_at env (Ce.polls st)); [intros []|].
  match goal with |- context [Ce._probe_group_binary ?a ?b ?c ?d ?e ?f ?g] =>
    destruct (Ce._probe_group_binary a b c d e f g) as [[s1| |e1] st2] eqn:Ep end.
  - destruct (Ce.run_jobs env self rest st2) as [[r sigs] st3] eqn:Er.
    cbn. intros [[= <-]|Hin].
    + eapply probe_summary_sound. exact Ep.
    + apply (IH st2). rewrite Er. exact Hin.
  - intros [].
  - destruct (Ce.run_jobs env self rest st2) as [[r sigs] st3] eqn:Er.
    cbn. intros [[= <-]|Hin].
    + apply probe_error_summary_sound.
    + apply (IH st2). rewrite Er. exact Hin.
Qed.

(** C10.  A summary that the worker emits for a group, that
    [_probe_group_binary] returns, or that the group-level handler builds
    for a probe error, has a highest and a lowest supported attempt (when
    present) with result code 0 and a first failure (when present) with a
    non-zero result code. *)
Theorem probe_worker_summaries_sound (env : Ce.Env) (self : Ce.Worker)
    (jobs : list Ce.Job) (st : Ce.PState)
    (platform series fam : string) (compilers : list Models.CompilerInfo)
    (st0 : Ce.PState) (e : string) (s : Ce.CeGroupSummary) :
  In (Ce.group_done s) (fst (Ce.run env self jobs st))
  \/ (exists st', Ce._probe_group_binary env self platform series fam
                    compilers st0 = (Ce.Done s, st'))
  \/ s = Ce.probe_error_summary platform series fam e ->
  (forall a, Ce.highest_supported s = Some a -> Ce.code a = 0%Z)
  /\ (forall a, Ce.lowest_supported s = Some a -> Ce.code a = 0%Z)
  /\ (forall a, Ce.first_failure s = Some a -> Ce.code a <> 0%Z).
Proof.
  intros [Hin|[[st' Ep]| ->]].
  - apply (run_jobs_sound env self jobs st). unfold Ce.run in Hin.
    destruct (Ce.run_jobs env self jobs st) as [[r sigs] st3]. cbn in *.
    apply in_app_or in Hin as [Hin|[Hl|[]]]; [exact Hin|].
    destruct r; discriminate.
  - eapply probe_summary_sound. exact Ep.
  - apply probe_error_summary_sound.
Qed.

Lemma probe_finds_boundary_witness :
  exists s st',
    Ce._probe_group_binary (mock_env first_six "") sample_worker
      "x86-64" "x86-64 gcc" "gcc" sample_compilers sample_state
    = (Ce.Done s, st')
    /\ Ce.highest_supported s
       = Some (Ce.mk_attempt "x86-64" "x86-64 gcc" "gcc" (sample_ci "15.2") 0 "")
    /\ Ce.lowest_supported s
       = Some (Ce.mk_attempt "x86-64" "x86-64 gcc" "gcc" (sample_ci "13.4") 0 "")
    /\ Ce.first_failure s
       = Some (Ce.mk_attempt "x86-64" "x86-64 gcc" "gcc" (sample_ci "13.3") 1
                 "error: use of undeclared identifier")
    /\ Ce.inconclusive_reason s = None
    /\ length (Ce.ce_log st') <= 0 + (4 + 2).
Proof.
  apply (probe_finds_boundary (mock_env first_six "") sample_worker
           "x86-64" "x86-64 gcc" "gcc" sample_compilers sample_state 5
           sample_code sample_stderr
           (sample_ci "15.2") (sample_ci "13.4") (sample_ci "13.3")).
  - reflexivity.
  - reflexivity.
  - reflexivity.
  - reflexivity.
  - intros log i.
    do 16 (destruct i as [|i]; [intros ci [= <-]; reflexivity|]).
    intros ci H. discriminate H.
  - intros i Hi. unfold sample_code.
    destruct (Nat.leb_spec i 5); [reflexivity|lia].
  - intros i Hi _. unfold sample_code.
    destruct (Nat.leb_spec i 5); [lia|discriminate].
Defined.

Lemma probe_fault_halts_witness :
  ([] : list Ce.CompileRequest) = []
  /\ exists s i ci,
       fst (Ce._probe_group_binary (mock_env first_six "g13.2") sample_worker
              "x86-64" "x86-64 gcc" "gcc" sample_compilers sample_state)
       = Ce.Done s
       /\ sample_compilers !! i = Some ci
       /\ Ce.request_for sample_worker "gcc"
            (Ce.user_args_of_group sample_worker "x86-64" "x86-64 gcc" "gcc")
            (sample_ci "13.2")
          = Ce.request_for sample_worker "gcc"
              (Ce.user_args_of_group sample_worker "x86-64" "x86-64 gcc" "gcc")
              ci
       /\ Ce.first_failure s
          = Some (Ce.fault_attempt "x86-64" "x86-64 gcc" "gcc" ci
                    (Ce.RaisedTimeout "timed out"))
       /\ Ce.inconclusive_reason s
          = Some (Ce.fault_reason ci (Ce.RaisedTimeout "timed out"))
       /\ Ce.lowest_supported s = None.
Proof.
  apply (probe_fault_halts (mock_env first_six "g13.2") sample_worker
           "x86-64" "x86-64 gcc" "gcc" sample_compilers sample_state
           (snd (Ce._probe_group_binary (mock_env first_six "g13.2")
                   sample_worker "x86-64" "x86-64 gcc" "gcc" sample_compilers
                   sample_state))
           (fst (Ce._probe_group_binary (mock_env first_six "g13.2")
                   sample_worker "x86-64" "x86-64 gcc" "gcc" sample_compilers
                   sample_state))
           []
           [ Ce.request_for sample_worker "gcc"
               (Ce.user_args_of_group sample_worker "x86-64" "x86-64 gcc" "gcc")
               (sample_ci "11.4");
             Ce.request_for sample_worker "gcc"
               (Ce.user_args_of_group sample_worker "x86-64" "x86-64 gcc" "gcc")
               (sample_ci "15.2") ]
           (Ce.request_for sample_worker "gcc"
              (Ce.user_args_of_group sample_worker "x86-64" "x86-64 gcc" "gcc")
              (sample_ci "13.2"))).
  - apply surjective_pairing.
  - vm_compute. reflexivity.
  - vm_compute. reflexivity.
Defined.

Lemma probe_newest_fails_witness :
  exists s st',
    Ce._probe_group_binary (mock_env [] "") sample_worker
      "x86-64" "x86-64 gcc" "gcc" sample_compilers sample_state
    = (Ce.Done s, st')
    /\ Ce.highest_supported s = None
    /\ Ce.lowest_supported s = None
    /\ Ce.first_failure s
       = Some (Ce.mk_attempt "x86-64" "x86-64 gcc" "gcc" (sample_ci "15.2")
                 1 "error: use of undeclared identifier")
    /\ Ce.attempts s
       = [Ce.mk_attempt "x86-64" "x86-64 gcc" "gcc" (sample_ci "15.2")
            1 "error: use of undeclared identifier"]
    /\ Ce.inconclusive_reason s = None
    /\ Ce.ce_log st'
       = [ Ce.request_for sample_worker "gcc"
             (Ce.user_args_of_group sample_worker "x86-64" "x86-64 gcc" "gcc")
             (sample_ci "15.2") ].
Proof.
  apply (probe_newest_fails (mock_env [] "") sample_worker
           "x86-64" "x86-64 gcc" "gcc" sample_compilers sample_state
           (sample_ci "15.2") 1 "error: use of undeclared identifier").
  - reflexivity.
  - reflexivity.
  - reflexivity.
  - discriminate.
Defined.

Lemma probe_oldest_succeeds_witness :
  exists s st',
    Ce._probe_group_binary (mock_env ["g15.2"; "g11.4"] "") sample_worker
      "x86-64" "x86-64 gcc" "gcc" sample_compilers sample_state
    = (Ce.Done s, st')
    /\ Ce.highest_supported s
       = Some (Ce.mk_attempt "x86-64" "x86-64 gcc" "gcc" (sample_ci "15.2")
                 0 "")
    /\ Ce.lowest_supported s
       = Some (Ce.mk_attempt "x86-64" "x86-64 gcc" "gcc" (sample_ci "11.4")
                 0 "")
    /\ Ce.first_failure s = None
    /\ Ce.attempts s
       = [ Ce.mk_attempt "x86-64" "x86-64 gcc" "gcc" (sample_ci "15.2") 0 "";
           Ce.mk_attempt "x86-64" "x86-64 gcc" "gcc" (sample_ci "11.4") 0 "" ]
    /\ Ce.inconclusive_reason s = None
    /\ Ce.ce_log st'
       = [ Ce.request_for sample_worker "gcc"
             (Ce.user_args_of_group sample_worker "x86-64" "x86-64 gcc" "gcc")
             (sample_ci "11.4");
           Ce.request_for sample_worker "gcc"
             (Ce.user_args_of_group sample_worker "x86-64" "x86-64 gcc" "gcc")
             (sample_ci "15.2") ].
Proof.
  apply (probe_oldest_succeeds (mock_env ["g15.2"; "g11.4"] "") sample_worker
           "x86-64" "x86-64 gcc" "gcc" sample_compilers sample_state
           (sample_ci "15.2") (sample_ci "11.4") "" "").
  - cbn. lia.
  - reflexivity.
  - reflexivity.
  - reflexivity.
  - reflexivity.
  - reflexivity.
  - reflexivity.
Defined.

Lemma probe_worker_summaries_sound_witness :
  Forall (fun sg => match sg with
                    | Ce.group_done s =>
                        (forall a, Ce.highest_supported s = Some a ->
                                   Ce.code a = 0%Z)
                        /\ (forall a, Ce.lowest_supported s = Some a ->
                                      Ce.code a = 0%Z)
                        /\ (forall a, Ce.first_failure s = Some a ->
                                      Ce.code a <> 0%Z)
                    | _ => True
                    end)
    (fst (Ce.run (mock_env first_six "g13.2") sample_worker sample_jobs
            sample_state)).
Proof.
  apply Forall_forall. intros [s| | |e] Hin; try exact I.
  apply (probe_worker_summaries_sound (mock_env first_six "g13.2")
           sample_worker sample_jobs sample_state "" "" "" [] sample_state "" s).
  left. apply list_elem_of_In. exact Hin.
Defined.

(** ** More on the probe and the worker loop *)

(** With no candidate the probe returns at once: the summary reports
    nothing and lists no attempt, no request is sent and the abort flag
    is not polled. *)
Theorem probe_no_candidates (env : Ce.Env) (self : Ce.Worker)
    (platform series fam : string) (st : Ce.PState) :
  fst (Ce._probe_group_binary env self platform series fam [] st)
  = Ce.Done (Ce.summary platform series fam None None None [] None)
  /\ Ce.ce_log (snd (Ce._probe_group_binary env self platform series fam [] st))
     = Ce.ce_log st
  /\ Ce.polls (snd (Ce._probe_group_binary env self platform series fam [] st))
     = Ce.polls st.
Proof. repeat split. Qed.

(** With a single candidate that compiles, the probe sends that one
    request and reports the candidate as both the highest and the lowest
    supported, with no first failure. *)
Theorem probe_single_candidate (env : Ce.Env) (self : Ce.Worker)
    (platform series fam : string) (ci : Models.CompilerInfo)
    (st : Ce.PState) (err : string) :
  Ce.cancelled_at env (Ce.polls st) = false ->
  Ce.compile_cached env (Ce.ce_log st)
    (Ce.request_for self fam
       (Ce.user_args_of_group self platform series fam) ci)
  = Ce.Responded 0 err ->
  exists st',
    Ce._probe_group_binary env self platform series fam [ci] st
    = (Ce.Done
         (Ce.summary platform series fam
            (Some (Ce.mk_attempt platform series fam ci 0 err))
            (Some (Ce.mk_attempt platform series fam ci 0 err))
            None [Ce.mk_attempt platform series fam ci 0 err] None), st')
    /\ Ce.ce_log st'
       = Ce.request_for self fam
           (Ce.user_args_of_group self platform series fam) ci
         :: Ce.ce_log st.
Proof.
  intros Hc Ho. unfold Ce._probe_group_binary. cbn [length Nat.eqb].
  unfold Ce.bind at 1.
  rewrite (test_miss_responded env self platform series fam [ci] _ 0
             (Ce.fresh_locals st) ci 0 err);
    [|assumption|apply lookup_empty|reflexivity|assumption].
  unfold Ce.bind, Ce.get_reason, Ce.ret. cbn [Ce.reason Ce.sent Ce.fresh_locals].
  eexists. split; reflexivity.
Qed.

Section RunFacts.
Import Ce.
Context (env : Env) (self : Worker).

Lemma run_jobs_shape jobs st :
  exists sums,
    (run_jobs env self jobs st).1.2 = map group_done sums
    /\ Forall2 summary_of_job (take (length sums) jobs) sums
    /\ match (run_jobs env self jobs st).1.1 with
       | Done _ => Forall2 summary_of_job jobs sums
       | Cancelled => ~ never_cancels env
       | Failed _ => False
       end
    /\ length (ce_log (run_jobs env self jobs st).2)
       <= length (ce_log st) + jobs_budget jobs.
Proof.
  revert st.
  induction jobs as [|[[[platform series] fam] compilers] rest IH]; intros st.
  { exists []. cbn. split; [reflexivity|]. split; [constructor|].
    split; [constructor|lia]. }
  cbn [run_jobs]. unfold check_cancelled.
  destruct (cancelled_at env (polls st)) eqn:Ec.
  { exists []. cbn. split; [reflexivity|]. split; [constructor|].
    split; [|lia]. intros [Hc _]. congruence. }
  fold (polled st).
  destruct (_probe_group_binary env self platform series fam compilers
              (polled st)) as [[s| |e] st2] eqn:Ep;
    pose proof (probe_facts env self platform series fam compilers _ _ _ Ep)
      as [Hlen Hpost]; cbn [ce_log polled] in Hlen.
  - destruct (IH st2) as (sums & E & Hl & Hr & Hb).
    destruct (run_jobs env self rest st2) as [[r sigs] st3] eqn:Er.
    cbn [fst snd] in *. exists (s :: sums).
    cbn [map length jobs_budget foldr take].
    pose proof (probe_labelled env self platform series fam compilers _ _ _ Ep)
      as Hs.
    rewrite E. split; [reflexivity|]. split; [constructor; assumption|]. split.
    + destruct r; [|exact Hr..]. constructor; [exact Hs|exact Hr].
    + unfold job_budget at 1. cbn [snd]. fold (jobs_budget rest). lia.
  - exists []. cbn [fst snd map length take]. split; [reflexivity|].
    split; [constructor|]. split; [exact Hpost|].
    cbn [jobs_budget foldr]. unfold job_budget at 1. cbn [snd]. lia.
  - contradiction.
Qed.

(** X14.  The worker emits [group_done] signals for a prefix of the
    jobs, one per job and in job order, each summary labelled with the
    platform, series and family of its job, and then exactly one closing
    signal, which is [finished] or [aborted], never [failed]; when it is
    [finished] the prefix is the whole list of jobs. *)
Theorem run_signals_shape (jobs : list Job) (st : PState) :
  exists sums last,
    (run env self jobs st).1 = (map group_done sums ++ [last])%list
    /\ (last = finished \/ last = aborted)
    /\ Forall2 summary_of_job (take (length sums) jobs) sums
    /\ (last = finished -> length sums = length jobs).
Proof.
  destruct (run_jobs_shape jobs st) as (sums & E & Hp & Hr & _).
  unfold run. destruct (run_jobs env self jobs st) as [[r sigs] st'].
  cbn [fst snd] in *. subst sigs. exists sums.
  destruct r as [u| |e]; [| |contradiction].
  - exists finished. split; [reflexivity|]. split; [auto|].
    split; [exact Hp|]. intros _. symmetry. eapply Forall2_length, Hr.
  - exists aborted. split; [reflexivity|]. split; [auto|].
    split; [exact Hp|discriminate].
Qed.

(** X15.  When nobody cancels, the worker emits one summary per job, in
    job order and labelled as the job, followed by [finished]. *)
Theorem run_completes (jobs : list Job) (st : PState) :
  never_cancels env ->
  exists sums,
    (run env self jobs st).1 = (map group_done sums ++ [finished])%list
    /\ Forall2 summary_of_job jobs sums.
Proof.
  intros Hn. destruct (run_jobs_shape jobs st) as (sums & E & _ & Hr & _).
  unfold run. destruct (run_jobs env self jobs st) as [[r sigs] st'].
  cbn [fst snd] in *. subst sigs. exists sums.
  destruct r as [u| |e]; [auto|contradiction..].
Qed.

(** A whole run sends at most [ceil (log2 n) + 2] requests per job
    of [n] candidates, whatever the service answers. *)
Theorem run_request_bound (jobs : list Job) (st : PState) :
  length (ce_log (run env self jobs st).2)
  <= length (ce_log st) + jobs_budget jobs.
Proof.
  destruct (run_jobs_shape jobs st) as (_ & _ & _ & _ & H).
  unfold run. destruct (run_jobs env self jobs st) as [[r sigs] st'].
  exact H.
Qed.

End RunFacts.

(** The mocked service never cancels. *)
Lemma mock_env_never_cancels oks slow : Ce.never_cancels (mock_env oks slow).
Proof.
  split; [reflexivity|]. intros log rq. cbn.
  destruct (existsb _ _); [discriminate|].
  destruct (String.eqb _ _); discriminate.
Qed.

Lemma probe_attempts_listed_witness :
  length (Ce.ce_log (snd sample_probe))
  = length (Ce.ce_log sample_state) + length (Ce.attempts sample_summary)
  /\ (forall a, a ∈ Ce.attempts sample_summary ->
        exists i ci,
          sample_compilers !! i = Some ci
          /\ a = Ce.mk_attempt "x86-64" "x86-64 gcc" "gcc" ci (Ce.code a)
                   (Ce.stderr_text a))
  /\ (forall a, Ce.highest_supported sample_summary = Some a
                \/ Ce.lowest_supported sample_summary = Some a
                \/ Ce.first_failure sample_summary = Some a ->
                a ∈ Ce.attempts sample_summary).
Proof.
  apply (probe_attempts_listed (mock_env first_six "") sample_worker
           "x86-64" "x86-64 gcc" "gcc" sample_compilers sample_state
           (snd sample_probe) sample_summary).
  vm_compute. reflexivity.
Defined.

Lemma probe_highest_is_newest_witness :
  exists c0,
    sample_compilers !! 0 = Some c0
    /\ Ce.mk_attempt "x86-64" "x86-64 gcc" "gcc" (sample_ci "15.2") 0 ""
       = Ce.mk_attempt "x86-64" "x86-64 gcc" "gcc" c0 0
           (Ce.stderr_text
              (Ce.mk_attempt "x86-64" "x86-64 gcc" "gcc" (sample_ci "15.2")
                 0 "")).
Proof.
  apply (probe_highest_is_newest (mock_env first_six "") sample_worker
           "x86-64" "x86-64 gcc" "gcc" sample_compilers sample_state
           (snd sample_probe) sample_summary).
  - vm_compute. reflexivity.
  - vm_compute. reflexivity.
Defined.

Lemma probe_boundary_adjacent_witness :
  exists i ci cj,
    sample_compilers !! i = Some ci /\ sample_compilers !! S i = Some cj
    /\ Ce.mk_attempt "x86-64" "x86-64 gcc" "gcc" (sample_ci "13.4") 0 ""
       = Ce.mk_attempt "x86-64" "x86-64 gcc" "gcc" ci 0
           (Ce.stderr_text
              (Ce.mk_attempt "x86-64" "x86-64 gcc" "gcc" (sample_ci "13.4")
                 0 ""))
    /\ Ce.mk_attempt "x86-64" "x86-64 gcc" "gcc" (sample_ci "13.3") 1
         "error: use of undeclared identifier"
       = Ce.mk_attempt "x86-64" "x86-64 gcc" "gcc" cj
           (Ce.code
              (Ce.mk_attempt "x86-64" "x86-64 gcc" "gcc" (sample_ci "13.3") 1
                 "error: use of undeclared identifier"))
           (Ce.stderr_text
              (Ce.mk_attempt "x86-64" "x86-64 gcc" "gcc" (sample_ci "13.3") 1
                 "error: use of undeclared identifier"))
    /\ Ce.code
         (Ce.mk_attempt "x86-64" "x86-64 gcc" "gcc" (sample_ci "13.3") 1
            "error: use of undeclared identifier") <> 0%Z.
Proof.
  apply (probe_boundary_adjacent (mock_env first_six "") sample_worker
           "x86-64" "x86-64 gcc" "gcc" sample_compilers sample_state
           (snd sample_probe) sample_summary).
  - vm_compute. reflexivity.
  - vm_compute. reflexivity.
  - vm_compute. reflexivity.
Defined.

Lemma probe_lowest_reported_witness :
  is_Some (Ce.lowest_supported sample_summary).
Proof.
  apply (probe_lowest_reported (mock_env first_six "") sample_worker
           "x86-64" "x86-64 gcc" "gcc" sample_compilers sample_state
           (snd sample_probe) sample_summary).
  - vm_compute. reflexivity.
  - vm_compute. reflexivity.
  - exists (Ce.mk_attempt "x86-64" "x86-64 gcc" "gcc" (sample_ci "15.2") 0 "").
    vm_compute. reflexivity.
Defined.

Lemma probe_completes_witness :
  exists s st',
    Ce._probe_group_binary (mock_env first_six "") sample_worker
      "x86-64" "x86-64 gcc" "gcc" sample_compilers sample_state
    = (Ce.Done s, st')
    /\ Ce.g_platform s = "x86-64" /\ Ce.g_series s = "x86-64 gcc"
    /\ Ce.g_compiler_type s = "gcc".
Proof.
  apply (probe_completes (mock_env first_six "") sample_worker
           "x86-64" "x86-64 gcc" "gcc" sample_compilers sample_state).
  apply mock_env_never_cancels.
Defined.

Lemma probe_cancelled_at_entry_witness :
  fst (Ce._probe_group_binary cancelled_env sample_worker
         "x86-64" "x86-64 gcc" "gcc" sample_compilers sample_state)
  = Ce.Cancelled
  /\ Ce.ce_log (snd (Ce._probe_group_binary cancelled_env sample_worker
                       "x86-64" "x86-64 gcc" "gcc" sample_compilers
                       sample_state))
     = Ce.ce_log sample_state.
Proof.
  apply (probe_cancelled_at_entry cancelled_env sample_worker
           "x86-64" "x86-64 gcc" "gcc" sample_compilers sample_state).
  - discriminate.
  - reflexivity.
Defined.

Lemma probe_single_candidate_witness :
  exists st',
    Ce._probe_group_binary (mock_env first_six "") sample_worker
      "x86-64" "x86-64 gcc" "gcc" [sample_ci "15.2"] sample_state
    = (Ce.Done
         (Ce.summary "x86-64" "x86-64 gcc" "gcc"
            (Some (Ce.mk_attempt "x86-64" "x86-64 gcc" "gcc"
                     (sample_ci "15.2") 0 ""))
            (Some (Ce.mk_attempt "x86-64" "x86-64 gcc" "gcc"
                     (sample_ci "15.2") 0 ""))
            None
            [Ce.mk_attempt "x86-64" "x86-64 gcc" "gcc" (sample_ci "15.2") 0 ""]
            None), st')
    /\ Ce.ce_log st'
       = Ce.request_for sample_worker "gcc"
           (Ce.user_args_of_group sample_worker "x86-64" "x86-64 gcc" "gcc")
           (sample_ci "15.2")
         :: Ce.ce_log sample_state.
Proof.
  apply (probe_single_candidate (mock_env first_six "") sample_worker
           "x86-64" "x86-64 gcc" "gcc" (sample_ci "15.2") sample_state "").
  - reflexivity.
  - reflexivity.
Defined.

Lemma run_completes_witness :
  exists sums,
    fst (Ce.run (mock_env first_six "") sample_worker sample_jobs sample_state)
    = (map Ce.group_done sums ++ [Ce.finished])%list
    /\ Forall2 Ce.summary_of_job sample_jobs sums.
Proof.
  apply (run_completes (mock_env first_six "") sample_worker sample_jobs
           sample_state).
  apply mock_env_never_cancels.
Defined.

(** ** The include flattener ([flatten_user_includes]) *)

Section FlattenFacts.
Import PyStr Preprocess.
Context (fs : FileSystem) (opts : Options) (global_search : list Path).

Local Abbreviation flatten_file := (_flatten_file fs opts global_search).
Local Abbreviation flatten_lines := (Preprocess.flatten_lines fs opts global_search).
Local Abbreviation resolve_include := (_resolve_include fs global_search).

(** A resolved include is an existing file. *)
Lemma resolve_include_is_file name p q :
  resolve_include name p = Some q -> is_file fs q = true.
Proof.
  unfold _resolve_include.
  destruct (exists_file fs _) eqn:E.
  - intros [= <-]. exact E.
  - intros H. apply find_some in H as [_ H]. exact H.
Qed.

(** A file that is on the stack is not entered again: its text is empty
    (or the cycle marker) and nothing changes. *)
Lemma flatten_file_on_stack fuel p st :
  norm_abs fs (expanduser fs p) ∈ stack st ->
  flatten_file (S fuel) p st = (FDone (cycle_text opts (expanduser fs p)), st).
Proof.
  intros H. cbn [_flatten_file]. rewrite bool_decide_eq_true_2 by exact H.
  reflexivity.
Qed.

(** With [inline_once], a file that was inlined before is not entered
    again either. *)
Lemma flatten_file_already_inlined fuel p st :
  inline_once opts = true ->
  norm_abs fs (expanduser fs p) ∉ stack st ->
  norm_abs fs (expanduser fs p) ∈ inlined st ->
  flatten_file (S fuel) p st
  = (FDone (duplicate_text opts (expanduser fs p)), st).
Proof.
  intros Ho Hs Hi. cbn [_flatten_file].
  rewrite bool_decide_eq_false_2 by exact Hs.
  rewrite Ho, bool_decide_eq_true_2 by exact Hi. reflexivity.
Qed.

Section Finite.
(** The files that exist are finitely many: their normalised paths all
    lie in [files]. *)
Context (files : gset string).
Context (Hfiles : forall p, is_file fs p = true ->
                            norm_abs fs (expanduser fs p) ∈ files).

Local Abbreviation room := (Preprocess.room files).

Lemma room_enter x st :
  x ∈ files -> x ∉ stack st -> room (enter x st) < room st.
Proof.
  intros Hx Hs. unfold Preprocess.room, enter. cbn [stack].
  assert (E : files ∖ list_to_set (stack st ++ [x])
              = (files ∖ list_to_set (stack st)) ∖ {[ x ]}).
  { apply set_eq. intros y.
    rewrite !elem_of_difference, elem_of_list_to_set, elem_of_app,
      elem_of_list_to_set, list_elem_of_singleton, elem_of_singleton.
    tauto. }
  assert (Hsub : ({[ x ]} : gset string) ⊆ files ∖ list_to_set (stack st)).
  { apply singleton_subseteq_l, elem_of_difference. split; [exact Hx|].
    rewrite elem_of_list_to_set. exact Hs. }
  rewrite E, size_difference by exact Hsub.
  apply subseteq_size in Hsub. rewrite size_singleton in *. lia.
Qed.

Lemma flatten_lines_returns rec p lines :
  forall line_no out st,
    (forall q st1, is_file fs q = true -> stack st1 = stack st ->
                   returns st1 (rec q st1)) ->
    returns st (flatten_lines rec p lines line_no out st).
Proof.
  induction lines as [|line rest IH]; intros line_no out st Hrec;
    cbn [Preprocess.flatten_lines]; [reflexivity|].
  destruct (strip_pragma_once opts && is_pragma_once line); [apply IH, Hrec|].
  destruct (match_include line) as [nm|]; [|apply IH, Hrec].
  destruct (resolve_include nm p) as [q|] eqn:Eq.
  - pose proof (Hrec q (count_inlined (count_seen st))
                  (resolve_include_is_file _ _ _ Eq) eq_refl) as Hq.
    destruct (rec q (count_inlined (count_seen st))) as [[text| |] st'];
      cbn in Hq; [|exact I|contradiction].
    specialize (IH (S line_no)
                  (append_if (emit_line_directives opts)
                     (line_directive (S line_no + 1) p)
                     (append_if (include_debug_comments opts)
                        (inlined_marker nm q) out ++ [text])) st').
    unfold returns in *.
    destruct (flatten_lines rec p rest _ _ st') as [[o| |] st2]; auto.
    + rewrite IH; [exact Hq|].
      intros q1 st1 Hf Hs. apply Hrec; [exact Hf|congruence].
    + apply IH. intros q1 st1 Hf Hs. apply Hrec; [exact Hf|congruence].
  - apply (IH (S line_no) (out ++ [line])%list (count_unresolved (count_seen st))).
    exact Hrec.
Qed.

(** Enough fuel: one unit per file not yet on the stack, and one more. *)
Lemma flatten_file_returns fuel :
  forall p st, is_file fs p = true -> room st < fuel ->
               returns st (flatten_file fuel p st).
Proof.
  induction fuel as [|fuel IH]; intros p st Hf Hroom; [lia|].
  cbn [_flatten_file].
  destruct (bool_decide _) eqn:Es; [reflexivity|].
  apply bool_decide_eq_false in Es.
  destruct (inline_once opts && bool_decide _); [reflexivity|].
  destruct (read_text fs (expanduser fs p)) as [src|]; [|exact I].
  pose proof (room_enter _ st (Hfiles _ Hf) Es) as Hlt.
  pose proof (flatten_lines_returns (flatten_file fuel) (expanduser fs p)
                (splitlines src) 0
                (append_if (emit_line_directives opts)
                   (line_directive 1 (expanduser fs p))
                   (append_if (include_debug_comments opts)
                      (begin_marker (expanduser fs p)) []))
                (enter (norm_abs fs (expanduser fs p)) st)) as Hl.
  unfold returns in *.
  destruct (flatten_lines _ _ _ _ _ _) as [[out| |] st'].
  - cbn [leave stack]. rewrite Hl.
    + cbn [enter stack]. apply removelast_last.
    + intros q st1 Hq Hs. apply IH; [exact Hq|].
      unfold Preprocess.room in *. rewrite Hs. lia.
  - exact I.
  - apply Hl. intros q st1 Hq Hs. apply IH; [exact Hq|].
    unfold Preprocess.room in *. rewrite Hs. lia.
Qed.

(** More fuel than needed changes nothing. *)
Lemma flatten_lines_more_fuel rec1 rec2 p lines :
  (forall q st1, fst (rec1 q st1) <> FOutOfFuel -> rec2 q st1 = rec1 q st1) ->
  forall line_no out st,
    fst (flatten_lines rec1 p lines line_no out st) <> FOutOfFuel ->
    flatten_lines rec2 p lines line_no out st
    = flatten_lines rec1 p lines line_no out st.
Proof.
  intros Hrec. induction lines as [|line rest IH]; intros line_no out st;
    cbn [Preprocess.flatten_lines]; [reflexivity|].
  destruct (strip_pragma_once opts && is_pragma_once line); [apply IH|].
  destruct (match_include line) as [nm|]; [|apply IH].
  destruct (resolve_include nm p) as [q|]; [|apply IH].
  specialize (Hrec q (count_inlined (count_seen st))).
  destruct (rec1 q (count_inlined (count_seen st))) as [[text| |] st'];
    cbn [fst] in *.
  - rewrite Hrec by discriminate. apply IH.
  - rewrite Hrec by discriminate. reflexivity.
  - intros H. contradiction.
Qed.

Lemma flatten_file_more_fuel fuel :
  forall p st,
    fst (flatten_file fuel p st) <> FOutOfFuel ->
    flatten_file (S fuel) p st = flatten_file fuel p st.
Proof.
  induction fuel as [|fuel IH]; intros p st; [intros H; contradiction|].
  intros H. cbn [_flatten_file] in *.
  destruct (bool_decide _); [reflexivity|].
  destruct (inline_once opts && bool_decide _); [reflexivity|].
  destruct (read_text fs (expanduser fs p)) as [src|]; [|reflexivity].
  rewrite (flatten_lines_more_fuel (flatten_file fuel) (flatten_file (S fuel)));
    [reflexivity|exact IH|].
  destruct (flatten_lines _ _ _ _ _ _) as [[out| |] st']; cbn in *;
    [discriminate|discriminate|contradiction].
Qed.

Lemma flatten_file_fuel_irrelevant p st fuel extra :
  returns st (flatten_file fuel p st) ->
  flatten_file (extra + fuel) p st = flatten_file fuel p st.
Proof.
  intros H. induction extra as [|extra IH]; [reflexivity|].
  cbn [Nat.add]. rewrite flatten_file_more_fuel; [exact IH|].
  rewrite IH. unfold returns in H.
  destruct (flatten_file fuel p st) as [[t| |] st']; cbn;
    [discriminate|discriminate|contradiction].
Qed.

End Finite.

(** C8.  Let the existing files be finitely many (their normalised paths
    lie in [files]).  Then, whatever includes what (so also when A
    includes B and B includes A) and for both values of [inline_once],
    the flattening of a root file returns: with more fuel than there are
    files the recursion never runs out, the result does not depend on the
    fuel, and a normal return finds the stack empty again.  A file that
    is re-entered while on the stack contributes the empty text (the cycle
    marker when debug comments are on) and leaves the state as it is: no
    recursion into it. *)
Theorem flatten_user_includes_terminates (files : gset string)
    (root_file : Path) (fuel : nat) :
  (forall p, is_file fs p = true ->
             norm_abs fs (expanduser fs p) ∈ files) ->
  size files < fuel ->
  match flatten_user_includes fs opts global_search fuel root_file with
  | None => is_file fs (expanduser fs root_file) = false
  | Some (FOutOfFuel, _) => False
  | Some (FDone _, st) => stack st = []
  | Some (FRaised, _) => True
  end
  /\ flatten_user_includes fs opts global_search fuel root_file
     = flatten_user_includes fs opts global_search (S (size files)) root_file
  /\ forall depth p st,
       norm_abs fs (expanduser fs p) ∈ stack st ->
       flatten_file (S depth) p st
       = (FDone (if include_debug_comments opts
                 then cycle_marker (expanduser fs p) else EmptyString), st).
Proof.
  intros Hfiles Hfuel.
  assert (Hroom : room files initial_state <= size files).
  { unfold Preprocess.room. apply subseteq_size. apply subseteq_difference_l. reflexivity. }
  split; [|split].
  - unfold flatten_user_includes, exists_file.
    destruct (is_file fs (expanduser fs root_file)) eqn:Er; [|reflexivity].
    cbn [negb].
    pose proof (flatten_file_returns files Hfiles fuel _ initial_state Er
                  ltac:(lia)) as H.
    unfold returns in H.
    destruct (flatten_file fuel _ initial_state) as [[t| |] st']; auto.
  - unfold flatten_user_includes, exists_file.
    destruct (is_file fs (expanduser fs root_file)) eqn:Er; [|reflexivity].
    cbn [negb]. f_equal.
    replace fuel with ((fuel - S (size files)) + S (size files)) by lia.
    apply flatten_file_fuel_irrelevant.
    apply (flatten_file_returns files Hfiles); [exact Er|lia].
  - intros depth p st H. apply flatten_file_on_stack. exact H.
Qed.

(** *** Following the loop over the lines *)

Lemma startswith_include_not_pragma s :
  startswith "include" s = true -> startswith "pragma" s = false.
Proof.
  destruct s as [|c r]; [discriminate|]. cbn [startswith].
  destruct (Ascii.eqb_spec "i" c) as [<-|]; [reflexivity|discriminate].
Qed.

(** An include directive is not a pragma-once line. *)
Lemma include_not_pragma line nm :
  match_include line = Some nm -> is_pragma_once line = false.
Proof.
  unfold match_include, is_pragma_once.
  destruct (lstrip line) as [|c s2]; [discriminate|].
  destruct (Ascii.eqb_spec c "#") as [->|Hc].
  - destruct (startswith "include" (lstrip s2)) eqn:E; [|discriminate].
    rewrite (startswith_include_not_pragma _ E). reflexivity.
  - destruct c as [[] [] [] [] [] [] [] []]; try discriminate. contradiction.
Qed.

Lemma append_if_app b x (out l : list string) :
  append_if b x (out ++ l)%list = (out ++ append_if b x l)%list.
Proof. destruct b; cbn; [rewrite app_assoc|]; reflexivity. Qed.

Lemma flatten_lines_plain rec p ls rest :
  plain_lines ls ->
  forall line_no out st,
    flatten_lines rec p (ls ++ rest) line_no out st
    = flatten_lines rec p rest (length ls + line_no)
        (out ++ kept opts ls)%list st.
Proof.
  induction 1 as [|l ls Hl _ IH]; intros line_no out st.
  - cbn. rewrite app_nil_r. reflexivity.
  - cbn [app Preprocess.flatten_lines kept List.filter length].
    destruct (strip_pragma_once opts && is_pragma_once l); cbn [negb].
    + rewrite IH. f_equal. lia.
    + rewrite Hl, IH. rewrite <- app_assoc. cbn [app]. f_equal. lia.
Qed.

Lemma flatten_lines_include rec p line rest line_no out st nm q text st' :
  match_include line = Some nm ->
  resolve_include nm p = Some q ->
  rec q (count_inlined (count_seen st)) = (FDone text, st') ->
  flatten_lines rec p (line :: rest) line_no out st
  = flatten_lines rec p rest (S line_no)
      (out ++ include_pieces opts p (S line_no) nm q text)%list st'.
Proof.
  intros Hm Hr Hrec. cbn [Preprocess.flatten_lines].
  rewrite (include_not_pragma _ _ Hm), andb_false_r, Hm, Hr, Hrec.
  unfold include_pieces.
  destruct (emit_line_directives opts), (include_debug_comments opts);
    cbn [append_if app]; rewrite <- ?app_assoc; reflexivity.
Qed.

(** Entering a file that is neither on the stack nor skipped. *)
Lemma flatten_file_enter fuel p st src :
  norm_abs fs (expanduser fs p) ∉ stack st ->
  inline_once opts && bool_decide (norm_abs fs (expanduser fs p) ∈ inlined st)
  = false ->
  read_text fs (expanduser fs p) = Some src ->
  flatten_file (S fuel) p st
  = match flatten_lines (flatten_file fuel) (expanduser fs p)
            (splitlines src) 0 (file_head opts (expanduser fs p))
            (enter (norm_abs fs (expanduser fs p)) st) with
    | (FDone out, st') =>
        (FDone (join_pieces (out ++ file_tail opts (expanduser fs p))%list),
         leave st')
    | (FRaised, st') => (FRaised, st')
    | (FOutOfFuel, st') => (FOutOfFuel, st')
    end.
Proof.
  intros Hs Hi Hr. cbn [_flatten_file].
  rewrite bool_decide_eq_false_2 by exact Hs. rewrite Hi, Hr.
  unfold file_head.
  destruct (flatten_lines _ _ _ _ _ _) as [[out| |] st']; try reflexivity.
  unfold file_tail, join_pieces.
  destruct (include_debug_comments opts); cbn [append_if];
    rewrite ?app_nil_r; reflexivity.
Qed.

Lemma flatten_lines_plain_all rec p ls line_no out st :
  plain_lines ls ->
  flatten_lines rec p ls line_no out st
  = (FDone (out ++ kept opts ls)%list, st).
Proof.
  intros H. rewrite <- (app_nil_r ls) at 1.
  rewrite flatten_lines_plain by exact H. reflexivity.
Qed.

(** A file without includes flattens to its head, its lines and its
    tail. *)
Lemma flatten_leaf fuel q lines st :
  includes_nothing fs (expanduser fs q) lines ->
  norm_abs fs (expanduser fs q) ∉ stack st ->
  norm_abs fs (expanduser fs q) ∉ inlined st ->
  flatten_file (S fuel) q st
  = (FDone (leaf_text opts (expanduser fs q) lines),
     leave (enter (norm_abs fs (expanduser fs q)) st)).
Proof.
  intros (src & Hr & Hs & Hp) Hst Hin.
  rewrite (flatten_file_enter _ _ _ src); [|exact Hst| |exact Hr].
  2:{ rewrite bool_decide_eq_false_2 by exact Hin. apply andb_false_r. }
  rewrite Hs, flatten_lines_plain_all by exact Hp.
  unfold leaf_text. rewrite <- app_assoc. reflexivity.
Qed.

(** A file with one include, given what the included file flattens to. *)
Lemma flatten_once fuel q pre line nm r post text st st' :
  includes_once fs global_search (expanduser fs q) pre line nm r post ->
  norm_abs fs (expanduser fs q) ∉ stack st ->
  norm_abs fs (expanduser fs q) ∉ inlined st ->
  flatten_file fuel r
    (count_inlined (count_seen (enter (norm_abs fs (expanduser fs q)) st)))
  = (FDone text, st') ->
  flatten_file (S fuel) q st
  = (FDone (once_text opts (expanduser fs q) pre nm r text post), leave st').
Proof.
  intros (src & Hr & Hs & Hp1 & Hp2 & Hm & Hres) Hst Hin Hrec.
  rewrite (flatten_file_enter _ _ _ src); [|exact Hst| |exact Hr].
  2:{ rewrite bool_decide_eq_false_2 by exact Hin. apply andb_false_r. }
  rewrite Hs, flatten_lines_plain by exact Hp1.
  rewrite (flatten_lines_include _ _ _ _ _ _ _ _ _ _ _ Hm Hres Hrec).
  rewrite flatten_lines_plain_all by exact Hp2.
  unfold once_text. rewrite Nat.add_0_r, <- !app_assoc. reflexivity.
Qed.

Section Diamond.
Context (root qB qC qD qD' : Path).
Context (preR midR postR preB postB preC postC linesD : list string).
Context (lB lC lDB lDC nB nC nDB nDC : string).

(** The paths as [_flatten_file] sees them. *)
Local Abbreviation pR := (expanduser fs (expanduser fs root)).
Local Abbreviation pB := (expanduser fs qB).
Local Abbreviation pC := (expanduser fs qC).
Local Abbreviation pD := (expanduser fs qD).
Local Abbreviation pD' := (expanduser fs qD').

(** C9.  Take a diamond: the root file includes B and C (among plain
    lines), B and C each include D (by paths that normalise to the same
    file), D includes nothing, and the four files are distinct.  With
    [inline_once], the flattened text of the root holds the text of D
    once, where B includes it; where C includes it there is the empty
    text (the duplicate marker when debug comments are on).  Four files
    are counted as inlined. *)
Theorem flatten_diamond_inlines_once (fuel : nat) :
  inline_once opts = true ->
  is_file fs (expanduser fs root) = true ->
  NoDup [norm_abs fs pR; norm_abs fs pB; norm_abs fs pC; norm_abs fs pD] ->
  norm_abs fs pD' = norm_abs fs pD ->
  includes_twice fs global_search pR preR lB nB qB midR lC nC qC postR ->
  includes_once fs global_search pB preB lDB nDB qD postB ->
  includes_once fs global_search pC preC lDC nDC qD' postC ->
  includes_nothing fs pD linesD ->
  3 <= fuel ->
  exists st,
    flatten_user_includes fs opts global_search fuel root
    = Some (FDone
              (twice_text opts pR preR
                 nB qB (once_text opts pB preB nDB qD
                          (leaf_text opts pD linesD) postB)
                 midR
                 nC qC (once_text opts pC preC nDC qD'
                          (duplicate_text opts pD') postC)
                 postR), st)
    /\ files_inlined st = 4
    /\ stack st = [].
Proof.
  intros Hio Hroot Hnd Hsame HR HB HC HD Hfuel.
  destruct fuel as [|[|[|fuel]]]; try lia.
  inversion Hnd as [|? ? HnR Hnd1]; subst.
  inversion Hnd1 as [|? ? HnB Hnd2]; subst.
  inversion Hnd2 as [|? ? HnC _]; subst.
  apply not_elem_of_cons in HnR as [HRB HnR].
  apply not_elem_of_cons in HnR as [HRC HnR].
  apply not_elem_of_cons in HnR as [HRD _].
  apply not_elem_of_cons in HnB as [HBC HnB].
  apply not_elem_of_cons in HnB as [HBD _].
  apply not_elem_of_cons in HnC as [HCD _].
  unfold flatten_user_includes, exists_file. rewrite Hroot. cbn [negb].
  destruct HR as (src & Hr & Hs & Hp1 & Hp2 & Hp3 & HmB & HrB & HmC & HrC).
  rewrite (flatten_file_enter _ _ _ src);
    [|apply not_elem_of_nil|apply andb_false_r|exact Hr].
  rewrite Hs, flatten_lines_plain by exact Hp1.
  (* B, and D inside it *)
  erewrite flatten_lines_include; [|exact HmB|exact HrB|].
  2:{ eapply flatten_once; [exact HB|..].
      - cbn. rewrite not_elem_of_cons. split; [congruence|apply not_elem_of_nil].
      - cbn. rewrite elem_of_union, elem_of_singleton, elem_of_empty. intuition.
      - eapply flatten_leaf; [exact HD|..].
        + cbn. rewrite !not_elem_of_cons.
          repeat split; try congruence. apply not_elem_of_nil.
        + cbn. rewrite !elem_of_union, !elem_of_singleton, elem_of_empty.
          intuition. }
  rewrite flatten_lines_plain by exact Hp2.
  (* C, where D is skipped *)
  erewrite flatten_lines_include; [|exact HmC|exact HrC|].
  2:{ eapply flatten_once; [exact HC|..].
      - cbn. rewrite not_elem_of_cons. split; [congruence|apply not_elem_of_nil].
      - cbn. rewrite !elem_of_union, !elem_of_singleton, elem_of_empty.
        intuition.
      - apply flatten_file_already_inlined; [exact Hio| |].
        + rewrite Hsame. cbn. rewrite !not_elem_of_cons.
          repeat split; try congruence. apply not_elem_of_nil.
        + rewrite Hsame. cbn.
          rewrite !elem_of_union, !elem_of_singleton. auto. }
  rewrite flatten_lines_plain_all by exact Hp3.
  eexists. split.
  { unfold twice_text. rewrite Nat.add_0_r, <- !app_assoc. reflexivity. }
  split; reflexivity.
Qed.

End Diamond.

End FlattenFacts.

Lemma cycle_fs_files p :
  Preprocess.is_file cycle_fs p = true ->
  Preprocess.norm_abs cycle_fs (Preprocess.expanduser cycle_fs p)
  ∈ ({[ "a.h"; "b.h" ]} : gset string).
Proof.
  intros H.
  change (String.eqb "a.h" p || (String.eqb "b.h" p || false) = true) in H.
  change (p ∈ ({[ "a.h"; "b.h" ]} : gset string)).
  destruct (String.eqb_spec "a.h" p) as [E|_];
    [apply elem_of_union_l, elem_of_singleton; symmetry; exact E|].
  destruct (String.eqb_spec "b.h" p) as [E|_]; [|discriminate H].
  apply elem_of_union_r, elem_of_singleton. symmetry. exact E.
Qed.

Lemma flatten_user_includes_terminates_witness :
  (fst <$> Preprocess.flatten_user_includes cycle_fs (plain_options true) []
             3 "a.h"
   = Some (Preprocess.FDone (text_line "int b;" ++ text_line "int a;")))
  /\ (fst <$> Preprocess.flatten_user_includes cycle_fs (plain_options false) []
                3 "a.h"
      = Some (Preprocess.FDone (text_line "int b;" ++ text_line "int a;")))
  /\ Preprocess.flatten_user_includes cycle_fs (plain_options true) [] 7 "a.h"
     = Preprocess.flatten_user_includes cycle_fs (plain_options true) []
         (S (size ({[ "a.h"; "b.h" ]} : gset string))) "a.h"
  /\ Preprocess.flatten_user_includes cycle_fs (plain_options false) [] 7 "a.h"
     = Preprocess.flatten_user_includes cycle_fs (plain_options false) []
         (S (size ({[ "a.h"; "b.h" ]} : gset string))) "a.h".
Proof.
  split; [vm_compute; reflexivity|]. split; [vm_compute; reflexivity|].
  assert (Hsize : size ({[ "a.h"; "b.h" ]} : gset string) < 7)
    by (vm_compute; lia).
  split.
  - apply (flatten_user_includes_terminates cycle_fs (plain_options true) []
             {[ "a.h"; "b.h" ]} "a.h" 7 cycle_fs_files Hsize).
  - apply (flatten_user_includes_terminates cycle_fs (plain_options false) []
             {[ "a.h"; "b.h" ]} "a.h" 7 cycle_fs_files Hsize).
Defined.

Lemma flatten_diamond_inlines_once_witness :
  exists st,
    Preprocess.flatten_user_includes diamond_fs (plain_options true) [] 3
      "r.cpp"
    = Some (Preprocess.FDone
              (Preprocess.twice_text (plain_options true) "r.cpp" []
                 "b.h" "b.h"
                 (Preprocess.once_text (plain_options true) "b.h"
                    [text_line "#pragma once"] "d.h" "d.h"
                    (Preprocess.leaf_text (plain_options true) "d.h"
                       [text_line "#pragma once"; text_line "int d = 1;"])
                    [text_line "int b = d;"])
                 []
                 "c.h" "c.h"
                 (Preprocess.once_text (plain_options true) "c.h"
                    [text_line "#pragma once"] "d.h" "d.h"
                    (Preprocess.duplicate_text (plain_options true) "d.h")
                    [text_line "int c = d;"])
                 [text_line "int main() { return b + c; }"]), st)
    /\ Preprocess.files_inlined st = 4
    /\ Preprocess.stack st = [].
Proof.
  apply (flatten_diamond_inlines_once diamond_fs (plain_options true) []
           "r.cpp" "b.h" "c.h" "d.h" "d.h"
           [] [] [text_line "int main() { return b + c; }"]
           [text_line "#pragma once"] [text_line "int b = d;"]
           [text_line "#pragma once"] [text_line "int c = d;"]
           [text_line "#pragma once"; text_line "int d = 1;"]
           (include_line "b.h") (include_line "c.h")
           (include_line "d.h") (include_line "d.h")
           "b.h" "c.h" "d.h" "d.h" 3).
  - reflexivity.
  - reflexivity.
  - apply (bool_decide_unpack _). vm_compute. exact I.
  - reflexivity.
  - eexists. repeat split; try reflexivity; repeat constructor.
  - eexists. repeat split; try reflexivity; repeat constructor.
  - eexists. repeat split; try reflexivity; repeat constructor.
  - eexists. repeat split; try reflexivity; repeat constructor.
  - lia.
Defined.

(** The diamond, flattened: the text of d.h appears once. *)
Example flatten_diamond_text :
  fst <$> Preprocess.flatten_user_includes diamond_fs (plain_options true) []
            3 "r.cpp"
  = Some (Preprocess.FDone
            (text_line "int d = 1;" ++ text_line "int b = d;"
             ++ text_line "int c = d;"
             ++ text_line "int main() { return b + c; }")).
Proof. vm_compute. reflexivity. Qed.

(** Without [inline_once] it appears twice. *)
Example flatten_diamond_text_twice :
  fst <$> Preprocess.flatten_user_includes diamond_fs (plain_options false) []
            3 "r.cpp"
  = Some (Preprocess.FDone
            (text_line "int d = 1;" ++ text_line "int b = d;"
             ++ text_line "int d = 1;" ++ text_line "int c = d;"
             ++ text_line "int main() { return b + c; }")).
Proof. vm_compute. reflexivity. Qed.

(** ** More on the flattener: the statistics *)

Section FlattenMore.
Import PyStr Preprocess.
Context (fs : FileSystem) (opts : Options) (global_search : list Path).

Local Abbreviation flatten_file := (_flatten_file fs opts global_search).
Local Abbreviation flatten_lines := (Preprocess.flatten_lines fs opts global_search).
Local Abbreviation resolve_include := (_resolve_include fs global_search).
Local Abbreviation flatten_user_includes :=
  (Preprocess.flatten_user_includes fs opts global_search).
Local Abbreviation unresolved_lines :=
  (Preprocess.unresolved_lines fs global_search).

Lemma flatten_lines_counters rec p :
  (forall q st r st', rec q st = (r, st') -> counters_agree st st') ->
  forall lines line_no out st r st',
    flatten_lines rec p lines line_no out st = (r, st') ->
    counters_agree st st'.
Proof.
  intros Hrec lines.
  induction lines as [|line rest IH]; intros line_no out st r st'.
  - intros [= <- <-]. reflexivity.
  - cbn [Preprocess.flatten_lines].
    destruct (strip_pragma_once opts && is_pragma_once line); [apply IH|].
    destruct (match_include line) as [nm|]; [|apply IH].
    destruct (resolve_include nm p) as [q|].
    + destruct (rec q (count_inlined (count_seen st))) as [[text| |] st1] eqn:Er;
        pose proof (Hrec _ _ _ _ Er) as H1; unfold counters_agree in *;
        cbn in H1.
      * intros E. pose proof (IH _ _ _ _ _ E). lia.
      * intros [= <- <-]. lia.
      * intros [= <- <-]. lia.
    + intros E. pose proof (IH _ _ _ _ _ E) as H1.
      unfold counters_agree in *. cbn in H1. lia.
Qed.

Lemma flatten_file_counters fuel :
  forall p st r st',
    flatten_file fuel p st = (r, st') -> counters_agree st st'.
Proof.
  induction fuel as [|fuel IH]; intros p st r st'; cbn [_flatten_file].
  - intros [= <- <-]. reflexivity.
  - destruct (bool_decide _); [intros [= <- <-]; reflexivity|].
    destruct (inline_once opts && bool_decide _);
      [intros [= <- <-]; reflexivity|].
    destruct (read_text fs _); [|intros [= <- <-]; reflexivity].
    destruct (flatten_lines _ _ _ _ _ _) as [[out| |] st1] eqn:El;
      pose proof (flatten_lines_counters _ _ IH _ _ _ _ _ _ El) as H;
      intros [= <- <-]; exact H.
Qed.

(** X16.  The include counters of the returned statistics are consistent:
    every include line seen was either inlined or left unresolved. *)
Theorem flatten_counters_agree (fuel : nat) (root : Path) :
  match flatten_user_includes fuel root with
  | Some (_, st') =>
      include_lines_seen st'
      = include_lines_inlined st' + include_lines_unresolved st'
  | None => True
  end.
Proof.
  unfold Preprocess.flatten_user_includes.
  destruct (negb _); [exact I|].
  destruct (flatten_file fuel _ _) as [r st'] eqn:E.
  pose proof (flatten_file_counters _ _ _ _ _ E) as H.
  unfold counters_agree in H. cbn in H. lia.
Qed.

Lemma flatten_lines_files rec p :
  (forall q st r st', files_counted st -> rec q st = (r, st') ->
                      files_counted st') ->
  forall lines line_no out st r st',
    files_counted st ->
    flatten_lines rec p lines line_no out st = (r, st') ->
    files_counted st'.
Proof.
  intros Hrec lines.
  induction lines as [|line rest IH]; intros line_no out st r st' Hc.
  - intros [= <- <-]. exact Hc.
  - cbn [Preprocess.flatten_lines].
    destruct (strip_pragma_once opts && is_pragma_once line);
      [apply IH, Hc|].
    destruct (match_include line) as [nm|]; [|apply IH, Hc].
    destruct (resolve_include nm p) as [q|];
      [|apply (IH _ _ (count_unresolved (count_seen st))), Hc].
    destruct (rec q (count_inlined (count_seen st))) as [[text| |] st1] eqn:Er;
      pose proof (Hrec _ (count_inlined (count_seen st)) _ _ Hc Er) as H1.
    + apply IH, H1.
    + intros [= <- <-]. exact H1.
    + intros [= <- <-]. exact H1.
Qed.

Lemma flatten_file_files fuel :
  inline_once opts = true ->
  forall p st r st',
    files_counted st -> flatten_file fuel p st = (r, st') ->
    files_counted st'.
Proof.
  intros Ho. induction fuel as [|fuel IH]; intros p st r st' Hc;
    cbn [_flatten_file].
  - intros [= <- <-]. exact Hc.
  - destruct (bool_decide _); [intros [= <- <-]; exact Hc|].
    rewrite Ho. cbn [andb].
    destruct (bool_decide_reflect
                (norm_abs fs (expanduser fs p) ∈ inlined st)) as [Hin|Hin];
      [intros [= <- <-]; exact Hc|].
    assert (Hc1 : files_counted (enter (norm_abs fs (expanduser fs p)) st)).
    { unfold files_counted in *. cbn [files_inlined inlined enter].
      rewrite size_union by set_solver. rewrite size_singleton, Hc.
      reflexivity. }
    destruct (read_text fs _); [|intros [= <- <-]; exact Hc1].
    destruct (flatten_lines _ _ _ _ _ _) as [[out| |] st1] eqn:El;
      pose proof (flatten_lines_files _ _ IH _ _ _ _ _ _ Hc1 El) as H;
      intros [= <- <-]; exact H.
Qed.

(** X17.  With [inline_once], no file is read twice: the number of files
    inlined is the number of distinct files in the set of inlined
    files. *)
Theorem flatten_inline_once_reads_once (fuel : nat) (root : Path) :
  inline_once opts = true ->
  match flatten_user_includes fuel root with
  | Some (_, st') => files_inlined st' = size (inlined st')
  | None => True
  end.
Proof.
  intros Ho. unfold Preprocess.flatten_user_includes.
  destruct (negb _); [exact I|].
  destruct (flatten_file fuel _ _) as [r st'] eqn:E.
  eapply (flatten_file_files _ Ho); [|exact E]. reflexivity.
Qed.

Lemma concat_cons (x : string) (l : list string) :
  String.concat "" (x :: l) = x ++ String.concat "" l.
Proof.
  destruct l as [|y l]; cbn [String.concat].
  - symmetry. apply append_empty_r.
  - reflexivity.
Qed.

Lemma splitlines_nil s : splitlines s = [] -> s = "".
Proof.
  destruct s as [|c r]; [reflexivity|]. cbn [splitlines].
  destruct (is_line_break c).
  - destruct r as [|c' r']; [discriminate|].
    destruct (Ascii.eqb c CR && Ascii.eqb c' LF); discriminate.
  - destruct (splitlines r); discriminate.
Qed.

(** Joining the lines that [splitlines(True)] returns gives the text
    back. *)
Lemma concat_splitlines s : String.concat "" (splitlines s) = s.
Proof.
  remember (String.length s) as n eqn:En. revert s En.
  induction n as [n IH] using lt_wf_ind. intros s En.
  destruct s as [|c r]; [reflexivity|]. cbn [splitlines].
  destruct (is_line_break c).
  - destruct r as [|c' r']; [reflexivity|].
    destruct (Ascii.eqb c CR && Ascii.eqb c' LF).
    + rewrite concat_cons, (IH (String.length r')); [reflexivity| |reflexivity].
      subst n. cbn. lia.
    + rewrite concat_cons, (IH (String.length (String c' r')));
        [reflexivity| |reflexivity].
      subst n. cbn. lia.
  - pose proof (IH (String.length r) ltac:(subst n; cbn; lia) r eq_refl) as Hr.
    destruct (splitlines r) as [|l ls] eqn:El.
    + apply splitlines_nil in El. subst r. reflexivity.
    + rewrite concat_cons in *. rewrite append_cons, Hr. reflexivity.
Qed.

Lemma flatten_lines_unresolved rec p lines :
  strip_pragma_once opts = false ->
  unresolved_lines p lines ->
  forall line_no out st,
  exists st',
    flatten_lines rec p lines line_no out st = (FDone (out ++ lines)%list, st')
    /\ inlined st' = inlined st /\ stack st' = stack st
    /\ files_inlined st' = files_inlined st
    /\ include_lines_inlined st' = include_lines_inlined st
    /\ include_lines_seen st' + include_lines_unresolved st
       = include_lines_seen st + include_lines_unresolved st'.
Proof.
  intros Hs. induction 1 as [|l ls Hl _ IH]; intros line_no out st.
  - exists st. rewrite app_nil_r. repeat split; reflexivity.
  - cbn [Preprocess.flatten_lines]. rewrite Hs. cbn [andb].
    destruct (match_include l) as [nm|] eqn:Em.
    + rewrite (Hl nm eq_refl).
      destruct (IH (S line_no) (out ++ [l])%list
                  (count_unresolved (count_seen st)))
        as (st' & E & H1 & H2 & H3 & H4 & H5).
      exists st'. rewrite E, <- app_assoc. cbn in *.
      repeat split; try assumption. lia.
    + destruct (IH (S line_no) (out ++ [l])%list st)
        as (st' & E & H1 & H2 & H3 & H4 & H5).
      exists st'. rewrite E, <- app_assoc. cbn in *.
      repeat split; assumption.
Qed.

(** X18.  With pragma stripping, line directives and debug comments off, a
    root file none of whose quoted includes resolves is returned as it
    is, character for character; it is the only file read, no include
    is counted as inlined and every include seen is counted as
    unresolved. *)
Theorem flatten_without_includes (fuel : nat) (root : Path) (src : string) :
  strip_pragma_once opts = false ->
  emit_line_directives opts = false ->
  include_debug_comments opts = false ->
  is_file fs (expanduser fs root) = true ->
  read_text fs (expanduser fs (expanduser fs root)) = Some src ->
  unresolved_lines (expanduser fs (expanduser fs root)) (splitlines src) ->
  exists st',
    flatten_user_includes (S fuel) root = Some (FDone src, st')
    /\ files_inlined st' = 1
    /\ include_lines_inlined st' = 0
    /\ include_lines_unresolved st' = include_lines_seen st'.
Proof.
  intros Hs He Hd Hf Hr Hu. unfold Preprocess.flatten_user_includes.
  unfold exists_file. rewrite Hf. cbn [negb _flatten_file].
  rewrite bool_decide_eq_false_2 by (cbn; apply not_elem_of_nil).
  replace (bool_decide (_ ∈ inlined initial_state)) with false
    by (symmetry; apply bool_decide_eq_false_2; cbn; set_solver).
  rewrite andb_false_r, Hr, He, Hd. cbn [append_if].
  destruct (flatten_lines_unresolved (flatten_file fuel) _ _ Hs Hu 0 []
              (enter (norm_abs fs (expanduser fs (expanduser fs root)))
                 initial_state))
    as (st' & E & H1 & H2 & H3 & H4 & H5).
  rewrite E. cbn [app]. rewrite concat_splitlines.
  exists (leave st'). split; [reflexivity|]. cbn in *.
  repeat split; try assumption. lia.
Qed.

End FlattenMore.

(** ** Platforms and families ([cetest_models.py]) *)

Section ModelsFacts.
Import PyStr Models.

Lemma strip_empty_or s :
  is_empty (strip s) = false -> exists c r, strip s = String c r.
Proof. destruct (strip s) as [|c r]; [discriminate|eauto]. Qed.

Lemma normalize_platform_cases o :
  normalize_platform o = "unknown" \/ normalize_platform o = "x86-64"
  \/ normalize_platform o = "aarch64"
  \/ exists i,
       normalize_platform o = strip i
       /\ is_empty (strip i) = false
       /\ str_in (lower (strip i)) ["amd64"; "x86_64"; "x86-64"; "x64"] = false
       /\ str_in (lower (strip i)) ["arm64"] = false.
Proof.
  destruct o as [[|c0 r0]|]; [auto| |auto]. unfold normalize_platform.
  destruct (is_empty (strip (String c0 r0))) eqn:He; [auto|].
  destruct (str_in _ _) eqn:E1; [auto|].
  destruct (str_in (lower _) ["arm64"]) eqn:E2; [auto|].
  right. right. right. exists (String c0 r0). auto.
Qed.

(** X19.  Normalising a platform is idempotent: the result of
    [normalize_platform] is left unchanged by a second call. *)
Theorem normalize_platform_idempotent (instruction_set : option string) :
  normalize_platform (Some (normalize_platform instruction_set))
  = normalize_platform instruction_set.
Proof.
  destruct (normalize_platform_cases instruction_set)
    as [E|[E|[E|(i & E & He & E1 & E2)]]]; rewrite E; try reflexivity.
  destruct (strip_empty_or _ He) as (c & r & Es).
  unfold normalize_platform. rewrite Es. rewrite <- Es.
  rewrite strip_idem, He, E1, E2. reflexivity.
Qed.

Lemma str_in_singleton x y : str_in x [y] = true -> x = y.
Proof.
  unfold str_in. cbn [existsb]. rewrite orb_false_r. apply String.eqb_eq.
Qed.

Lemma normalize_family_token_mingw_only (token : string) :
  (normalize_family_token token = "mingw-gcc" ->
   lower (strip token) = "win32-mingw-gcc")
  /\ (normalize_family_token token = "mingw-clang" ->
      lower (strip token) = "win32-mingw-clang").
Proof.
  unfold normalize_family_token. set (ct := lower (strip token)).
  destruct (is_empty ct); [split; discriminate|].
  destruct (contains "nvc++" ct || contains "nvhpc" ct);
    [split; discriminate|].
  destruct (str_in ct ["clang-intel"]); [split; discriminate|].
  destruct (str_in ct ["clang-cl"]); [split; discriminate|].
  destruct (str_in ct ["win32-mingw-gcc"]) eqn:E1.
  { split; [intros _; apply str_in_singleton, E1|discriminate]. }
  destruct (str_in ct ["win32-mingw-clang"]) eqn:E2.
  { split; [discriminate|intros _; apply str_in_singleton, E2]. }
  destruct (str_in ct ["win32-vc"]); [split; discriminate|].
  destruct (contains "icpx" ct); [split; discriminate|].
  destruct (contains "icx" ct); [split; discriminate|].
  destruct (contains "icc" ct); [split; discriminate|].
  destruct (contains "gcc" ct || contains "g++" ct
            || str_in ct ["gpp"; "gxx"; "gnu"]) eqn:Eg;
    [split; discriminate|].
  destruct (contains "clang" ct) eqn:Ec; [split; discriminate|].
  apply orb_false_iff in Eg as [Eg _]. apply orb_false_iff in Eg as [Eg _].
  rewrite Eg, !andb_false_r.
  destruct (contains "msvc" ct || contains "visual" ct
            || str_in ct ["cl"; "vc"]); [split; discriminate|].
  cbn [orb]. destruct (contains "intel" ct); [split; discriminate|].
  split; intros E.
  - rewrite E in Eg. vm_compute in Eg. discriminate.
  - rewrite E in Ec. vm_compute in Ec. discriminate.
Qed.

(** X20.  [normalize_family_token] yields the MinGW families for the two
    exact aliases and for nothing else: the result is "mingw-gcc"
    exactly when the stripped, lowered token is "win32-mingw-gcc", and
    "mingw-clang" exactly when it is "win32-mingw-clang"; any other
    token that mentions gcc or clang, MinGW or not, is classified
    before the later MinGW tests are reached. *)
Theorem normalize_family_token_mingw (token : string) :
  (normalize_family_token token = "mingw-gcc"
   <-> lower (strip token) = "win32-mingw-gcc")
  /\ (normalize_family_token token = "mingw-clang"
      <-> lower (strip token) = "win32-mingw-clang").
Proof.
  destruct (normalize_family_token_mingw_only token) as [H1 H2].
  split; (split; [assumption|]); intros E;
    unfold normalize_family_token; rewrite E; reflexivity.
Qed.

(** [normalize_family_token] never returns an empty family. *)
Theorem normalize_family_token_nonempty (token : string) :
  is_empty (normalize_family_token token) = false.
Proof.
  unfold normalize_family_token. set (ct := lower (strip token)).
  destruct (is_empty ct) eqn:E; [reflexivity|].
  repeat match goal with
         | |- is_empty (if ?b then _ else _) = false =>
             destruct b; [reflexivity|]
         end.
  exact E.
Qed.

End ModelsFacts.

(** ** HTML escaping ([_escape_html]) *)

Section CoreFacts.
Import PyStr Core.

Lemma replace_char_clears a b s :
  all_chars (fun c => negb (Ascii.eqb c a)) b = true ->
  all_chars (fun c => negb (Ascii.eqb c a)) (replace_char a b s) = true.
Proof.
  intros Hb. induction s as [|c r IH]; [reflexivity|]. cbn [replace_char].
  destruct (Ascii.eqb c a) eqn:E.
  - rewrite all_chars_app, Hb, IH. reflexivity.
  - cbn [all_chars]. rewrite E, IH. reflexivity.
Qed.

Lemma replace_char_keeps f a b s :
  all_chars f b = true -> all_chars f s = true ->
  all_chars f (replace_char a b s) = true.
Proof.
  intros Hb. induction s as [|c r IH]; [reflexivity|]. cbn [replace_char all_chars].
  intros [Hc Hr]%andb_true_iff. destruct (Ascii.eqb c a).
  - rewrite all_chars_app, Hb, (IH Hr). reflexivity.
  - cbn [all_chars]. rewrite Hc, (IH Hr). reflexivity.
Qed.

Lemma no_markup_intro s :
  all_chars (fun c => negb (Ascii.eqb c "<")) s = true ->
  all_chars (fun c => negb (Ascii.eqb c ">")) s = true ->
  all_chars (fun c => negb (Ascii.eqb c (ascii_of_nat 34))) s = true ->
  all_chars (fun c => negb (Ascii.eqb c "'")) s = true ->
  all_chars (fun c => negb (is_markup c)) s = true.
Proof.
  induction s as [|c r IH]; [reflexivity|]. cbn [all_chars].
  intros [H1 R1]%andb_true_iff [H2 R2]%andb_true_iff [H3 R3]%andb_true_iff
    [H4 R4]%andb_true_iff.
  rewrite (IH R1 R2 R3 R4), andb_true_r. unfold is_markup.
  apply negb_true_iff in H1, H2, H3, H4. rewrite H1, H2, H3, H4.
  reflexivity.
Qed.

(** X21.  Escaped text is free of markup: the result of [_escape_html]
    contains no [<], no [>], no double quote and no single quote. *)
Theorem escape_html_no_markup (s : string) :
  all_chars (fun c => negb (is_markup c)) (_escape_html s) = true.
Proof.
  unfold _escape_html.
  set (s1 := replace_char "&" "&amp;" s).
  set (s2 := replace_char "<" "&lt;" s1).
  set (s3 := replace_char ">" "&gt;" s2).
  set (s4 := replace_char (ascii_of_nat 34) "&quot;" s3).
  assert (H2 : all_chars (fun c => negb (Ascii.eqb c "<")) s2 = true)
    by (apply replace_char_clears; reflexivity).
  assert (H3 : all_chars (fun c => negb (Ascii.eqb c ">")) s3 = true)
    by (apply replace_char_clears; reflexivity).
  assert (H4 : all_chars (fun c => negb (Ascii.eqb c (ascii_of_nat 34))) s4
               = true)
    by (apply replace_char_clears; reflexivity).
  apply no_markup_intro.
  - do 3 (apply replace_char_keeps; [reflexivity|]). exact H2.
  - do 2 (apply replace_char_keeps; [reflexivity|]). exact H3.
  - apply replace_char_keeps; [reflexivity|]. exact H4.
  - apply replace_char_clears. reflexivity.
Qed.

End CoreFacts.

(** ** Stored library rules ([_load_library_rules], [_save_library_rules]) *)

Section PrefsStoreFacts.
Import PyStr Prefs Report PrefsStore.
Context (repr_container : PyVal -> string).
Context (json_loads : string -> option PyVal).

Local Abbreviation rule_of_item := (PrefsStore.rule_of_item repr_container).
Local Abbreviation load :=
  (PrefsStore._load_library_rules repr_container json_loads).

Lemma str_in_scopes s :
  str_in s ["all"; "family"; "compiler"] = true ->
  s = "all" \/ s = "family" \/ s = "compiler".
Proof.
  unfold str_in. cbn [existsb]. rewrite orb_false_r.
  intros [H|[H|H]%orb_true_iff]%orb_true_iff; apply String.eqb_eq in H; auto.
Qed.

Lemma rule_of_item_clean it r :
  rule_of_item it = Some r -> rule_clean r = true.
Proof.
  destruct it as [| | | | |d]; try discriminate. cbn [PrefsStore.rule_of_item].
  set (sc := lower (strip _)). set (tg := strip _).
  set (li := _normalize_ce_library_id _).
  set (ve := _normalize_ce_library_version _).
  destruct (str_in sc ["all"; "family"; "compiler"]) eqn:Es; [|discriminate].
  cbn [negb]. destruct (is_empty li) eqn:El; [discriminate|].
  destruct (is_empty ve) eqn:Ev; [discriminate|]. cbn [orb].
  assert (Hli : strip li = li) by apply strip_idem.
  assert (Hve : strip ve = ve) by apply strip_idem.
  assert (Htg : strip tg = tg) by apply strip_idem.
  destruct (str_in_scopes _ Es) as [E|[E|E]]; rewrite E in *;
    cbn [String.eqb Ascii.eqb Bool.eqb str_in existsb andb orb].
  - intros [= <-]. unfold rule_clean. cbn [scope target lib_id version].
    rewrite El, Ev, Hli, Hve, !String.eqb_refl. reflexivity.
  - destruct (is_empty tg) eqn:Et; [discriminate|]. intros [= <-].
    unfold rule_clean. cbn [scope target lib_id version].
    rewrite El, Ev, Et, Hli, Hve, Htg, !String.eqb_refl. reflexivity.
  - destruct (is_empty tg) eqn:Et; [discriminate|]. intros [= <-].
    unfold rule_clean. cbn [scope target lib_id version].
    rewrite El, Ev, Et, Hli, Hve, Htg, !String.eqb_refl. reflexivity.
Qed.

Lemma keep_first_sub seen out r : r ∈ keep_first seen out -> r ∈ out.
Proof.
  revert seen. induction out as [|x out IH]; intros seen; cbn [keep_first].
  - intros []%elem_of_nil.
  - destruct (bool_decide (x ∈ seen)).
    + intros H. right. eapply IH, H.
    + intros [->|H]%elem_of_cons; [left|right; eapply IH, H].
Qed.

Lemma keep_first_fresh seen out r :
  r ∈ keep_first seen out -> r ∉ seen.
Proof.
  revert seen. induction out as [|x out IH]; intros seen; cbn [keep_first].
  - intros []%elem_of_nil.
  - destruct (bool_decide_reflect (x ∈ seen)) as [Hx|Hx].
    + apply IH.
    + intros [->|H]%elem_of_cons; [exact Hx|].
      apply IH in H. intros Hs. apply H. right. exact Hs.
Qed.

Lemma keep_first_NoDup seen out : NoDup (keep_first seen out).
Proof.
  revert seen. induction out as [|x out IH]; intros seen; cbn [keep_first].
  - constructor.
  - destruct (bool_decide (x ∈ seen)); [apply IH|].
    constructor; [|apply IH].
    intros H%keep_first_fresh. apply H. left.
Qed.

Lemma keep_first_id seen out :
  NoDup out -> (forall r, r ∈ out -> r ∉ seen) -> keep_first seen out = out.
Proof.
  revert seen. induction out as [|x out IH]; intros seen Hnd Hs; [reflexivity|].
  cbn [keep_first]. apply NoDup_cons in Hnd as [Hx Hnd].
  rewrite bool_decide_eq_false_2 by (apply Hs; left). f_equal.
  apply IH; [exact Hnd|].
  intros r Hr [->|H]%elem_of_cons; [contradiction|]. eapply Hs; [right|]; eauto.
Qed.

(** X22.  Every rule that [_load_library_rules] returns is well formed, and
    no rule is returned twice: the scope is one of "all", "family" and
    "compiler"; the library id and the version are non-empty and
    stripped; the target is empty for the scope "all" and a non-empty
    stripped text for the other two. *)
Theorem load_library_rules_clean (raw : PyVal) :
  NoDup (load raw) /\ forallb rule_clean (load raw) = true.
Proof.
  unfold PrefsStore._load_library_rules.
  destruct (match raw with VList _ => raw | _ => _ end) as [| | | |items|];
    try (split; [constructor|reflexivity]).
  split; [apply keep_first_NoDup|].
  apply forallb_forall. intros r Hr%list_elem_of_In%keep_first_sub.
  apply list_elem_of_omap in Hr as (it & _ & Hit).
  eapply rule_of_item_clean, Hit.
Qed.

Lemma rule_of_item_saved r :
  rule_clean r = true -> rule_of_item (saved_rule r) = Some r.
Proof.
  destruct r as [sc tg li ve]. unfold rule_clean. cbn [scope target lib_id version].
  intros H. apply andb_true_iff in H as [H Ht].
  apply andb_true_iff in H as [H Htg]. apply andb_true_iff in H as [H Hve].
  apply andb_true_iff in H as [H Hv]. apply andb_true_iff in H as [H Hli].
  apply andb_true_iff in H as [Hsc Hl].
  apply negb_true_iff in Hl, Hv.
  apply String.eqb_eq in Hli, Hve, Htg.
  assert (Hor : forall x d, is_empty x = false -> py_or (VStr x) d = VStr x).
  { intros x d Hx. unfold py_or. cbn [truthy]. rewrite Hx. reflexivity. }
  unfold saved_rule, PrefsStore.rule_of_item.
  cbn [get String.eqb Ascii.eqb Bool.eqb scope target lib_id version].
  rewrite !(Hor li), (Hor ve) by assumption. cbn [py_str].
  unfold _normalize_ce_library_id, _normalize_ce_library_version.
  rewrite Hli, Hve, Hl, Hv. cbn [orb].
  destruct (str_in_scopes _ Hsc) as [E|[E|E]]; subst sc;
    rewrite Hor by reflexivity;
    cbn [is_empty negb py_str String.eqb Ascii.eqb Bool.eqb] in *.
  - destruct tg; [|discriminate]. reflexivity.
  - destruct tg as [|c t]; [discriminate|]. rewrite Hor by reflexivity.
    cbn [py_str]. rewrite Htg. reflexivity.
  - destruct tg as [|c t]; [discriminate|]. rewrite Hor by reflexivity.
    cbn [py_str]. rewrite Htg. reflexivity.
Qed.

Lemma saved_rules_clean rules :
  forallb rule_clean rules = true ->
  omap rule_of_item (saved_rules rules) = rules.
Proof.
  unfold saved_rules. induction rules as [|r rules IH]; [reflexivity|].
  cbn [forallb List.filter]. intros [Hr Hrs]%andb_true_iff.
  assert (Hk : negb (is_empty (lib_id r)) && negb (is_empty (version r))
               && str_in (scope r) ["all"; "family"; "compiler"] = true).
  { unfold rule_clean in Hr.
    repeat (apply andb_true_iff in Hr as [Hr ?]).
    repeat (apply andb_true_iff; split); assumption. }
  rewrite Hk. cbn [map omap list_omap]. rewrite (rule_of_item_saved _ Hr).
  cbv iota. f_equal. exact (IH Hrs).
Qed.

(** X23.  What was loaded survives a save and a load: loading the list
    that [_save_library_rules] writes for the loaded rules returns
    these rules, in the same order. *)
Theorem load_saved_library_rules (raw : PyVal) :
  load (VList (saved_rules (load raw))) = load raw.
Proof.
  destruct (load_library_rules_clean raw) as [Hnd Hc].
  unfold PrefsStore._load_library_rules at 1.
  rewrite (saved_rules_clean _ Hc).
  apply keep_first_id; [exact Hnd|]. intros r _ []%elem_of_nil.
Qed.

End PrefsStoreFacts.

(** ** Stored selections ([_migrate_selected_group_keys]) *)

Section MigrateFacts.
Import PyStr Migrate.
Context (table : Table).

Local Abbreviation names_group := (Migrate.names_group table).

Lemma add_all_under_sound fam platform k :
  k ∈ add_all_under table fam platform -> names_group k.
Proof.
  unfold add_all_under. destruct platform as [p|].
  - intros Hk. apply elem_of_list_to_set in Hk.
    apply list_elem_of_fmap in Hk as (s & -> & Hs).
    apply list_elem_of_fmap in Hs as ([s' z] & -> & Hs).
    apply elem_of_map_to_list in Hs.
    destruct (table !! fam) as [bp|] eqn:E1;
      [|cbn in Hs; rewrite lookup_empty in Hs; discriminate].
    cbn [default from_option id] in Hs.
    destruct (bp !! p) as [bs|] eqn:E2;
      [|cbn in Hs; rewrite lookup_empty in Hs; discriminate].
    exists fam, p, s', bp, bs. cbn in Hs. rewrite Hs. eauto.
  - intros Hk. apply elem_of_list_to_set in Hk.
    apply list_elem_of_bind in Hk as ([p bs] & Hk & Hp).
    apply list_elem_of_fmap in Hk as (s & -> & Hs).
    apply list_elem_of_fmap in Hs as ([s' z] & -> & Hs).
    apply elem_of_map_to_list in Hs. apply elem_of_map_to_list in Hp.
    destruct (table !! fam) as [bp|] eqn:E1;
      [|cbn in Hp; rewrite lookup_empty in Hp; discriminate].
    exists fam, p, s', bp, bs. cbn in Hp. rewrite Hs. eauto.
Qed.

Lemma in_table_sound fam p s :
  in_table table fam p s = true -> names_group (group_key fam p s).
Proof.
  unfold in_table. intros H.
  destruct (table !! fam) as [bp|] eqn:E1; [|discriminate].
  destruct (bp !! p) as [bs|] eqn:E2; [|discriminate].
  apply bool_decide_eq_true in H. exists fam, p, s, bp, bs. auto.
Qed.

Lemma migrate_key_sound key k :
  k ∈ migrate_key table key -> names_group k.
Proof.
  unfold migrate_key.
  destruct (List.filter _ _) as [|f [|p [|x rest]]].
  - intros H. apply elem_of_empty in H. destruct H.
  - apply add_all_under_sound.
  - apply add_all_under_sound.
  - destruct (in_table _ _ _ _) eqn:E.
    + intros ->%elem_of_singleton. apply in_table_sound, E.
    + apply add_all_under_sound.
Qed.

(** X24.  Migration only ever selects groups that exist: every key it
    returns is [fam|platform|series] for a series listed in the table
    under that platform of that family. *)
Theorem migrate_selected_group_keys_sound (selected : gset string)
    (k : string) :
  k ∈ _migrate_selected_group_keys table selected -> names_group k.
Proof.
  unfold _migrate_selected_group_keys. intros H.
  apply elem_of_union_list in H as (X & HX & Hk).
  apply list_elem_of_fmap in HX as (key & -> & _).
  eapply migrate_key_sound, Hk.
Qed.

Lemma split_on_no_bar s : no_bar s = true -> split_on bar s = [s].
Proof.
  induction s as [|c r IH]; [reflexivity|]. unfold no_bar. cbn.
  intros [Hc Hr]%andb_true_iff. apply negb_true_iff in Hc.
  rewrite Hc. unfold no_bar in IH. rewrite (IH Hr). reflexivity.
Qed.

Lemma split_on_app a b :
  no_bar a = true ->
  split_on bar (a ++ String bar b) = a :: split_on bar b.
Proof.
  induction a as [|c r IH].
  - intros _. change ("" ++ String bar b) with (String bar b).
    cbn [split_on]. rewrite Ascii.eqb_refl. reflexivity.
  - unfold no_bar. cbn [all_chars].
    intros [Hc Hr]%andb_true_iff. apply negb_true_iff in Hc.
    rewrite append_cons. cbn [split_on]. rewrite Hc.
    unfold no_bar in IH. rewrite (IH Hr). reflexivity.
Qed.

(** X25.  A saved key that already names a group stays selected: when
    [fam], [platform] and [series] have no bar and no blank at either
    end, are not empty, [fam] is not one of the old short names, and
    the table lists the series, the key [fam|platform|series] is in the
    result whenever it is in the selection. *)
Theorem migrate_selected_group_keys_keeps (selected : gset string)
    (fam p s : string) :
  no_bar fam = true -> no_bar p = true -> no_bar s = true ->
  strip fam = fam -> strip p = p -> strip s = s ->
  is_empty fam = false -> is_empty p = false -> is_empty s = false ->
  fam <> "icx" -> fam <> "icc" ->
  in_table table fam p s = true ->
  group_key fam p s ∈ selected ->
  group_key fam p s ∈ _migrate_selected_group_keys table selected.
Proof.
  intros Bf Bp Bs Sf Sp Ss Ef Ep Es Hx Hc Hin Hsel.
  unfold _migrate_selected_group_keys.
  apply elem_of_union_list. exists (migrate_key table (group_key fam p s)).
  split.
  - apply list_elem_of_fmap. exists (group_key fam p s). split; [reflexivity|].
    apply elem_of_elements, Hsel.
  - unfold migrate_key.
    assert (E : split_on bar (group_key fam p s) = [fam; p; s]).
    { unfold group_key.
      change (fam ++ "|" ++ p ++ "|" ++ s)
        with (fam ++ String bar (p ++ String bar s)).
      rewrite (split_on_app _ _ Bf), (split_on_app _ _ Bp).
      rewrite (split_on_no_bar _ Bs). reflexivity. }
    rewrite E. cbn [map]. rewrite Sf, Sp, Ss. cbn [List.filter].
    rewrite Ef, Ep, Es. cbn [negb].
    assert (Ec : _canonicalize_saved_family fam = fam).
    { unfold _canonicalize_saved_family. rewrite Sf.
      destruct (String.eqb_spec fam "icx"); [contradiction|].
      destruct (String.eqb_spec fam "icc"); [contradiction|]. reflexivity. }
    rewrite Ec.
    assert (Ej : String.concat "|" [s] = s) by reflexivity.
    rewrite Ej, Hin. apply elem_of_singleton. reflexivity.
Qed.

End MigrateFacts.

(** ** The compile cache ([compile_cached]) *)

Section ClientFacts.
Import PyStr Prefs Ce Report Client.
Context (sha1_hex : string -> string).
Context (_request_json : list CompileRequest -> CompileRequest -> Outcome).

Local Abbreviation compile_cached :=
  (Client.compile_cached sha1_hex _request_json).
Local Abbreviation call := (Client.call sha1_hex _request_json).
Local Abbreviation calls := (Client.calls sha1_hex _request_json).

Lemma compile_cached_kept st cid src ua libs :
  cache_kept st (compile_cached st cid src ua libs).2.
Proof.
  unfold Client.compile_cached.
  destruct (libs_key libs) as [lk|]; [|intros k v H _; exact H].
  cbv zeta.
  destruct (negb (is_none (default VNone (_compile_cache st !! _)))) eqn:Eh.
  { intros k v H _. exact H. }
  destruct (_request_json _ _) as [resp|e]; intros k v H Hv; cbn; [|exact H].
  destruct (decide (k = (cid, ua, lk, sha1_hex src))) as [->|Hk].
  - rewrite H in Eh. cbn in Eh. rewrite Hv in Eh. discriminate.
  - rewrite lookup_insert_ne by congruence. exact H.
Qed.

Lemma calls_kept cs st : cache_kept st (calls st cs).
Proof.
  revert st. induction cs as [|c cs IH]; intros st; [intros k v H _; exact H|].
  cbn [Client.calls fold_left]. intros k v H Hv.
  apply (IH (call st c).2); [|exact Hv].
  destruct c as [[[cid src] ua] libs]. apply compile_cached_kept; assumption.
Qed.

Lemma no_libraries_key libs :
  no_libraries libs = true -> libs_key libs = Some [].
Proof. destruct libs as [[|l ls]|]; [reflexivity|discriminate|reflexivity]. Qed.

(** X26.  A compile response other than [None] is remembered for calls
    made without libraries: once [compile_cached] has returned it, then
    after any further calls a call with the same compiler, arguments and
    source and without libraries ([None] or an empty list) returns the
    same response without a request. *)
Theorem compile_cached_memo (st st1 : ClientState)
    (cid src ua : string) (libs libs' : option (list Library)) (v : PyVal)
    (cs : list Call) :
  compile_cached st cid src ua libs = (Returned v, st1) ->
  is_none v = false ->
  no_libraries libs' = true ->
  compile_cached (calls st1 cs) cid src ua libs'
  = (Returned v, calls st1 cs).
Proof.
  intros E Hv Hl.
  assert (H1 : _compile_cache st1 !! (cid, ua, [], sha1_hex src) = Some v).
  { unfold Client.compile_cached in E. cbv zeta in E.
    destruct libs as [[|l ls]|]; cbn [libs_key] in E; [|discriminate|].
    all: destruct (negb (is_none (default VNone (_compile_cache st !! _))))
           eqn:Eh;
      [ injection E as <- <-;
        destruct (_compile_cache st !! _) as [w|]; [reflexivity|discriminate]
      | destruct (_request_json _ _) as [resp|e]; [|discriminate];
        injection E as <- <-; cbn; apply lookup_insert_eq ]. }
  pose proof (calls_kept cs st1 _ _ H1 Hv) as H2.
  unfold Client.compile_cached. rewrite (no_libraries_key _ Hl). cbv zeta.
  rewrite H2. unfold default. cbn [from_option id]. rewrite Hv. reflexivity.
Qed.

End ClientFacts.

(** ** Retries and back-off ([_request_json]) *)

Section HttpFacts.
Import PyStr Report Http.
Context (w : World).

Local Abbreviation attempts := (Http.attempts w).





(** The state in which the connection is opened. *)
Lemma before_call_state st :
  never_aborted w ->
  exists st1 st0,
    abort_seen w st = (false, st1)
    /\ rate_wait w st1 = (None, st0)
    /\ url_calls st0 = url_calls st /\ slept st0 = slept st.
Proof.
  intros [Ha Hw]. unfold rate_wait, abort_seen.
  destruct (has_abort_event w).
  - exists (polled st), (waited (polled (polled st))).
    rewrite !Ha, Hw. auto.
  - exists st, (waited st). auto.
Qed.

Lemma sleep_wakes (q : Seconds) st :
  never_aborted w -> nanoseconds_fit q = true -> negative q = false ->
  _sleep_abortable w (Finite q) st = (Woke, sleeping (Finite q) st).
Proof.
  intros [Ha Hw] Hf Hq. unfold _sleep_abortable.
  rewrite Hw, Hf, Hq, andb_false_r. destruct (has_abort_event w); reflexivity.
Qed.

(** One failed attempt that is retried. *)
Lemma attempts_plain_retry a rest (backoff : Seconds) st :
  never_aborted w ->
  nanoseconds_fit backoff = true ->
  negative backoff = false ->
  (a =? max_retries - 1)%nat = false ->
  plain_failure (urlopen w (url_calls st)) = true ->
  exists st1,
    attempts (a :: rest) backoff st
    = attempts rest (next_backoff backoff) st1
    /\ url_calls st1 = S (url_calls st)
    /\ slept st1 = Finite backoff :: slept st.
Proof.
  intros Hn Hfit Hq Hl Hp. cbn [Http.attempts]. rewrite Hl.
  destruct (before_call_state st Hn) as (st1 & st0 & -> & E2 & Hu & Hs).
  cbv beta iota. rewrite E2, Hu. unfold retry_after.
  destruct (urlopen w (url_calls st)) as [raw|code [ra|]|msg|msg|msg|msg];
    try discriminate; cbn [plain_failure] in Hp; rewrite ?Hp;
    cbn [negb orb]; rewrite (sleep_wakes _ _ Hn Hfit Hq);
    eexists; (split; [reflexivity|]); cbn; rewrite Hu, Hs; auto.
Qed.

(** The last attempt, failed. *)
Lemma attempts_plain_last backoff st :
  never_aborted w ->
  plain_failure (urlopen w (url_calls st)) = true ->
  exists st1,
    attempts [max_retries - 1] backoff st
    = (NetRaises (raised_of (urlopen w (url_calls st))), st1)
    /\ url_calls st1 = S (url_calls st)
    /\ slept st1 = slept st.
Proof.
  intros Hn Hp. cbn [Http.attempts].
  destruct (before_call_state st Hn) as (st1 & st0 & -> & E2 & Hu & Hs).
  cbv beta iota. rewrite E2, Hu. change (max_retries - 1 =? max_retries - 1)%nat with true.
  destruct (urlopen w (url_calls st)) as [raw|code [ra|]|msg|msg|msg|msg];
    try discriminate; cbn [plain_failure] in Hp; rewrite ?orb_true_r;
    eexists; (split; [reflexivity|]); cbn; rewrite Hu, Hs; auto.
Qed.

(** X28.  When nobody aborts and six calls in a row fail in a way that is
    retried after the back-off (timeout, connection error, URL error,
    or a retryable HTTP status without Retry-After), [_request_json]
    makes exactly these six calls, sleeps 0.6, 1.2, 2.4, 4.8 and 6.0
    seconds between them, and raises the exception of the sixth call. *)
Theorem request_json_backoff_schedule (st : NetState) :
  never_aborted w ->
  (forall k, k < 6 -> plain_failure (urlopen w (url_calls st + k)) = true) ->
  exists st',
    _request_json w st
    = (NetRaises (raised_of (urlopen w (url_calls st + 5))), st')
    /\ url_calls st' = url_calls st + 6
    /\ slept st'
       = (Finite (QArith_base.Qmake 6 1) :: Finite (QArith_base.Qmake 48 10)
          :: Finite (QArith_base.Qmake 24 10)
          :: Finite (QArith_base.Qmake 12 10)
          :: Finite (QArith_base.Qmake 6 10) :: slept st).
Proof.
  intros Hn Hf. unfold _request_json. cbn [seq max_retries].
  assert (H0 := Hf 0 ltac:(lia)). assert (H1 := Hf 1 ltac:(lia)).
  assert (H2 := Hf 2 ltac:(lia)). assert (H3 := Hf 3 ltac:(lia)).
  assert (H4 := Hf 4 ltac:(lia)). assert (H5 := Hf 5 ltac:(lia)).
  rewrite Nat.add_0_r in H0.
  destruct (attempts_plain_retry 0 [1; 2; 3; 4; 5] first_backoff st Hn
              eq_refl eq_refl eq_refl H0) as (s1 & -> & U1 & S1).
  replace (url_calls st + 1) with (url_calls s1) in H1 by lia.
  destruct (attempts_plain_retry 1 [2; 3; 4; 5] (next_backoff first_backoff)
              s1 Hn eq_refl eq_refl eq_refl H1) as (s2 & -> & U2 & S2).
  replace (url_calls st + 2) with (url_calls s2) in H2 by lia.
  destruct (attempts_plain_retry 2 [3; 4; 5]
              (next_backoff (next_backoff first_backoff))
              s2 Hn eq_refl eq_refl eq_refl H2) as (s3 & -> & U3 & S3).
  replace (url_calls st + 3) with (url_calls s3) in H3 by lia.
  destruct (attempts_plain_retry 3 [4; 5]
              (next_backoff (next_backoff (next_backoff first_backoff)))
              s3 Hn eq_refl eq_refl eq_refl H3) as (s4 & -> & U4 & S4).
  replace (url_calls st + 4) with (url_calls s4) in H4 by lia.
  destruct (attempts_plain_retry 4 [5]
              (next_backoff
                 (next_backoff (next_backoff (next_backoff first_backoff))))
              s4 Hn eq_refl eq_refl eq_refl H4) as (s5 & -> & U5 & S5).
  replace (url_calls st + 5) with (url_calls s5) in * by lia.
  change [5] with [max_retries - 1].
  destruct (attempts_plain_last
              (next_backoff
                 (next_backoff
                    (next_backoff (next_backoff (next_backoff first_backoff)))))
              s5 Hn H5) as (s6 & -> & U6 & S6).
  exists s6. split; [reflexivity|]. split; [lia|].
  rewrite S6, S5, S4, S3, S2, S1. reflexivity.
Qed.

End HttpFacts.

(** ** The compiler listing ([list_compilers_cpp]) *)

Section ListingFacts.
Import PyStr Models Report Listing.
Context (repr_container : PyVal -> string).

(** X29.  Every compiler listed has an identifier, is a C++ compiler and
    has no [ex-wine] in its name, whatever case the name is written
    in. *)
Theorem list_compilers_cpp_filtered (items : PyVal) :
  Forall (fun c => is_empty (id c) = false /\ lang c = "c++"
                   /\ contains "ex-wine" (lower (name c)) = false)
         (list_compilers_cpp repr_container items).
Proof.
  assert (H : forall l,
    Forall (fun c => is_empty (id c) = false /\ lang c = "c++"
                     /\ contains "ex-wine" (lower (name c)) = false)
           (omap (compiler_of_item repr_container) l)).
  { intros l. apply Forall_forall. intros c Hc.
    apply list_elem_of_omap in Hc as (it & _ & Hit).
    destruct it as [| | | | |d]; try discriminate.
    cbn [compiler_of_item] in Hit.
    destruct (is_empty _) eqn:E1; [discriminate|].
    destruct (String.eqb _ "c++") eqn:E2; [|discriminate].
    cbn [orb negb] in Hit.
    destruct (contains _ _) eqn:E3; [discriminate|].
    injection Hit as <-. cbn [id lang name].
    apply String.eqb_eq in E2. auto. }
  unfold list_compilers_cpp.
  destruct items as [| | | |l|d]; try (now constructor); [apply H|].
  destruct (get d "compilers"); try (now constructor). apply H.
Qed.

End ListingFacts.

(** ** Include flags ([_iter_include_dirs_from_args]) *)

Section IncludeArgsFacts.
Import PyStr Preprocess IncludeArgs.
Context (fs : FileSystem).
Context (is_absolute : Path -> bool).
Context (resolve : Path -> option Path) (absolute : Path -> Path).

Local Abbreviation iter := (IncludeArgs.iter fs is_absolute resolve absolute).

Lemma startswith_app_cons p c r : startswith p (p ++ String c r) = true.
Proof. apply startswith_app. Qed.

Lemma length_app p s :
  String.length (p ++ s) = (String.length p + String.length s)%nat.
Proof.
  induction p as [|x p IH]; [reflexivity|].
  rewrite append_cons. cbn. now rewrite IH.
Qed.

Lemma length_app_cons p c r :
  (String.length p <? String.length (p ++ String c r))%nat = true.
Proof. apply Nat.ltb_lt. rewrite length_app. cbn. lia. Qed.

Lemma drop_chars_app p s : drop_chars (String.length p) (p ++ s) = s.
Proof.
  induction p as [|x p IH]; [destruct s; reflexivity|].
  rewrite append_cons. cbn. exact IH.
Qed.

Lemma eqb_app_cons p c r : String.eqb (p ++ String c r) p = false.
Proof.
  apply String.eqb_neq. intros E.
  pose proof (f_equal String.length E) as H.
  pose proof (length_app_cons p c r) as L. apply Nat.ltb_lt in L. lia.
Qed.

(** X30.  A flag written apart from its value and the same flag joined to
    it mean the same: for [-I], [-iquote] and [-isystem] and a non-empty
    value [v], the arguments [flag; v; ...] and [flag ++ v; ...] yield
    the same three lists of directories. *)
Theorem iter_include_dirs_joined (flag v : string) (rest : list string)
    (directory : Path) :
  flag = "-I" \/ flag = "-iquote" \/ flag = "-isystem" ->
  is_empty v = false ->
  _iter_include_dirs_from_args fs is_absolute resolve absolute
    (flag :: v :: rest) directory
  = _iter_include_dirs_from_args fs is_absolute resolve absolute
      ((flag ++ v) :: rest) directory.
Proof.
  intros Hf Hv. destruct v as [|c r]; [discriminate|].
  unfold _iter_include_dirs_from_args.
  destruct Hf as [-> | [-> | ->]].
  - cbn [IncludeArgs.iter]. change (flag_alone "-I") with (Some KindI).
    cbv iota.
    assert (E1 : flag_alone ("-I" ++ String c r) = None).
    { unfold flag_alone.
      rewrite (eqb_app_cons "-I"), (startswith_app_cons "-I").
      rewrite (length_app_cons "-I"). reflexivity. }
    assert (E2 : flag_joined ("-I" ++ String c r) = Some (KindI, String c r)).
    { unfold flag_joined.
      rewrite (eqb_app_cons "-I"), (startswith_app_cons "-I").
      rewrite (length_app_cons "-I"). cbn [andb].
      rewrite (drop_chars_app "-I"). reflexivity. }
    rewrite E1, E2. reflexivity.
  - cbn [IncludeArgs.iter].
    change (flag_alone "-iquote") with (Some KindIquote). cbv iota.
    assert (E1 : flag_alone ("-iquote" ++ String c r) = None).
    { unfold flag_alone.
      rewrite (eqb_app_cons "-iquote"), (startswith_app_cons "-iquote").
      rewrite (length_app_cons "-iquote"). reflexivity. }
    assert (E2 : flag_joined ("-iquote" ++ String c r)
                 = Some (KindIquote, String c r)).
    { unfold flag_joined.
      rewrite (eqb_app_cons "-iquote"), (startswith_app_cons "-iquote").
      rewrite (length_app_cons "-iquote").
      rewrite (drop_chars_app "-iquote"). reflexivity. }
    rewrite E1, E2. reflexivity.
  - cbn [IncludeArgs.iter].
    change (flag_alone "-isystem") with (Some KindIsystem). cbv iota.
    assert (E1 : flag_alone ("-isystem" ++ String c r) = None).
    { unfold flag_alone.
      rewrite (eqb_app_cons "-isystem"). reflexivity. }
    assert (E2 : flag_joined ("-isystem" ++ String c r)
                 = Some (KindIsystem, String c r)).
    { unfold flag_joined.
      rewrite (eqb_app_cons "-isystem"), (startswith_app_cons "-isystem").
      rewrite (length_app_cons "-isystem").
      rewrite (drop_chars_app "-isystem"). reflexivity. }
    rewrite E1, E2. reflexivity.
Qed.

End IncludeArgsFacts.

(** ** The properties above on the sample data *)

Lemma flatten_inline_once_reads_once_witness :
  match Preprocess.flatten_user_includes diamond_fs (plain_options true) []
          3 "r.cpp" with
  | Some (_, st') =>
      Preprocess.files_inlined st' = size (Preprocess.inlined st')
  | None => True
  end.
Proof.
  apply (flatten_inline_once_reads_once diamond_fs (plain_options true) []
           3 "r.cpp").
  reflexivity.
Defined.

Lemma flatten_without_includes_witness :
  exists st',
    Preprocess.flatten_user_includes lone_fs verbatim_options [] 1 "m.cpp"
    = Some (Preprocess.FDone lone_text, st')
    /\ Preprocess.files_inlined st' = 1
    /\ Preprocess.include_lines_inlined st' = 0
    /\ Preprocess.include_lines_unresolved st'
       = Preprocess.include_lines_seen st'.
Proof.
  apply (flatten_without_includes lone_fs verbatim_options [] 0 "m.cpp"
           lone_text).
  - reflexivity.
  - reflexivity.
  - reflexivity.
  - reflexivity.
  - reflexivity.
  - repeat constructor; intros nm H; vm_compute in H;
      [injection H as <-; reflexivity|discriminate].
Defined.

Lemma compile_cached_memo_witness :
  Client.compile_cached (fun s => s) accepting_service
    (Client.calls (fun s => s) accepting_service
       (Client.compile_cached (fun s => s) accepting_service fresh_client
          "g141" "int x;" "-std=c++17 -fsyntax-only" None).2
       other_calls)
    "g141" "int x;" "-std=c++17 -fsyntax-only" (Some [])
  = (Client.Returned sample_response,
     Client.calls (fun s => s) accepting_service
       (Client.compile_cached (fun s => s) accepting_service fresh_client
          "g141" "int x;" "-std=c++17 -fsyntax-only" None).2
       other_calls).
Proof.
  apply (compile_cached_memo (fun s => s) accepting_service fresh_client _
           "g141" "int x;" "-std=c++17 -fsyntax-only" None
           (Some []) sample_response other_calls).
  - reflexivity.
  - reflexivity.
  - reflexivity.
Defined.

(** With a library in the list, the call raises before it looks
    anything up. *)
Example compile_cached_with_libraries :
  Client.compile_cached (fun s => s) accepting_service fresh_client
    "g141" "int x;" "-std=c++17 -fsyntax-only" sample_libs
  = (Client.Raises (Client.ENameError "_normalize_ce_library_id"),
     fresh_client).
Proof. reflexivity. Qed.

Lemma request_json_backoff_schedule_witness :
  exists st',
    Http._request_json timeout_world idle_net
    = (Http.NetRaises (Http.RTimeout "timed out"), st')
    /\ Http.url_calls st' = 6
    /\ Http.slept st'
       = [ Http.Finite (QArith_base.Qmake 6 1);
           Http.Finite (QArith_base.Qmake 48 10);
           Http.Finite (QArith_base.Qmake 24 10);
           Http.Finite (QArith_base.Qmake 12 10);
           Http.Finite (QArith_base.Qmake 6 10) ].
Proof.
  apply (request_json_backoff_schedule timeout_world idle_net).
  - split; reflexivity.
  - intros k _. reflexivity.
Defined.

(** An infinite Retry-After is slept on for ever. *)
Example request_json_hangs :
  (Http._request_json stalling_world idle_net).1 = Http.NetHangs.
Proof. vm_compute. reflexivity. Qed.

Lemma iter_include_dirs_joined_witness :
  IncludeArgs._iter_include_dirs_from_args lone_fs (fun _ => false)
    (fun p => Some p) (fun p => p) [ "-isystem"; "inc"; "-DX" ] "/src/"
  = IncludeArgs._iter_include_dirs_from_args lone_fs (fun _ => false)
      (fun p => Some p) (fun p => p) [ "-isysteminc"; "-DX" ] "/src/".
Proof.
  apply (iter_include_dirs_joined lone_fs (fun _ => false) (fun p => Some p)
           (fun p => p) "-isystem" "inc" [ "-DX" ] "/src/").
  - right. right. reflexivity.
  - reflexivity.
Defined.

Lemma migrate_selected_group_keys_sound_witness :
  Migrate.names_group sample_table "gcc|x86-64|GCC 13".
Proof.
  apply (migrate_selected_group_keys_sound sample_table {[ "gcc" ]}).
  apply (bool_decide_unpack _). vm_compute. exact I.
Defined.

Lemma migrate_selected_group_keys_keeps_witness :
  "gcc|x86-64|GCC 13"
  ∈ Migrate._migrate_selected_group_keys sample_table
      {[ "gcc|x86-64|GCC 13"; "clang" ]}.
Proof.
  apply (migrate_selected_group_keys_keeps sample_table
           {[ "gcc|x86-64|GCC 13"; "clang" ]} "gcc" "x86-64" "GCC 13");
    try reflexivity; discriminate.
Defined.
